(** * Inspektor Gadget: wasm operator host, OCI handler and metadata validator

    A shallow embedding of
    - the handle table, the lifecycle and the host calls of the wasm
      operator (pkg/operators/wasm: the operator instance, the data-source
      functions and the field functions it exports to the guest),
    - the layer dispatch and lifecycle fan-out of the OCI handler
      (pkg/operators/ocihandler), and
    - the implementation-family check of the gadget metadata validator
      (pkg/gadgets/run/types/metadata.go),
    followed by the properties established about them. *)

From Stdlib Require Import ZArith Lia Ascii String List.
From stdpp Require Import base option gmap strings list.

Local Open Scope Z_scope.

(** ** Go runtime conventions shared by the embeddings *)

(** What running a piece of Go code can end in: a normal return, a run-time
    panic, or (an artefact of the embedding of [for] loops) too little fuel. *)
Inductive outcome (A : Type) : Type :=
| Done (a : A)
| GoPanic (why : string)
| OutOfFuel.
Arguments Done {A} a.
Arguments GoPanic {A} why.
Arguments OutOfFuel {A}.

(** Go's [error] values are known by their message.  A function returning
    [(T, error)] returns a [result T]; one returning only [error] returns an
    [option error], [None] being [nil]. *)
Definition error := string.

Inductive result (A : Type) : Type :=
| Ok (a : A)
| Err (e : error).
Arguments Ok {A} a.
Arguments Err {A} e.

Module Wasm.

(** *** Machine integers *)

Definition U32 : Z := 2 ^ 32.
Definition U64 : Z := 2 ^ 64.

(** [uint32(x)], [uint8(x)], ... of an unsigned value *)
Definition uint32 (x : Z) : Z := x mod U32.
Definition uint64 (x : Z) : Z := x mod U64.

(** wapi.DecodeU32 / wapi.EncodeU32 / wapi.DecodeI32 of wazero *)
Definition DecodeU32 (v : Z) : Z := uint32 v.
Definition EncodeU32 (v : Z) : Z := v.
Definition DecodeI32 (v : Z) : Z :=
  let u := uint32 v in if u <? 2 ^ 31 then u else u - U32.

(** *** Host objects *)

(** Objects of package datasource are known to the host by identity only:
    a data source by its name, a record by a number, an accessor by its
    field name and static size. *)
Definition DataSource := string.
Definition Data := Z.
Record FieldAccessor := mkFieldAccessor { accName : string; accSize : Z }.

(** The dynamic type of a non-nil [any] stored in the handle table. *)
Inductive object : Type :=
| ODataSource (ds : DataSource)
| OFieldAccessor (acc : FieldAccessor)
| OData (d : Data)
| OOther (tag : string).

(** [x.(datasource.DataSource)] and friends, in their comma-ok form. *)
Definition asDataSource (x : option object) : option DataSource :=
  match x with Some (ODataSource ds) => Some ds | _ => None end.
Definition asFieldAccessor (x : option object) : option FieldAccessor :=
  match x with Some (OFieldAccessor acc) => Some acc | _ => None end.
Definition asData (x : option object) : option Data :=
  match x with Some (OData d) => Some d | _ => None end.

(** api.Kind *)
Inductive Kind : Type :=
| Kind_Invalid | Kind_Bool
| Kind_Int8 | Kind_Int16 | Kind_Int32 | Kind_Int64
| Kind_Uint8 | Kind_Uint16 | Kind_Uint32 | Kind_Uint64
| Kind_Float32 | Kind_Float64 | Kind_String | Kind_CString.

Definition Kind_of (v : Z) : option Kind :=
  match v with
  | 0 => Some Kind_Invalid | 1 => Some Kind_Bool
  | 2 => Some Kind_Int8 | 3 => Some Kind_Int16
  | 4 => Some Kind_Int32 | 5 => Some Kind_Int64
  | 6 => Some Kind_Uint8 | 7 => Some Kind_Uint16
  | 8 => Some Kind_Uint32 | 9 => Some Kind_Uint64
  | 10 => Some Kind_Float32 | 11 => Some Kind_Float64
  | 12 => Some Kind_String | 13 => Some Kind_CString
  | _ => None
  end.

(** A value of Go's float32 or float64: not a number, an infinity, or the
    number [m * 2 ^ e]. *)
Inductive float : Type :=
| FNaN
| FInf (negative : bool)
| FNum (m e : Z).

(** The integer part of [m * 2 ^ e]: the fraction is discarded. *)
Definition truncate (m e : Z) : Z :=
  if 0 <=? e then m * 2 ^ e else Z.quot m (2 ^ (- e)).

(** *** What the host does to its collaborators *)

(** logrus levels, in logrus order (Panic = 0 .. Trace = 6) *)
Inductive Level : Type :=
| PanicLevel | FatalLevel | ErrorLevel | WarnLevel
| InfoLevel | DebugLevel | TraceLevel.

Inductive logarg : Type :=
| AInt (z : Z)
| AStr (s : string)
| AErr (e : error).

(** Calls that leave the wasm package. *)
Inductive extcall : Type :=
| RegisterDataSource (kind : Z) (name : string)
| GetDataSources (name : string)
| DsGetField (ds : DataSource) (name : string)
| DsAddField (ds : DataSource) (name : string)
| DsSubscribe (ds : DataSource) (cbID : Z) (prio : Z)
| DsNewData (ds : DataSource)
| DsEmitAndRelease (ds : DataSource) (d : Data)
| DsRelease (ds : DataSource) (d : Data)
| AccString (acc : FieldAccessor) (d : Data)
| AccSet (acc : FieldAccessor) (d : Data) (buf : string)
| AccGet (k : Kind) (acc : FieldAccessor) (d : Data)
| AccPut (k : Kind) (acc : FieldAccessor) (d : Data) (v : Z)
| GuestMalloc (size : Z)
| GuestDsCallback (cbID : Z) (ds : Z) (data : Z)
| GuestStop.

Inductive event : Type :=
| Log (lvl : Level) (format : string) (args : list logarg)
| Call (c : extcall).

(** *** The instance *)

(** wasmOperatorInstance.  [handleMap = None] is Go's nil map.  [memory] is
    the linear memory of [mod], one byte per cell; [events] is what the
    logger, the datasource package and the guest have been asked to do so
    far, oldest first. *)
Record wasmOperatorInstance : Type := mkInstance {
  handleMap : option (gmap Z object);
  handleCtr : Z;
  memory : list ascii;
  events : list event;
}.

Definition set_handleMap (m : option (gmap Z object)) (i : wasmOperatorInstance) :=
  mkInstance m (handleCtr i) (memory i) (events i).
Definition set_handleCtr (c : Z) (i : wasmOperatorInstance) :=
  mkInstance (handleMap i) c (memory i) (events i).
Definition set_memory (mem : list ascii) (i : wasmOperatorInstance) :=
  mkInstance (handleMap i) (handleCtr i) mem (events i).
Definition emit (e : event) (i : wasmOperatorInstance) :=
  mkInstance (handleMap i) (handleCtr i) (memory i) (events i ++ [e]).

(** wasmOperator.InstantiateImageOperator: [handleMap: map[uint32]any{}] and
    a zero counter. *)
Definition InstantiateImageOperator (mem : list ascii) : wasmOperatorInstance :=
  mkInstance (Some ∅) 0 mem [].

(** Code that runs against an instance. *)
Definition M (A : Type) : Type := wasmOperatorInstance → outcome (A * wasmOperatorInstance).

Definition ret {A} (a : A) : M A := λ i, Done (a, i).
Definition bind {A B} (m : M A) (f : A → M B) : M B :=
  λ i, match m i with
       | Done (a, i') => f a i'
       | GoPanic why => GoPanic why
       | OutOfFuel => OutOfFuel
       end.

Notation "'do' x <- m ; k" := (bind m (λ x, k))
  (at level 10, x name, m at level 100, k at level 200).
Notation "m ;; k" := (bind m (λ _, k))
  (at level 100, k at level 200, right associativity).

Definition gets {A} (f : wasmOperatorInstance → A) : M A := λ i, Done (f i, i).
Definition modify (f : wasmOperatorInstance → wasmOperatorInstance) : M unit :=
  λ i, Done (tt, f i).
Definition panic {A} (why : string) : M A := λ _, GoPanic why.

(** logger.Warnf, logger.Debugf, logger.Info *)
Definition logWarnf (format : string) (args : list logarg) : M unit :=
  modify (emit (Log WarnLevel format args)).
Definition logDebugf (format : string) (args : list logarg) : M unit :=
  modify (emit (Log DebugLevel format args)).
Definition logInfo (msg : string) : M unit :=
  modify (emit (Log InfoLevel msg [])).
Definition call (c : extcall) : M unit := modify (emit (Call c)).

(** *** The handle table *)

(** [i.handleCtr++] on a uint32 *)
Definition incr32 (c : Z) : Z := (c + 1) mod U32.

(** The [for] loop of addHandle.  [xctr] is a Go [int]; the counter
    [i.handleCtr] is not touched inside the loop. *)
Fixpoint addHandle_loop (fuel : nat) (obj : object) (xctr : Z) : M Z :=
  λ i,
  match fuel with
  | O => OutOfFuel
  | S fuel' =>
      if xctr >? 2 ^ 32 then
        (* exhausted *)
        Done (0, i)
      else
        match handleMap i with
        | None =>
            (* a nil map has no entry, so the registration is attempted *)
            GoPanic "assignment to entry in nil map"
        | Some m =>
            match m !! handleCtr i with
            | None =>
                (* register new entry *)
                Done (handleCtr i, set_handleMap (Some (<[handleCtr i := obj]> m)) i)
            | Some _ => addHandle_loop fuel' obj (xctr + 1) i
            end
        end
  end.

Definition addHandle (fuel : nat) (obj : option object) : M Z :=
  match obj with
  | None => ret 0
  | Some o =>
      modify (λ i, set_handleCtr (incr32 (handleCtr i)) i) ;;
      do c <- gets handleCtr ;
      (if c =? 0 then (* 0 is reserved *)
         modify (λ i, set_handleCtr (incr32 (handleCtr i)) i)
       else ret tt) ;;
      addHandle_loop fuel o 0
  end.

Definition lookupHandle (i : wasmOperatorInstance) (handleID : Z) : option object :=
  match handleMap i with
  | Some m => m !! handleID
  | None => None
  end.

Definition getHandle (handleID : Z) : M (option object) :=
  gets (λ i, lookupHandle i handleID).

Definition delHandle (handleID : Z) : M unit :=
  modify (λ i, set_handleMap (delete handleID <$> handleMap i) i).

(** *** Guest memory and string references *)

(** Memory.Read and Memory.Write of wazero: both refuse a range that does not
    lie inside the memory and leave it untouched then. *)
Definition Memory_Read (mem : list ascii) (offset byteCount : Z) : option (list ascii) :=
  if offset + byteCount <=? Z.of_nat (length mem)
  then Some (take (Z.to_nat byteCount) (drop (Z.to_nat offset) mem))
  else None.

Definition Memory_Write (mem : list ascii) (offset : Z) (v : list ascii) : option (list ascii) :=
  if offset + Z.of_nat (length v) <=? Z.of_nat (length mem)
  then Some (take (Z.to_nat offset) mem ++ v
             ++ drop (Z.to_nat offset + length v) mem)
  else None.

(** Modelled from the spec: stringFromStack is not in the sources at hand.
    "A string reference is a 64-bit value encoding [(length << 32) | pointer]
    into the guest's linear memory; length is u32 and pointer is u32", and
    for a guest-to-host argument the "host reads [length] bytes at [pointer],
    copies into host memory". *)
Definition stringFromStack (mem : list ascii) (val : Z) : result string :=
  let ptr := uint32 val in
  let len := uint32 (Z.shiftr val 32) in
  match Memory_Read mem ptr len with
  | Some buf => Ok (string_of_list_ascii buf)
  | None => Err "reading string from memory"
  end.

(** The string reference of [len] bytes at [ptr]:
    [uint64(len)<<32 | uint64(ptr)] *)
Definition stringRef (len ptr : Z) : Z :=
  Z.lor (uint64 (Z.shiftl len 32)) ptr.

(** *** Operand stack of a host function *)

(** [stack[n]] *)
Definition peek (stack : list Z) (n : nat) : M Z :=
  match stack !! n with
  | Some v => ret v
  | None => panic "index out of range"
  end.

(** [stack[0] = v] *)
Definition poke0 (stack : list Z) (v : Z) : M (list Z) :=
  match stack with
  | _ :: _ => ret (<[0%nat := v]> stack)
  | [] => panic "index out of range"
  end.

(** *** Collaborators *)

(** The gadget context, package datasource and the guest module are not part
    of the wasm package.  Their answers are taken as given; an answer may
    depend on everything that has been asked of them before. *)
Record Externals : Type := {
  (* gadgetCtx.RegisterDataSource(kind, name) *)
  ctx_RegisterDataSource : list event → Z → string → result DataSource;
  (* gadgetCtx.GetDataSources()[name] *)
  ctx_GetDataSources : list event → string → option DataSource;
  (* ds.GetField(name), nil when there is none *)
  ds_GetField : list event → DataSource → string → option FieldAccessor;
  (* ds.AddField(name) *)
  ds_AddField : list event → DataSource → string → result FieldAccessor;
  (* ds.NewData() *)
  ds_NewData : list event → DataSource → option Data;
  (* acc.String(data) *)
  acc_String : list event → FieldAccessor → Data → string;
  (* acc.Set(data, buf) *)
  acc_Set : list event → FieldAccessor → Data → string → option error;
  (* ds.EmitAndRelease(data): the functions subscribed to the data source
     run before it returns, those handed over by dataSourceSubscribe
     included, and these run against this instance *)
  ds_EmitAndRelease : DataSource → Data → M (option error);
  (* uint64(acc.Int8(data)), uint64(acc.Uint32(data)), ...: the integer
     kinds *)
  acc_Get : list event → Kind → FieldAccessor → Data → Z;
  (* acc.Float32(data), acc.Float64(data) *)
  acc_Float : list event → Kind → FieldAccessor → Data → float;
  (* uint64(f) for an [f] whose integer part no uint64 holds: the result
     depends on the implementation of Go *)
  float_overflow : float → Z;
  (* m.ExportedFunction("dsCallback") != nil *)
  guest_exports_dsCallback : bool;
  (* i.guestMalloc.Call(ctx, size): res[0] or an error; the guest's malloc
     runs in the guest, which may grow and write its memory *)
  guest_malloc : Z → M (result Z);
  (* cb.Call(ctx, cbID, ds, data) of the guest's dsCallback; the guest may
     call back into the host while it runs *)
  guest_dsCallback : Z → Z → Z → M (option error);
  (* i.mod.ExportedFunction("stop") and what calling it does *)
  guest_stop : option (M (option error));
}.

(** Ask a collaborator: the call is recorded, the answer is the one given
    for the history before the call. *)
Definition ask {A} (c : extcall) (answer : list event → A) : M A :=
  λ i, Done (answer (events i), emit (Call c) i).

(** [int8(x)], [int16(x)], ... and [uint8(x)], ... of a uint64 *)
Definition uintN (w : Z) (x : Z) : Z := x mod 2 ^ w.
Definition sintN (w : Z) (x : Z) : Z :=
  let u := x mod 2 ^ w in if u <? 2 ^ (w - 1) then u else u - 2 ^ w.

(** [uint64(f)] of a float: the integer part where a uint64 holds it. *)
Definition uint64_of_float (E : Externals) (f : float) : Z :=
  match f with
  | FNum m e =>
      let t := truncate m e in
      if (0 <=? t) && (t <? U64) then t else uint64 (float_overflow E f)
  | _ => uint64 (float_overflow E f)
  end.

Section HostCalls.
Context (E : Externals) (fuel : nat).

(** **** Functions exported by init *)

(** The function exported as "xlog"; it is registered with a single i64
    parameter and reads the message reference from [stack[0]]. *)
Definition xlog (stack : list Z) : M (list Z) :=
  (* TODO: implement log level *)
  do s0 <- peek stack 0 ;
  do mem <- gets memory ;
  match stringFromStack mem s0 with
  | Err err =>
      logWarnf "reading string from stack: %v" [AErr err] ;;
      ret stack
  | Ok buf =>
      logInfo buf ;;
      ret stack
  end.

(** **** Data-source functions (addDataSourceFuncs) *)

Definition newDataSource (stack : list Z) : M (list Z) :=
  do s0 <- peek stack 0 ;
  do mem <- gets memory ;
  match stringFromStack mem s0 with
  | Err err =>
      logWarnf "reading string from stack: %v" [AErr err] ;;
      poke0 stack 0
  | Ok dsName =>
      do r <- ask (RegisterDataSource 0 dsName)
                  (λ h, ctx_RegisterDataSource E h 0 dsName) ;
      match r with
      | Err err =>
          logWarnf "failed to register datasource: %v" [AErr err] ;;
          poke0 stack 0
      | Ok ds =>
          do h <- addHandle fuel (Some (ODataSource ds)) ;
          poke0 stack (EncodeU32 h)
      end
  end.

Definition getDataSource (stack : list Z) : M (list Z) :=
  do s0 <- peek stack 0 ;
  do mem <- gets memory ;
  match stringFromStack mem s0 with
  | Err err =>
      logWarnf "reading string from stack: %v" [AErr err] ;;
      poke0 stack 0
  | Ok dsName =>
      do ds <- ask (GetDataSources dsName) (λ h, ctx_GetDataSources E h dsName) ;
      match ds with
      | None =>
          logDebugf "datasource not found %q" [AStr dsName] ;;
          poke0 stack 0
      | Some ds =>
          do h <- addHandle fuel (Some (ODataSource ds)) ;
          poke0 stack (EncodeU32 h)
      end
  end.

Definition dataSourceGetField (stack : list Z) : M (list Z) :=
  do s0 <- peek stack 0 ;
  do x <- getHandle (DecodeU32 s0) ;
  match asDataSource x with
  | None =>
      logWarnf "datasource handle %d not found" [AInt s0] ;;
      poke0 stack 0
  | Some ds =>
      do s1 <- peek stack 1 ;
      do mem <- gets memory ;
      match stringFromStack mem s1 with
      | Err err =>
          logWarnf "reading string from stack: %v" [AErr err] ;;
          poke0 stack 0
      | Ok fieldName =>
          do acc <- ask (DsGetField ds fieldName) (λ h, ds_GetField E h ds fieldName) ;
          do h <- addHandle fuel (OFieldAccessor <$> acc) ;
          poke0 stack (EncodeU32 h)
      end
  end.

Definition dataSourceAddField (stack : list Z) : M (list Z) :=
  do s0 <- peek stack 0 ;
  do x <- getHandle (DecodeU32 s0) ;
  match asDataSource x with
  | None =>
      logWarnf "datasource handle %d not found" [AInt s0] ;;
      poke0 stack 0
  | Some ds =>
      do s1 <- peek stack 1 ;
      do mem <- gets memory ;
      match stringFromStack mem s1 with
      | Err err =>
          logWarnf "reading string from stack: %v" [AErr err] ;;
          poke0 stack 0
      | Ok fieldName =>
          do r <- ask (DsAddField ds fieldName) (λ h, ds_AddField E h ds fieldName) ;
          match r with
          | Err err =>
              logWarnf "adding field %q to datasource %q: %v"
                       [AStr fieldName; AStr ds; AErr err] ;;
              poke0 stack 0
          | Ok acc =>
              do h <- addHandle fuel (Some (OFieldAccessor acc)) ;
              poke0 stack (EncodeU32 h)
          end
      end
  end.

(** The function handed to [ds.Subscribe] by dataSourceSubscribe. *)
Definition subscriptionCallback (cbID : Z) (source : DataSource) (data : Data)
  : M (option error) :=
  do tmpDS <- addHandle fuel (Some (ODataSource source)) ;
  do tmpData <- addHandle fuel (Some (OData data)) ;
  call (GuestDsCallback cbID (EncodeU32 tmpDS) (EncodeU32 tmpData)) ;;
  do err <- guest_dsCallback E cbID (EncodeU32 tmpDS) (EncodeU32 tmpData) ;
  delHandle tmpDS ;;
  delHandle tmpData ;;
  ret err.

Definition dataSourceSubscribe (stack : list Z) : M (list Z) :=
  do s0 <- peek stack 0 ;
  do x <- getHandle (DecodeU32 s0) ;
  match asDataSource x with
  | None =>
      logWarnf "datasource handle %d not found" [AInt s0] ;;
      poke0 stack 1
  | Some ds =>
      do s1 <- peek stack 1 ;
      let prio := DecodeI32 s1 in
      do cbID <- peek stack 2 ;
      if guest_exports_dsCallback E then
        call (DsSubscribe ds cbID prio) ;;
        poke0 stack 0
      else
        logWarnf "module doesn't export dsCallback" [] ;;
        poke0 stack 1
  end.

Definition dataSourceNewData (stack : list Z) : M (list Z) :=
  do s0 <- peek stack 0 ;
  do x <- getHandle (DecodeU32 s0) ;
  match asDataSource x with
  | None =>
      logWarnf "datasource handle %d not found" [AInt s0] ;;
      poke0 stack 0
  | Some ds =>
      do data <- ask (DsNewData ds) (λ h, ds_NewData E h ds) ;
      do h <- addHandle fuel (OData <$> data) ;
      poke0 stack (EncodeU32 h)
  end.

Definition dataSourceEmitAndRelease (stack : list Z) : M (list Z) :=
  do s0 <- peek stack 0 ;
  do x <- getHandle (DecodeU32 s0) ;
  match asDataSource x with
  | None =>
      logWarnf "datasource handle %d not found" [AInt s0] ;;
      poke0 stack 1
  | Some ds =>
      do s1 <- peek stack 1 ;
      do y <- getHandle (DecodeU32 s1) ;
      match asData y with
      | None =>
          logWarnf "data handle %d not found" [AInt s1] ;;
          poke0 stack 1
      | Some data =>
          call (DsEmitAndRelease ds data) ;;
          (* the error is dropped *)
          ds_EmitAndRelease E ds data ;;
          poke0 stack 0
      end
  end.

Definition dataSourceRelease (stack : list Z) : M (list Z) :=
  do s0 <- peek stack 0 ;
  do x <- getHandle (DecodeU32 s0) ;
  match asDataSource x with
  | None =>
      logWarnf "datasource handle %d not found" [AInt s0] ;;
      poke0 stack 1
  | Some ds =>
      do s1 <- peek stack 1 ;
      do y <- getHandle (DecodeU32 s1) ;
      match asData y with
      | None =>
          logWarnf "data handle %d not found" [AInt s1] ;;
          poke0 stack 1
      | Some data =>
          call (DsRelease ds data) ;;
          poke0 stack 0
      end
  end.

(** **** Field functions (addFieldFuncs, fields.go) *)

Definition fieldAccessorGetString (stack : list Z) : M (list Z) :=
  do s0 <- peek stack 0 ;
  do x <- getHandle (DecodeU32 s0) ;
  match asFieldAccessor x with
  | None =>
      logWarnf "field handle %d not found" [AInt s0] ;;
      poke0 stack 0
  | Some acc =>
      do s1 <- peek stack 1 ;
      do y <- getHandle (DecodeU32 s1) ;
      match asData y with
      | None =>
          logWarnf "data handle %d not found" [AInt s1] ;;
          poke0 stack 0
      | Some data =>
          do str <- ask (AccString acc data) (λ h, acc_String E h acc data) ;
          let len := Z.of_nat (String.length str) in
          call (GuestMalloc len) ;;
          do res <- guest_malloc E len ;
          match res with
          | Err err =>
              logWarnf "malloc failed: %v" [AErr err] ;;
              poke0 stack 0
          | Ok res0 =>
              do mem <- gets memory ;
              match Memory_Write mem (uint32 res0) (list_ascii_of_string str) with
              | None =>
                  logWarnf "out of memory write" [] ;;
                  poke0 stack 0
              | Some mem' =>
                  modify (set_memory mem') ;;
                  poke0 stack (stringRef len res0)
              end
          end
      end
  end.

(** [make([]byte, n)] as a string of [n] zero bytes *)
Fixpoint zeros (n : nat) : string :=
  match n with
  | O => EmptyString
  | S n' => String zero (zeros n')
  end.

Definition fieldAccessorSetString (stack : list Z) : M (list Z) :=
  do s0 <- peek stack 0 ;
  do x <- getHandle (DecodeU32 s0) ;
  match asFieldAccessor x with
  | None =>
      logWarnf "field handle %d not found" [AInt s0] ;;
      poke0 stack 0
  | Some acc =>
      do s1 <- peek stack 1 ;
      do y <- getHandle (DecodeU32 s1) ;
      match asData y with
      | None =>
          logWarnf "data handle %d not found" [AInt s1] ;;
          poke0 stack 0
      | Some data =>
          do s2 <- peek stack 2 ;
          do mem <- gets memory ;
          match stringFromStack mem s2 with
          | Err err =>
              logWarnf "reading string from stack: %v" [AErr err] ;;
              poke0 stack 0
          | Ok str =>
              let buf := str in
              (* fill the string with 0s if it's a static field *)
              let s := accSize acc in
              let set (buf : string) : M (list Z) :=
                do err <- ask (AccSet acc data buf) (λ h, acc_Set E h acc data buf) ;
                match err with
                | Some err =>
                    logWarnf "setting string failed: %v" [AErr err] ;;
                    poke0 stack 0
                | None => ret stack
                end in
              if negb (s =? 0) then
                if Z.of_nat (String.length buf) >? s then
                  logWarnf "string too long: %d > %d"
                           [AInt (Z.of_nat (String.length buf)); AInt s] ;;
                  poke0 stack 0
                else
                  set (buf ++ zeros (Z.to_nat s - String.length buf))%string
              else
                set buf
          end
      end
  end.

(** [api.Kind(stack[2])]: api.Kind is an int32 *)
Definition Kind_of_stack (v : Z) : option Kind := Kind_of (sintN 32 v).

Definition fieldAccessorGet (stack : list Z) : M (list Z) :=
  do s0 <- peek stack 0 ;
  do x <- getHandle (DecodeU32 s0) ;
  match asFieldAccessor x with
  | None =>
      logWarnf "field handle %d not found" [AInt s0] ;;
      poke0 stack 0
  | Some acc =>
      do s1 <- peek stack 1 ;
      do y <- getHandle (DecodeU32 s1) ;
      match asData y with
      | None =>
          logWarnf "data handle %d not found" [AInt s1] ;;
          poke0 stack 0
      | Some data =>
          do s2 <- peek stack 2 ;
          let get (k : Kind) : M (list Z) :=
            do v <- ask (AccGet k acc data) (λ h, acc_Get E h k acc data) ;
            poke0 stack v in
          let getFloat (k : Kind) : M (list Z) :=
            do v <- ask (AccGet k acc data) (λ h, acc_Float E h k acc data) ;
            poke0 stack (uint64_of_float E v) in
          match Kind_of_stack s2 with
          | Some Kind_Int8 => get Kind_Int8
          | Some Kind_Int16 => get Kind_Int16
          | Some Kind_Int32 => get Kind_Int32
          | Some Kind_Int64 => get Kind_Int64
          | Some Kind_Uint8 => get Kind_Uint8
          | Some Kind_Uint16 => get Kind_Uint16
          | Some Kind_Uint32 => get Kind_Uint32
          | Some Kind_Uint64 => get Kind_Uint64
          | Some Kind_Float32 => getFloat Kind_Float32
          | Some Kind_Float64 => getFloat Kind_Float64
          | _ =>
              logWarnf "unknown field kind: %d" [AInt s2] ;;
              poke0 stack 0
          end
      end
  end.

Definition fieldAccessorSet (stack : list Z) : M (list Z) :=
  do s0 <- peek stack 0 ;
  do x <- getHandle (DecodeU32 s0) ;
  match asFieldAccessor x with
  | None =>
      logWarnf "field handle %d not found" [AInt s0] ;;
      poke0 stack 0
  | Some acc =>
      do s1 <- peek stack 1 ;
      do y <- getHandle (DecodeU32 s1) ;
      match asData y with
      | None =>
          logWarnf "data handle %d not found" [AInt s1] ;;
          poke0 stack 0
      | Some data =>
          do s2 <- peek stack 2 ;
          let put (k : Kind) (conv : Z → Z) : M unit :=
            do s3 <- peek stack 3 ;
            call (AccPut k acc data (conv s3)) in
          match Kind_of_stack s2 with
          | Some Kind_Int8 =>
              put Kind_Int8 (sintN 8) ;;
              do v <- ask (AccGet Kind_Int8 acc data)
                          (λ h, acc_Get E h Kind_Int8 acc data) ;
              poke0 stack v
          | Some Kind_Int16 => put Kind_Int16 (sintN 16) ;; ret stack
          | Some Kind_Int32 => put Kind_Int32 (sintN 32) ;; ret stack
          | Some Kind_Int64 => put Kind_Int64 (sintN 64) ;; ret stack
          | Some Kind_Uint8 => put Kind_Uint8 (uintN 8) ;; ret stack
          | Some Kind_Uint16 => put Kind_Uint16 (uintN 16) ;; ret stack
          | Some Kind_Uint32 => put Kind_Uint32 (uintN 32) ;; ret stack
          | Some Kind_Uint64 => put Kind_Uint64 (uintN 64) ;; ret stack
          | _ =>
              logWarnf "unknown field kind: %d" [AInt s2] ;;
              poke0 stack 0
          end
      end
  end.

(** **** Lifecycle *)

(** The deferred cleanup of Stop: [i.handleMap = nil]. *)
Definition cleanup (i : wasmOperatorInstance) : wasmOperatorInstance :=
  set_handleMap None i.

Definition Stop : M (option error) :=
  λ i,
  let body : M (option error) :=
    match guest_stop E with
    | None => ret None
    | Some fn =>
        call GuestStop ;;
        fn
    end in
  (* the deferred function runs when the body has returned *)
  match body i with
  | Done (err, i') => Done (err, cleanup i')
  | GoPanic why => GoPanic why
  | OutOfFuel => OutOfFuel
  end.

(** **** The host module "env" *)

Inductive ValueType : Type := ValueTypeI32 | ValueTypeI64.

(** The imports of the ABI that the sources export from "env". *)
Inductive import : Type :=
| Ixlog
| InewDataSource | IgetDataSource
| IdataSourceSubscribe | IdataSourceGetField | IdataSourceAddField
| IdataSourceNewData | IdataSourceEmitAndRelease | IdataSourceRelease
| IfieldAccessorGetString | IfieldAccessorSetString
| IfieldAccessorGet | IfieldAccessorSet.

Definition hostFunction (f : import) : list Z → M (list Z) :=
  match f with
  | Ixlog => xlog
  | InewDataSource => newDataSource
  | IgetDataSource => getDataSource
  | IdataSourceSubscribe => dataSourceSubscribe
  | IdataSourceGetField => dataSourceGetField
  | IdataSourceAddField => dataSourceAddField
  | IdataSourceNewData => dataSourceNewData
  | IdataSourceEmitAndRelease => dataSourceEmitAndRelease
  | IdataSourceRelease => dataSourceRelease
  | IfieldAccessorGetString => fieldAccessorGetString
  | IfieldAccessorSetString => fieldAccessorSetString
  | IfieldAccessorGet => fieldAccessorGet
  | IfieldAccessorSet => fieldAccessorSet
  end.

End HostCalls.

(** Parameter and result types each function is registered with
    (init, addDataSourceFuncs, addFieldFuncs). *)
Definition signature (f : import) : list ValueType * list ValueType :=
  match f with
  | Ixlog => ([ValueTypeI64], [])
  | InewDataSource => ([ValueTypeI64], [ValueTypeI32])
  | IgetDataSource => ([ValueTypeI64], [ValueTypeI32])
  | IdataSourceSubscribe => ([ValueTypeI32; ValueTypeI32; ValueTypeI64], [])
  | IdataSourceGetField => ([ValueTypeI32; ValueTypeI64], [ValueTypeI32])
  | IdataSourceAddField => ([ValueTypeI32; ValueTypeI64], [ValueTypeI32])
  | IdataSourceNewData => ([ValueTypeI32], [ValueTypeI32])
  | IdataSourceEmitAndRelease => ([ValueTypeI32; ValueTypeI32], [ValueTypeI32])
  | IdataSourceRelease => ([ValueTypeI32; ValueTypeI32], [])
  | IfieldAccessorGetString => ([ValueTypeI32; ValueTypeI32], [ValueTypeI64])
  | IfieldAccessorSetString => ([ValueTypeI32; ValueTypeI32; ValueTypeI64], [])
  | IfieldAccessorGet => ([ValueTypeI32; ValueTypeI32; ValueTypeI32], [ValueTypeI64])
  | IfieldAccessorSet =>
      ([ValueTypeI32; ValueTypeI32; ValueTypeI32; ValueTypeI64], [])
  end.



(** *** Vocabulary for the statements about the wasm host *)

(** The value of [i.handleCtr] when addHandle enters its loop: one more
    than before, and one more again if that is 0. *)
Definition nextCtr (c : Z) : Z :=
  if incr32 c =? 0 then incr32 (incr32 c) else incr32 c.








(** The record [d] has been handed to the datasource package for release,
    with or without emitting it. *)
Definition released (d : Data) (evs : list event) : bool :=
  existsb (λ e, match e with
                | Call (DsEmitAndRelease _ d') | Call (DsRelease _ d') => d =? d'
                | _ => false
                end) evs.

(** Collaborators that refuse everything: no data sources, no fields, a
    guest without exports. *)
Definition barren : Externals := {|
  ctx_RegisterDataSource := λ _ _ _, Err "refused";
  ctx_GetDataSources := λ _ _, None;
  ds_GetField := λ _ _ _, None;
  ds_AddField := λ _ _ _, Err "refused";
  ds_NewData := λ _ _, None;
  acc_String := λ _ _ _, EmptyString;
  acc_Set := λ _ _ _ _, None;
  ds_EmitAndRelease := λ _ _, ret None;
  acc_Get := λ _ _ _ _, 0;
  acc_Float := λ _ _ _ _, FNum 0 0;
  float_overflow := λ _, 0;
  guest_exports_dsCallback := false;
  guest_malloc := λ _, ret (Err "no malloc");
  guest_dsCallback := λ _ _ _, ret None;
  guest_stop := None;
|}.

(** An instance that holds one record, under handle 1, and no data source. *)
Definition oneRecord : wasmOperatorInstance :=
  mkInstance (Some {[ 1 := OData 9 ]}) 1 [] [].

(** An instance that holds the accessor of a field of static size 8 under
    handle 1 and a record under handle 2; guest memory holds sixteen bytes. *)
Definition staticField : wasmOperatorInstance :=
  mkInstance (Some {[ 1 := OFieldAccessor (mkFieldAccessor "comm" 8);
                      2 := OData 9 ]})
             2 (list_ascii_of_string "inspektor-gadget") [].

(** A guest that calls back into the host from dsCallback and then traps,
    and whose stop fails. *)
Definition unruly : Externals := {|
  ctx_RegisterDataSource := λ _ _ name, Ok name;
  ctx_GetDataSources := λ _ name, Some name;
  ds_GetField := λ _ _ name, Some (mkFieldAccessor name 0);
  ds_AddField := λ _ _ name, Ok (mkFieldAccessor name 0);
  ds_NewData := λ _ _, Some 0;
  acc_String := λ _ _ _, EmptyString;
  acc_Set := λ _ _ _ _, Some "read-only";
  ds_EmitAndRelease := λ _ _, ret None;
  acc_Get := λ _ _ _ _, 0;
  acc_Float := λ _ _ _ _, FNum 0 0;
  float_overflow := λ _, 0;
  guest_exports_dsCallback := true;
  guest_malloc := λ _, ret (Ok 0);
  guest_dsCallback := λ _ ds _,
    do x <- getHandle (DecodeU32 ds) ;
    do h <- addHandle 1 x ;
    ret (Some "wasm error: unreachable");
  guest_stop := Some (ret (Some "module closed with context deadline exceeded"));
|}.

(** A new instance whose guest memory holds "boom" at offset 4. *)
Definition boomGuest : wasmOperatorInstance :=
  InstantiateImageOperator (list_ascii_of_string "....boom").

(** An instance whose counter has wrapped around: handle 1 is still held,
    every other id is free, and the counter stands at its largest value. *)
Definition wrapped : wasmOperatorInstance :=
  mkInstance (Some {[ 1 := ODataSource "dns" ]}) (2 ^ 32 - 1) [] [].

(** Enough fuel for any run of the loop of addHandle. *)
Definition plenty : nat := Z.to_nat (2 ^ 32 + 2).

End Wasm.

(** ** Prepare and Start of the wasm operator instance *)

Module WasmLifecycle.

(** Calling a method on a nil interface value *)
Definition nilDereference : string :=
  "invalid memory address or nil pointer dereference".

(** wapi.Function, known by what [Call] returns: the results or an error. *)
Definition wapiFunction : Type := result (list Z).

(** wapi.Module, as far as Prepare and Start use it. *)
Record wapiModule : Type := mkModule {
  ExportedFunction : string → option wapiFunction;
}.

(** An error of InstantiateWithConfig: a [*sys.ExitError] with its exit
    code, or another one. *)
Inductive instantiateError : Type :=
| ExitError (code : Z) (msg : string)
| OtherError (msg : string).

Definition Error_ (e : instantiateError) : error :=
  match e with
  | ExitError _ msg | OtherError msg => msg
  end.

(** What the instance obtains for its layer: the answer of
    oci.GetContentFromDescriptor (an error, or a reader) and that of
    InstantiateWithConfig on the bytes read. *)
Record Program : Type := mkProgram {
  GetContentFromDescriptor : option error;
  InstantiateWithConfig : option wapiModule * option instantiateError;
}.

(** wasmOperatorInstance: the fields Prepare and Start use. *)
Record wasmOperatorInstance : Type := mkInstance {
  mod_ : option wapiModule;   (* mod *)
  guestMalloc : option wapiFunction;
}.

(** wasmOperator.InstantiateImageOperator leaves [mod] and [guestMalloc]
    nil. *)
Definition InstantiateImageOperator : wasmOperatorInstance := mkInstance None None.

(** init, from where it fetches the program; before that it builds the host
    module "env". *)
Definition init (p : Program) (i : wasmOperatorInstance)
  : outcome (option error * wasmOperatorInstance) :=
  match GetContentFromDescriptor p with
  | Some err => Done (Some ("getting wasm program: " ++ err)%string, i)
  | None =>
      let '(mod_, err) := InstantiateWithConfig p in
      match err with
      | Some (OtherError msg) =>
          (* log.Panicln(err) *)
          GoPanic msg
      | _ =>
          (* i.mod = mod; i.guestMalloc = mod.ExportedFunction("malloc") *)
          match mod_ with
          | None => GoPanic nilDereference
          | Some m =>
              Done (Error_ <$> err, mkInstance (Some m) (ExportedFunction m "malloc"))
          end
      end
  end.

Definition Init (i : wasmOperatorInstance) : outcome (option error) :=
  match mod_ i with
  | None => GoPanic nilDereference
  | Some m =>
      match ExportedFunction m "init" with
      | None => Done None
      | Some (Err err) => Done (Some err)
      | Some (Ok ret) =>
          match ret with
          | [] => GoPanic "index out of range"
          | r0 :: _ => if r0 =? 0 then Done None else Done (Some "init failed"%string)
          end
      end
  end.

Definition Start (i : wasmOperatorInstance) : outcome (option error) :=
  match mod_ i with
  | None => GoPanic nilDereference
  | Some m =>
      match ExportedFunction m "start" with
      | None => Done None
      | Some (Err err) => Done (Some err)
      | Some (Ok ret) =>
          match ret with
          | [] => GoPanic "index out of range"
          | r0 :: _ => if r0 =? 0 then Done None else Done (Some "start failed"%string)
          end
      end
  end.

Definition Prepare (p : Program) (i : wasmOperatorInstance)
  : outcome (option error * wasmOperatorInstance) :=
  match init p i with
  | Done (Some err, i) => Done (Some ("initializing wasm: " ++ err)%string, i)
  | Done (None, i) =>
      match Init i with
      | Done (Some err) =>
          Done (Some ("initializing wasm guest: " ++ err)%string, i)
      | Done None => Done (None, i)
      | GoPanic why => GoPanic why
      | OutOfFuel => OutOfFuel
      end
  | GoPanic why => GoPanic why
  | OutOfFuel => OutOfFuel
  end.

(** *** Vocabulary *)

(** A layer whose content cannot be fetched. *)
Definition unfetchable : Program :=
  mkProgram (Some "not found"%string) (None, None).

End WasmLifecycle.

Module OciHandler.

Local Open Scope string_scope.

(** ocispec.Descriptor, as far as the handler looks at it *)
Record Descriptor : Type := mkDescriptor {
  MediaType : string;
  Digest : string;
}.

(** ocispec.Manifest *)
Record Manifest : Type := mkManifest {
  Config : Descriptor;
  Layers : list Descriptor;
}.

(** operators.ImageOperatorInstance: its name, what its lifecycle calls
    answer, and the keys of its extra parameters.  Prepare and Stop are
    taken to return; Start may panic, as the Start of a wasm instance does
    that has no module (WasmLifecycle.Start). *)
Record ImageOperatorInstance : Type := mkImageOperatorInstance {
  instName : string;
  instPrepare : option error;
  instStart : outcome (option error);
  instStop : option error;
  instExtraParams : list string;
}.

(** operators.ImageOperator.  InstantiateImageOperator returns an instance
    and an error, either of which may be nil. *)
Record ImageOperator : Type := mkImageOperator {
  opName : string;
  InstantiateImageOperator : Descriptor → option ImageOperatorInstance * option error;
}.

(** What the handler asks of the logger and of the image operators. *)
Inductive event : Type :=
| Debugf (format : string) (args : list string)
| Errorf (format : string) (args : list string)
| Instantiated (op : string) (layer : Descriptor)
| Prepared (inst : string)
| Started (inst : string)
| Stopped (inst : string).

Record OciHandlerInstance : Type := mkOciHandlerInstance {
  imageOperatorInstances : list ImageOperatorInstance;
  extraParams : list string;
  events : list event;
}.

Definition emit (e : event) (o : OciHandlerInstance) : OciHandlerInstance :=
  mkOciHandlerInstance (imageOperatorInstances o) (extraParams o) (events o ++ [e]).
Definition append_instance (opInst : ImageOperatorInstance) (o : OciHandlerInstance) :=
  mkOciHandlerInstance (imageOperatorInstances o ++ [opInst]) (extraParams o) (events o).
Definition set_extraParams (ps : list string) (o : OciHandlerInstance) :=
  mkOciHandlerInstance (imageOperatorInstances o) ps (events o).

(** Everything init obtains from package oci, Kubernetes and viper before it
    looks at the layers. *)
Record ImageEnv : Type := mkImageEnv {
  ImageName : string;
  pullSecretString : string;
  getPullSecret : result string;
  EnsureImage : option error;
  GetManifestForHost : result Manifest;
  GetContentFromDescriptor : option error;   (* of manifest.Config *)
  ReadAll : result string;
  ReadConfig : option error;
}.

(** Modelled from the spec: Params.AddPrefix is not in the sources at hand;
    parameter keys are "prefixed [<opname>.]". *)
Definition AddPrefix (name : string) (ps : list string) : list string :=
  (λ key, name ++ "." ++ key) <$> ps.

Section Init.
(** operators.GetImageOperatorForMediaType looks the media type up in the
    process-wide registry. *)
Context (registry : gmap string ImageOperator).

(** [for _, layer := range manifest.Layers] *)
Fixpoint init_layers (layers : list Descriptor) (o : OciHandlerInstance)
  : OciHandlerInstance :=
  match layers with
  | [] => o
  | layer :: layers' =>
      let o := emit (Debugf "layer > %+v" [MediaType layer]) o in
      match registry !! MediaType layer with
      | None => init_layers layers' o
      | Some op =>
          let o := emit (Debugf "found image op %q" [opName op]) o in
          let o := emit (Instantiated (opName op) layer) o in
          let '(opInst, err) := InstantiateImageOperator op layer in
          let o :=
            match err with
            | Some err => emit (Errorf "instantiating operator %q: %v" [opName op; err]) o
            | None => o
            end in
          match opInst with
          | None => init_layers layers' (emit (Debugf "> skipped %s" [opName op]) o)
          | Some opInst => init_layers layers' (append_instance opInst o)
          end
      end
  end.

(** [for _, opInst := range o.imageOperatorInstances] with Prepare *)
Fixpoint init_prepare (insts : list ImageOperatorInstance)
    (extra : list string) (o : OciHandlerInstance)
  : list string * OciHandlerInstance :=
  match insts with
  | [] => (extra, o)
  | opInst :: insts' =>
      let o := emit (Prepared (instName opInst)) o in
      match instPrepare opInst with
      | Some err =>
          init_prepare insts' extra
            (emit (Errorf "preparing operator %q: %v" [instName opInst; err]) o)
      | None =>
          (* Add gadget params prefixed with operators' name *)
          init_prepare insts'
            (extra ++ AddPrefix (instName opInst) (instExtraParams opInst)) o
      end
  end.

(** The part of init that starts at the layers of the manifest. *)
Definition init_manifest (manifest : Manifest) (o : OciHandlerInstance)
  : option error * OciHandlerInstance :=
  let o := init_layers (Layers manifest) o in
  if (length (imageOperatorInstances o) =? 0)%nat then
    (Some "image doesn't contain valid gadget layers", o)
  else
    let '(extra, o) := init_prepare (imageOperatorInstances o) [] o in
    (None, set_extraParams extra o).

Definition init (env : ImageEnv) (o : OciHandlerInstance)
  : option error * OciHandlerInstance :=
  if (String.length (ImageName env) =? 0)%nat then (Some "imageName empty", o) else
  match (if String.eqb (pullSecretString env) "" then Ok "" else getPullSecret env) with
  | Err err => (Some err, o)
  | Ok secretBytes =>
  match EnsureImage env with
  | Some err => (Some ("ensuring image: " ++ err), o)
  | None =>
  match GetManifestForHost env with
  | Err err => (Some ("getting manifest: " ++ err), o)
  | Ok manifest =>
  match GetContentFromDescriptor env with
  | Some err => (Some ("getting metadata: " ++ err), o)
  | None =>
  match ReadAll env with
  | Err err => (Some ("reading metadata: " ++ err), o)
  | Ok metadata =>
  match ReadConfig env with
  | Some err => (Some ("unmarshalling metadata: " ++ err), o)
  | None => init_manifest manifest o
  end end end end end end.

(** ociHandler.InstantiateDataOperator: the instance parameters are copied
    from the values given ([CopyFromMap] is what
    [ociParams.CopyFromMap(instanceParamValues, "")] returns); then a new
    instance, then init. *)
Definition InstantiateDataOperator (CopyFromMap : option error) (env : ImageEnv)
  : result OciHandlerInstance :=
  match CopyFromMap with
  | Some err => Err err
  | None =>
      let instance := mkOciHandlerInstance [] [] [] in
      match init env instance with
      | (Some err, _) => Err err
      | (None, instance) => Ok instance
      end
  end.

End Init.

(** [for _, opInst := range o.imageOperatorInstances] of Start; a panic of
    an instance's Start is not recovered. *)
Fixpoint Start_loop (insts : list ImageOperatorInstance) (o : OciHandlerInstance)
  : outcome OciHandlerInstance :=
  match insts with
  | [] => Done o
  | opInst :: insts' =>
      let o := emit (Started (instName opInst)) o in
      match instStart opInst with
      | Done (Some err) =>
          Start_loop insts'
            (emit (Errorf "starting operator %q: %v" [instName opInst; err]) o)
      | Done None => Start_loop insts' o
      | GoPanic why => GoPanic why
      | OutOfFuel => OutOfFuel
      end
  end.

Definition Start (o : OciHandlerInstance)
  : outcome (option error * OciHandlerInstance) :=
  match Start_loop (imageOperatorInstances o) o with
  | Done o => Done (None, o)
  | GoPanic why => GoPanic why
  | OutOfFuel => OutOfFuel
  end.

Fixpoint Stop_loop (insts : list ImageOperatorInstance) (o : OciHandlerInstance)
  : OciHandlerInstance :=
  match insts with
  | [] => o
  | opInst :: insts' =>
      let o := emit (Stopped (instName opInst)) o in
      match instStop opInst with
      | Some err =>
          Stop_loop insts'
            (emit (Errorf "starting operator %q: %v" [instName opInst; err]) o)
      | None => Stop_loop insts' o
      end
  end.

Definition Stop (o : OciHandlerInstance) : option error * OciHandlerInstance :=
  (None, Stop_loop (imageOperatorInstances o) o).

(** *** Vocabulary for the statements about the handler *)



(** The names of the instances that were asked to start, oldest first. *)
Definition startedNames (evs : list event) : list string :=
  omap (λ e, match e with Started name => Some name | _ => None end) evs.

(** The extra parameters of the instances whose Prepare succeeded. *)
Definition preparedParams (insts : list ImageOperatorInstance) : list string :=
  insts ≫= (λ opInst, match instPrepare opInst with
                       | None => AddPrefix (instName opInst) (instExtraParams opInst)
                       | Some _ => []
                       end).

Definition wasmObjectMediaType : string :=
  "application/vnd.gadget.wasm.program.v1+binary".
Definition ebpfObjectMediaType : string :=
  "application/vnd.gadget.ebpf.program.v1+binary".

(** An operator for wasm layers whose instances work, and one for eBPF
    layers whose instances fail to prepare. *)
Definition wasmOp : ImageOperator :=
  mkImageOperator "wasm"
    (λ _, (Some (mkImageOperatorInstance "wasm" None (Done None) None
                   ["allow-host-fs"]), None)).
Definition ebpfOp : ImageOperator :=
  mkImageOperator "ebpf"
    (λ _, (Some (mkImageOperatorInstance "ebpf" (Some "loading program")
                   (Done None) None ["iface"]), None)).

Definition someRegistry : gmap string ImageOperator :=
  {[ wasmObjectMediaType := wasmOp; ebpfObjectMediaType := ebpfOp ]}.

Definition imageOf (layers : list Descriptor) : ImageEnv :=
  mkImageEnv "ghcr.io/inspektor-gadget/gadget/trace_dns" "" (Err "unused") None
    (Ok (mkManifest (mkDescriptor "application/vnd.gadget.config.v1+yaml" "sha256:c")
                    layers))
    None (Ok "name: trace dns") None.

(** The wasm operator for a layer whose program cannot be fetched: its
    instance answers Prepare and Start as WasmLifecycle.Prepare and, on the
    instance Prepare leaves, WasmLifecycle.Start do.  (Its Stop is never
    reached in what is said about it.) *)
Definition unfetchedWasm : ImageOperatorInstance :=
  mkImageOperatorInstance "wasm"
    (Some "initializing wasm: getting wasm program: not found")
    (GoPanic WasmLifecycle.nilDereference) None ["allow-host-fs"].
Definition unfetchedWasmOp : ImageOperator :=
  mkImageOperator "wasm" (λ _, (Some unfetchedWasm, None)).

(** One wasm layer next to a layer nobody is registered for. *)
Definition mixedLayers : list Descriptor :=
  [ mkDescriptor "application/vnd.oci.image.layer.v1.tar" "sha256:a";
    mkDescriptor wasmObjectMediaType "sha256:b" ].

(** A single eBPF layer. *)
Definition ebpfOnly : list Descriptor :=
  [ mkDescriptor ebpfObjectMediaType "sha256:e" ].

End OciHandler.

Module Metadata.

Record Tracer : Type := mkTracer { TracerMapName : string; TracerStructName : string }.
Record Topper : Type := mkTopper { TopperMapName : string; TopperStructName : string }.
Record Snapshotter : Type := mkSnapshotter { SnapshotterStructName : string }.
Record Profiler : Type := mkProfiler {
  StructKeyName : string;
  StructValueName : string;
  ProfilerMapName : string;
}.

(** GadgetMetadata, without the fields only the other validators read *)
Record GadgetMetadata : Type := mkGadgetMetadata {
  Name : string;
  Tracers : gmap string Tracer;
  Toppers : gmap string Topper;
  Snapshotters : gmap string Snapshotter;
  Profilers : gmap string Profiler;
}.

(** countDistImp returns the number of distinct implementations of tracers,
    snapshotters and toppers that the gadget has. *)
Definition countDistImp (m : GadgetMetadata) : nat :=
  let count := 0%nat in
  let count := if (0 <? size (Tracers m))%nat then S count else count in
  let count := if (0 <? size (Snapshotters m))%nat then S count else count in
  let count := if (0 <? size (Toppers m))%nat then S count else count in
  let count := if (0 <? size (Profilers m))%nat then S count else count in
  count.

(** The validators Validate calls after its own checks. *)
Inductive validator : Type :=
| validateEbpfParams | validateTracers | validateToppers
| validateSnapshotters | validateProfilers | validateStructs
| validateGadgetParams.

(** The errors gathered in the multierror. *)
Inductive verror : Type :=
| NameRequired
  (* "gadget name is required" *)
| OnlyOneImplementation (count : nat)
  (* "gadget can implement only one tracer or snapshotter or topper or
     profiler, found %d" *)
| Nested (v : validator) (msg : string).

Section Validate.
(** What each of the other validators returns for the eBPF collection at
    hand: nil or an error. *)
Context (run : validator → GadgetMetadata → option string).

(** [multierror.Append(result, err)] under [if err != nil] *)
Definition appendNested (v : validator) (m : GadgetMetadata) (result : list verror)
  : list verror :=
  match run v m with
  | Some err => result ++ [Nested v err]
  | None => result
  end.

(** Validate; the empty list is the nil error. *)
Definition Validate (m : GadgetMetadata) : list verror :=
  let result := [] in
  let result :=
    if String.eqb (Name m) "" then result ++ [NameRequired] else result in
  (* Temporary limitation *)
  let count := countDistImp m in
  let result :=
    if (1 <? count)%nat then result ++ [OnlyOneImplementation count] else result in
  let result := appendNested validateEbpfParams m result in
  let result := appendNested validateTracers m result in
  let result := appendNested validateToppers m result in
  let result := appendNested validateSnapshotters m result in
  let result := appendNested validateProfilers m result in
  let result := appendNested validateStructs m result in
  let result := appendNested validateGadgetParams m result in
  result.

End Validate.

(** *** Vocabulary for the statements about the validator *)

(** How many of the four families hold at least one entry. *)
Definition familiesPresent (m : GadgetMetadata) : nat :=
  length (filter (λ present : bool, present = true)
            [ bool_decide (Tracers m ≠ ∅); bool_decide (Snapshotters m ≠ ∅);
              bool_decide (Toppers m ≠ ∅); bool_decide (Profilers m ≠ ∅) ]).

(** Validators that find nothing to complain about. *)
Definition lenient : validator → GadgetMetadata → option string := λ _ _, None.

(** A tracer alone, and a tracer next to a topper. *)
Definition traceOpen : GadgetMetadata :=
  mkGadgetMetadata "trace open" {[ "open" := mkTracer "events" "event" ]} ∅ ∅ ∅.
Definition traceAndTop : GadgetMetadata :=
  mkGadgetMetadata "trace and top" {[ "open" := mkTracer "events" "event" ]}
    {[ "files" := mkTopper "stats" "stat" ]} ∅ ∅.

End Metadata.

(** ** The guest side of the ABI (pkg/operators/wasm/api) *)

Module Guest.
Import Wasm.

(** The values of the guest's [fieldKind] constants. *)
Definition Kind_value (k : Kind) : Z :=
  match k with
  | Kind_Invalid => 0 | Kind_Bool => 1
  | Kind_Int8 => 2 | Kind_Int16 => 3 | Kind_Int32 => 4 | Kind_Int64 => 5
  | Kind_Uint8 => 6 | Kind_Uint16 => 7 | Kind_Uint32 => 8 | Kind_Uint64 => 9
  | Kind_Float32 => 10 | Kind_Float64 => 11
  | Kind_String => 12 | Kind_CString => 13
  end.

(** toStringPtr, for a string whose bytes lie at address [ptr] of the
    guest's memory: [uint64(len(s))<<32 | uint64(uintptr(unsafePtr))]. *)
Definition toStringPtr (ptr : Z) (s : string) : Z :=
  Z.lor (uint64 (Z.shiftl (Z.of_nat (String.length s)) 32)) (uint64 ptr).

(** stringPtr.String: the [s>>32] bytes at address [s&0xFFFFFFFF], cloned;
    [None] stands for the trap of a read outside the linear memory.  (The
    free of the original buffer concerns the guest's allocator only.) *)
Definition stringPtr_String (mem : list ascii) (s : Z) : option string :=
  if s =? 0 then Some EmptyString
  else
    string_of_list_ascii
      <$> Memory_Read mem (Z.land s 4294967295) (Z.shiftr s 32).

(** The guest's subscription table: [dsSubscriptionCtr] and
    [dsSubcriptions].  A callback is known by a label. *)
Record subscriptions (Callback : Type) : Type := mkSubscriptions {
  dsSubscriptionCtr : Z;
  dsSubcriptions : gmap Z Callback;
}.
Arguments mkSubscriptions {Callback} _ _.
Arguments dsSubscriptionCtr {Callback} _.
Arguments dsSubcriptions {Callback} _.

(** The package-level variables as the program starts. *)
Definition noSubscriptions {Callback} : subscriptions Callback :=
  mkSubscriptions 0 ∅.

(** DataSource.Subscribe: the new table, and the arguments with which the
    host's dataSourceSubscribe is called. *)
Definition Subscribe {Callback} (ds : Z) (cb : Callback) (priority : Z)
    (g : subscriptions Callback) : subscriptions Callback * list Z :=
  let ctr := uint64 (dsSubscriptionCtr g + 1) in
  (mkSubscriptions ctr (<[ctr := cb]> (dsSubcriptions g)),
   [uint32 ds; priority; ctr]).

(** dsCallback: the callback that is run with [(ds, data)], if any. *)
Definition dsCallback {Callback} (cbID : Z) (g : subscriptions Callback)
  : option Callback :=
  dsSubcriptions g !! cbID.

Section Fields.
Context (E : Externals).

(** The result a host function leaves for the guest. *)
Definition result0 (m : M (list Z)) : M Z :=
  do stack <- m ;
  peek stack 0.

(** Field.SetInt8 ... Field.SetFloat64: the value goes over as a uint64 --
    sign-extended for the signed kinds, the IEEE bits for the floats. *)
Definition Field_set (k : Kind) (f data bits : Z) : M (list Z) :=
  fieldAccessorSet E [uint32 f; uint32 data; uint32 (Kind_value k); bits].

Definition SetInt8 (f data value : Z) := Field_set Kind_Int8 f data (uint64 value).
Definition SetInt16 (f data value : Z) := Field_set Kind_Int16 f data (uint64 value).
Definition SetInt32 (f data value : Z) := Field_set Kind_Int32 f data (uint64 value).
Definition SetInt64 (f data value : Z) := Field_set Kind_Int64 f data (uint64 value).
Definition SetUint8 (f data value : Z) := Field_set Kind_Uint8 f data (uint64 value).
Definition SetUint16 (f data value : Z) := Field_set Kind_Uint16 f data (uint64 value).
Definition SetUint32 (f data value : Z) := Field_set Kind_Uint32 f data (uint64 value).
Definition SetUint64 (f data value : Z) := Field_set Kind_Uint64 f data (uint64 value).
(** [bits] is [math.Float32bits(value)], resp. [math.Float64bits(value)] *)
Definition SetFloat32 (f data bits : Z) := Field_set Kind_Float32 f data (uint64 bits).
Definition SetFloat64 (f data bits : Z) := Field_set Kind_Float64 f data (uint64 bits).

(** The setter of an integer kind, and the values of that kind. *)
Definition SetInt (k : Kind) (f data value : Z) : M (list Z) :=
  match k with
  | Kind_Int8 => SetInt8 f data value
  | Kind_Int16 => SetInt16 f data value
  | Kind_Int32 => SetInt32 f data value
  | Kind_Int64 => SetInt64 f data value
  | Kind_Uint8 => SetUint8 f data value
  | Kind_Uint16 => SetUint16 f data value
  | Kind_Uint32 => SetUint32 f data value
  | Kind_Uint64 => SetUint64 f data value
  | _ => ret []
  end.

(** Field.Int8 ... Field.Uint64: the host's uint64 converted back. *)
Definition Field_get (k : Kind) (f data : Z) : M Z :=
  result0 (fieldAccessorGet E [uint32 f; uint32 data; uint32 (Kind_value k)]).

Definition Int8 (f data : Z) : M Z :=
  do v <- Field_get Kind_Int8 f data ; ret (sintN 8 v).
Definition Int16 (f data : Z) : M Z :=
  do v <- Field_get Kind_Int16 f data ; ret (sintN 16 v).
Definition Int32 (f data : Z) : M Z :=
  do v <- Field_get Kind_Int32 f data ; ret (sintN 32 v).
Definition Int64 (f data : Z) : M Z :=
  do v <- Field_get Kind_Int64 f data ; ret (sintN 64 v).
Definition Uint8 (f data : Z) : M Z :=
  do v <- Field_get Kind_Uint8 f data ; ret (uintN 8 v).
Definition Uint16 (f data : Z) : M Z :=
  do v <- Field_get Kind_Uint16 f data ; ret (uintN 16 v).
Definition Uint32 (f data : Z) : M Z :=
  do v <- Field_get Kind_Uint32 f data ; ret (uintN 32 v).
Definition Uint64 (f data : Z) : M Z :=
  do v <- Field_get Kind_Uint64 f data ; ret (uintN 64 v).

(** math.Float32frombits and math.Float64frombits: the value of the IEEE 754
    bits [b], with [we] bits of exponent and [wm] bits of mantissa. *)
Definition frombits (we wm : Z) (b : Z) : float :=
  let sign := Z.testbit b (we + wm) in
  let exp := Z.land (Z.shiftr b wm) (2 ^ we - 1) in
  let mant := Z.land b (2 ^ wm - 1) in
  let bias := 2 ^ (we - 1) - 1 in
  if exp =? 2 ^ we - 1 then
    if mant =? 0 then FInf sign else FNaN
  else
    let m := if exp =? 0 then mant else mant + 2 ^ wm in
    let e := (if exp =? 0 then 1 else exp) - bias - wm in
    FNum (if sign then - m else m) e.
Definition Float32frombits : Z → float := frombits 8 23.
Definition Float64frombits : Z → float := frombits 11 52.

(** Field.Float32 and Field.Float64: the host's uint64 taken for the bits
    of the float. *)
Definition Float32 (f data : Z) : M float :=
  do v <- Field_get Kind_Float32 f data ; ret (Float32frombits (uint32 v)).
Definition Float64 (f data : Z) : M float :=
  do v <- Field_get Kind_Float64 f data ; ret (Float64frombits (uint64 v)).

(** Field.String: fieldAccessorGetString, then stringPtr.String on the
    guest's memory as the host left it. *)
Definition Field_String (f data : Z) : M (option string) :=
  do str <- result0 (fieldAccessorGetString E [uint32 f; uint32 data]) ;
  do mem <- gets memory ;
  ret (stringPtr_String mem str).

End Fields.

(** *** Vocabulary *)

Definition isInteger (k : Kind) : bool :=
  match k with
  | Kind_Int8 | Kind_Int16 | Kind_Int32 | Kind_Int64
  | Kind_Uint8 | Kind_Uint16 | Kind_Uint32 | Kind_Uint64 => true
  | _ => false
  end.

(** The values of Go's int8 ... uint64. *)
Definition inKind (k : Kind) (v : Z) : Prop :=
  match k with
  | Kind_Int8 => - 2 ^ 7 <= v < 2 ^ 7
  | Kind_Int16 => - 2 ^ 15 <= v < 2 ^ 15
  | Kind_Int32 => - 2 ^ 31 <= v < 2 ^ 31
  | Kind_Int64 => - 2 ^ 63 <= v < 2 ^ 63
  | Kind_Uint8 => 0 <= v < 2 ^ 8
  | Kind_Uint16 => 0 <= v < 2 ^ 16
  | Kind_Uint32 => 0 <= v < 2 ^ 32
  | Kind_Uint64 => 0 <= v < 2 ^ 64
  | _ => False
  end.

(** Subscribing the callbacks of a list one after the other; the ids that
    go to the host, oldest first. *)
Fixpoint subscribeAll {Callback} (ds : Z) (cbs : list Callback)
    (g : subscriptions Callback) : subscriptions Callback * list Z :=
  match cbs with
  | [] => (g, [])
  | cb :: cbs' =>
      let '(g1, args) := Subscribe ds cb 0 g in
      let '(g2, ids) := subscribeAll ds cbs' g1 in
      (g2, default 0 (args !! 2%nat) :: ids)
  end.

End Guest.

(** ** The trace_dns gadget program (gadgets/trace_dns/program.go) *)

Module TraceDns.

(** What the subscribed function does with the payload of the name field:
    [Done (Some str)] when it goes on to [nameF.SetString(data, str)],
    [Done None] when it logs "invalid payload" and returns. *)
Fixpoint decode_loop (fuel : nat) (payload : list ascii) (i : nat) (str : string)
  : outcome (option string) :=
  match fuel with
  | O => OutOfFuel
  | S fuel' =>
      if (i <? length payload)%nat then
        match payload !! i with
        | None => GoPanic "index out of range"
        | Some b =>
            let length_ := nat_of_ascii b in
            if (length_ =? 0)%nat then
              (* break *)
              Done (Some str)
            else if (i + 1 + length_ <? length payload)%nat then
              let label := take length_ (drop (i + 1) payload) in
              decode_loop fuel' payload (i + length_ + 1)
                (str ++ string_of_list_ascii label ++ ".")%string
            else
              Done None
        end
      else Done (Some str)
  end.

(** The loop started as the program starts it, with fuel for one turn more
    than the payload has bytes. *)
Definition decode (payload : list ascii) : outcome (option string) :=
  decode_loop (S (length payload)) payload 0 EmptyString.

(** *** Vocabulary: DNS names on the wire *)

(** A label preceded by its length, and a name as the sequence of its
    labels closed by a zero byte. *)
Definition wireLabel (label : list ascii) : list ascii :=
  ascii_of_nat (length label) :: label.

Definition wireLabels (labels : list (list ascii)) : list ascii :=
  labels ≫= wireLabel.

Definition wireName (labels : list (list ascii)) : list ascii :=
  wireLabels labels ++ [zero].

(** Every label followed by a dot. *)
Fixpoint dotted (labels : list (list ascii)) : string :=
  match labels with
  | [] => EmptyString
  | label :: labels' => (string_of_list_ascii label ++ "." ++ dotted labels')%string
  end.

(** A label a length byte can describe: between 1 and 255 bytes. *)
Definition goodLabel (label : list ascii) : Prop :=
  (0 < length label < 256)%nat.

(** "inspektor-gadget" and "io" *)
Definition igLabels : list (list ascii) :=
  [list_ascii_of_string "inspektor-gadget"; list_ascii_of_string "io"].

End TraceDns.

(** ** Vocabulary for further statements about the wasm host *)

Module WasmMore.
Import Wasm.

(** The host functions whose result is a handle. *)
Definition returnsHandle (f : import) : bool :=
  match f with
  | InewDataSource | IgetDataSource | IdataSourceGetField
  | IdataSourceAddField | IdataSourceNewData => true
  | _ => false
  end.

(** The type of object the function's comment promises a handle to. *)
Definition advertised (f : import) (o : object) : bool :=
  match f, o with
  | (InewDataSource | IgetDataSource), ODataSource _ => true
  | (IdataSourceGetField | IdataSourceAddField), OFieldAccessor _ => true
  | IdataSourceNewData, OData _ => true
  | _, _ => false
  end.

(** Collaborators that know a data source "dns" with a field "name". *)
Definition dnsWorld : Externals := {|
  ctx_RegisterDataSource := λ _ _ name,
    if String.eqb name "dns" then Err "already exists" else Ok name;
  ctx_GetDataSources := λ _ name,
    if String.eqb name "dns" then Some name else None;
  ds_GetField := λ _ _ name,
    if String.eqb name "name" then Some (mkFieldAccessor name 0) else None;
  ds_AddField := λ _ _ name,
    if String.eqb name "name" then Err "already exists"
    else Ok (mkFieldAccessor name 0);
  ds_NewData := λ _ _, Some 9;
  acc_String := λ _ _ _, "gadget"%string;
  acc_Set := λ _ _ _ _, None;
  ds_EmitAndRelease := λ _ _, ret None;
  acc_Get := λ _ _ _ _, uint64 (-1);
  acc_Float := λ _ _ _ _, FNum 3 (-1);
  float_overflow := λ _, 2 ^ 63;
  guest_exports_dsCallback := true;
  guest_malloc := λ _, ret (Ok 4);
  guest_dsCallback := λ _ _ _, ret None;
  guest_stop := None;
|}.

(** An instance holding the data source "dns" (handle 1), its field "name"
    (handle 2) and a record (handle 3); sixteen bytes of guest memory with
    "dns" at offset 0 and "name" at offset 4. *)
Definition dnsInstance : wasmOperatorInstance :=
  mkInstance (Some {[ 1 := ODataSource "dns";
                      2 := OFieldAccessor (mkFieldAccessor "name" 0);
                      3 := OData 9 ]})
             3 (list_ascii_of_string "dnsxname........") [].

End WasmMore.

(** ** Vocabulary for further statements about the OCI handler *)

Module OciMore.
Import OciHandler.

(** The names of the instances that were asked to prepare, resp. to stop,
    oldest first. *)
Definition preparedNames (evs : list event) : list string :=
  omap (λ e, match e with Prepared name => Some name | _ => None end) evs.


(** An image of a wasm layer and an eBPF layer. *)
Definition bothLayers : list Descriptor :=
  [ mkDescriptor wasmObjectMediaType "sha256:b";
    mkDescriptor ebpfObjectMediaType "sha256:e" ].

(** A handler with two instances, the second of which fails to stop. *)
Definition twoInstances : OciHandlerInstance :=
  mkOciHandlerInstance
    [ mkImageOperatorInstance "wasm" None (Done None) None [];
      mkImageOperatorInstance "ebpf" None (Done None) (Some "detaching") [] ]
    [] [].

End OciMore.

(** ** The rest of the metadata validator and the populator
    (pkg/gadgets/run/types/metadata.go) *)

(** What the code looks at of the eBPF library's data: BTF types and the
    collection spec. *)
Module Ebpf.

Inductive Linkage : Type := StaticVar | GlobalVar | ExternVar.

Inductive IntEncoding : Type := Unsigned | Signed | Char | Bool.

(** btf.Type: the types the code tells apart, and [Other] for the rest. *)
#[warnings="-register-all"] Inductive btfType : Type :=
| Void
| Int (name : string) (size : Z) (encoding : IntEncoding)
| Pointer (target : btfType)
| Const (type : btfType)
| Volatile (type : btfType)
| Typedef (name : string) (type : btfType)
| Struct (name : string) (members : list (string * btfType))
| Var (name : string) (type : btfType) (linkage : Linkage)
| Other (name : string).

(** Type.TypeName: the name of a named type, empty for the others *)
Definition TypeName (t : btfType) : string :=
  match t with
  | Int name _ _ | Typedef name _ | Struct name _ | Var name _ _ | Other name => name
  | Void | Pointer _ | Const _ | Volatile _ => EmptyString
  end.

(** btf.Struct *)
Record btfStruct : Type := mkStruct {
  StructName : string;
  Members : list (string * btfType);
}.

Inductive MapType : Type := Hash | PerfEventArray | RingBuf | OtherMap (name : string).

(** MapType.String *)
Definition MapType_String (t : MapType) : string :=
  match t with
  | Hash => "Hash"
  | PerfEventArray => "PerfEventArray"
  | RingBuf => "RingBuf"
  | OtherMap name => name
  end.

Record MapSpec : Type := mkMapSpec {
  MapName : string;
  Type_ : MapType;
  Value : option btfType;
}.

Inductive ProgramType : Type := SchedCLS | OtherProgram (name : string).

(** ebpf.CollectionSpec.  [Types] are the types in the order
    [spec.Types.Iterate()] yields them; [StructByName] is
    [spec.Types.TypeByName(name, &btfStruct)]. *)
Record CollectionSpec : Type := mkCollectionSpec {
  Maps : gmap string MapSpec;
  Programs : gmap string ProgramType;
  Types : list btfType;
  StructByName : string → result btfStruct;
}.

End Ebpf.

Module MetadataMore.
Import Metadata Ebpf.

(** An error made by errors.New or fmt.Errorf: the format, its arguments
    and, for [%w], the error wrapped.  An error value assembled with
    multierror.Append is the list of its errors, nil being the empty
    list. *)
#[warnings="-register-all"] Inductive merror : Type :=
| Errorf (format : string) (args : list string) (wrapped : list merror).

(** params.ParamDesc, as far as the code fills it *)
Record ParamDesc : Type := mkParamDesc {
  Key : string;
  ParamDescription : string;
}.

Record FieldAttributes : Type := mkFieldAttributes {
  Width : Z;
  MinWidth : Z;
  MaxWidth : Z;
  Alignment : string;
  Hidden : bool;
  Ellipsis : string;
  Template : string;
}.

Record Field : Type := mkField {
  FieldName : string;
  FieldDescription : string;
  Attributes : FieldAttributes;
}.

(** Struct describes a type generated by the gadget *)
Record Struct : Type := mkStructDesc { Fields : list Field }.

(** GadgetMetadata: the fields of [Metadata.GadgetMetadata] and those the
    other validators and the populator read. *)
Record GadgetMetadata : Type := mkMeta {
  core : Metadata.GadgetMetadata;
  Structs : gmap string Struct;
  EBPFParams : gmap string ParamDesc;
  GadgetParams : gmap string ParamDesc;
}.

Definition set_Structs (s : gmap string Struct) (m : GadgetMetadata) :=
  mkMeta (core m) s (EBPFParams m) (GadgetParams m).
Definition set_GadgetParams (p : gmap string ParamDesc) (m : GadgetMetadata) :=
  mkMeta (core m) (Structs m) (EBPFParams m) p.

Definition IfaceParam : string := "iface".
Definition DefaultColumnWidth : Z := 16.

(** [for k, v := range m]: Go fixes no order; the entries are taken in the
    order of [map_to_list]. *)
Definition range {A} (m : gmap string A) : list (string * A) := map_to_list m.

(** *** Validation *)

(** The double quote character, as a string *)
Definition dquote : string := String (Ascii.ascii_of_nat 34) EmptyString.

(** validateTracerMap only checks if the map type. *)
Definition validateTracerMap (tracerMap : MapSpec) (_ : string) : option merror :=
  match Type_ tracerMap with
  | RingBuf | PerfEventArray => None
  | t =>
      Some (Errorf "map %q has a wrong type, expected: ringbuf or perf event array, got: %s"
              [MapName tracerMap; MapType_String t] [])
  end.

Definition validateTopperMap (topperMap : MapSpec) (expectedStructName : string)
  : option merror :=
  match Type_ topperMap with
  | Hash =>
      match Value topperMap with
      | None =>
          Some (Errorf "map %q does not have BTF information for its values"
                  [MapName topperMap] [])
      | Some (Ebpf.Struct name _) =>
          if negb (String.eqb expectedStructName "")
             && negb (String.eqb name expectedStructName) then
            Some (Errorf "map %q value name is %q, expected %q"
                    [MapName topperMap; name; expectedStructName] [])
          else None
      | Some value =>
          Some (Errorf ("map %q value is %q, expected " ++ dquote ++ "struct" ++ dquote)%string
                  [MapName topperMap; TypeName value] [])
      end
  | t =>
      Some (Errorf "map %q has a wrong type, expected: hash, got: %s"
              [MapName topperMap; MapType_String t] [])
  end.

Definition validateProfilerMap (profilerMap : MapSpec) (_ : string) : option merror :=
  match Type_ profilerMap with
  | Hash => None
  | t =>
      Some (Errorf "map %q has a wrong type, expected: hash, got: %s"
              [MapName profilerMap; MapType_String t] [])
  end.

(** [multierror.Append(result, err)] under [if err != nil] *)
Definition appendErr (result : list merror) (err : option merror) : list merror :=
  match err with
  | Some err => result ++ [err]
  | None => result
  end.

(** validateMapAndStruct fully validates the map, while the struct is only
    checked for existence in the Structs section of the metadata. *)
Definition validateMapAndStruct (mapName structName : string)
    (spec : CollectionSpec) (m : GadgetMetadata)
    (validateMap : MapSpec → string → option merror) : list merror :=
  let checkStruct (result : list merror) : list merror :=
    if String.eqb structName "" then
      result ++ [Errorf "missing structName" [] []]
    else
      match Structs m !! structName with
      | None => result ++ [Errorf "referencing unknown struct %q" [structName] []]
      | Some _ => result
      end in
  if String.eqb mapName "" then
    checkStruct [Errorf "missing mapName" [] []]
  else
    match Maps spec !! mapName with
    | None => [Errorf "map %q not found in eBPF object" [mapName] []]
    | Some ebpfMap => checkStruct (appendErr [] (validateMap ebpfMap structName))
    end.

Definition validateTracers (spec : CollectionSpec) (m : GadgetMetadata) : list merror :=
  let result :=
    (* Temporary limitation *)
    if (1 <? size (Tracers (core m)))%nat
    then [Errorf "only one tracer is allowed" [] []] else [] in
  foldl (λ result '(name, t),
           match validateMapAndStruct (TracerMapName t) (TracerStructName t)
                   spec m validateTracerMap with
           | [] => result
           | err => result ++ [Errorf "validating tracer %q: %w" [name] err]
           end)
        result (range (Tracers (core m))).

Definition validateToppers (spec : CollectionSpec) (m : GadgetMetadata) : list merror :=
  let result :=
    if (1 <? size (Toppers (core m)))%nat
    then [Errorf "only one topper is allowed" [] []] else [] in
  foldl (λ result '(name, t),
           match validateMapAndStruct (TopperMapName t) (TopperStructName t)
                   spec m validateTopperMap with
           | [] => result
           | err => result ++ [Errorf "validating topper %q: %w" [name] err]
           end)
        result (range (Toppers (core m))).

Definition validateSnapshotters (spec : CollectionSpec) (m : GadgetMetadata)
  : list merror :=
  let result :=
    if (1 <? size (Snapshotters (core m)))%nat
    then [Errorf "only one snapshotter is allowed" [] []] else [] in
  foldl (λ result '(name, snapshotter),
           if String.eqb (SnapshotterStructName snapshotter) "" then
             result ++ [Errorf "snapshotter %q is missing structName" [name] []]
           else
             match Structs m !! SnapshotterStructName snapshotter with
             | None =>
                 result ++ [Errorf "snapshotter %q references unknown struct %q"
                              [name; SnapshotterStructName snapshotter] []]
             | Some _ => result
             end)
        result (range (Snapshotters (core m))).

Definition validateProfilers (spec : CollectionSpec) (m : GadgetMetadata)
  : list merror :=
  let result :=
    if (1 <? size (Profilers (core m)))%nat
    then [Errorf "only one profiler is allowed" [] []] else [] in
  foldl (λ result '(name, profiler),
           let result :=
             if String.eqb (StructKeyName profiler) "" then
               result ++ [Errorf "profiler %q is missing structKeyName" [name] []]
             else result in
           let result :=
             match Structs m !! StructKeyName profiler with
             | None =>
                 result ++ [Errorf "profiler %q references unknown key struct %q"
                              [name; StructKeyName profiler] []]
             | Some _ => result
             end in
           match validateMapAndStruct (ProfilerMapName profiler)
                   (StructValueName profiler) spec m validateProfilerMap with
           | [] => result
           | err => result ++ [Errorf "validating profiler %q: %w" [name] err]
           end)
        result (range (Profilers (core m))).

Definition validateStructs (spec : CollectionSpec) (m : GadgetMetadata) : list merror :=
  foldl (λ result '(name, mapStruct),
           match StructByName spec name with
           | Err err =>
               result ++ [Errorf "looking for struct %q in eBPF object: %w" [name]
                            [Errorf err [] []]]
           | Ok btfStruct =>
               let mapStructFields : gmap string Field :=
                 foldl (λ fields f, <[FieldName f := f]> fields) ∅ (Fields mapStruct) in
               let btfStructFields : gmap string btfType :=
                 foldl (λ fields '(n, t), <[n := t]> fields) ∅ (Members btfStruct) in
               foldl (λ result '(fieldName, _),
                        match btfStructFields !! fieldName with
                        | None =>
                            result ++ [Errorf "field %q not found in eBPF struct %q"
                                         [fieldName; name] []]
                        | Some _ => result
                        end)
                     result (range mapStructFields)
           end)
        [] (range (Structs m)).

Definition validateGadgetParams (spec : CollectionSpec) (m : GadgetMetadata)
  : list merror :=
  foldl (λ result '(_, p),
           match p with
           (* Networking programs provide an interface name to attach to *)
           | SchedCLS =>
               if (size (GadgetParams m) =? 0)%nat then
                 result ++ [Errorf "there aren't gadget parameters" [] []]
               else
                 match GadgetParams m !! IfaceParam with
                 | None => result ++ [Errorf "iface param not found" [] []]
                 | Some _ => result
                 end
           | _ => result
           end)
        [] (range (Programs spec)).

(** *** Population *)

(** getUnderlyingType, given the typedef by the type it names. *)
Fixpoint getUnderlyingType (tfType : btfType) : btfType :=
  match tfType with
  | Typedef _ typedMember => getUnderlyingType typedMember
  | typedMember => typedMember
  end.

(** The widths of package columns *)
Record Columns : Type := mkColumns {
  MaxCharsInt8 : Z; MaxCharsInt16 : Z; MaxCharsInt32 : Z; MaxCharsInt64 : Z;
  MaxCharsUint8 : Z; MaxCharsUint16 : Z; MaxCharsUint32 : Z; MaxCharsUint64 : Z;
  MaxCharsBool : Z; MaxCharsChar : Z;
}.

Section ColumnSize.
Context (columns : Columns).

(** getColumnSize; it calls itself on what getUnderlyingType returns. *)
Fixpoint getColumnSize (fuel : nat) (typ : btfType) : outcome Z :=
  match fuel with
  | O => OutOfFuel
  | S fuel' =>
      match typ with
      | Int _ size Signed =>
          if size =? 1 then Done (MaxCharsInt8 columns)
          else if size =? 2 then Done (MaxCharsInt16 columns)
          else if size =? 4 then Done (MaxCharsInt32 columns)
          else if size =? 8 then Done (MaxCharsInt64 columns)
          else Done DefaultColumnWidth
      | Int _ size Unsigned =>
          if size =? 1 then Done (MaxCharsUint8 columns)
          else if size =? 2 then Done (MaxCharsUint16 columns)
          else if size =? 4 then Done (MaxCharsUint32 columns)
          else if size =? 8 then Done (MaxCharsUint64 columns)
          else Done DefaultColumnWidth
      | Int _ _ Bool => Done (MaxCharsBool columns)
      | Int _ _ Char => Done (MaxCharsChar columns)
      | Typedef _ typedMember => getColumnSize fuel' (getUnderlyingType typedMember)
      | _ => Done DefaultColumnWidth
      end
  end.

Definition AlignmentLeft : string := "left".
Definition EllipsisEnd : string := "end".

(** The field populateStruct makes for a member; [width] is what
    getColumnSize has returned. *)
Definition newField (name : string) (width : Z) : Field :=
  mkField name "TODO: Fill field description"
    (mkFieldAttributes width 0 0 AlignmentLeft false EllipsisEnd "").

(** populateStruct; it always returns nil.  [fuel] bounds the calls of
    getColumnSize within itself. *)
Definition populateStruct (fuel : nat) (btfStruct : btfStruct) (m : GadgetMetadata)
  : outcome GadgetMetadata :=
  let gadgetStruct := default (mkStructDesc []) (Structs m !! StructName btfStruct) in
  let existingFields : gset string :=
    foldl (λ names field, {[ FieldName field ]} ∪ names) ∅ (Fields gadgetStruct) in
  let fields :=
    foldl (λ acc '(name, type),
             match acc with
             | Done fields =>
                 (* check if field already exists *)
                 if decide (name ∈ existingFields) then Done fields
                 else
                   match getColumnSize fuel type with
                   | Done width => Done (fields ++ [newField name width])
                   | GoPanic why => GoPanic why
                   | OutOfFuel => OutOfFuel
                   end
             | stuck => stuck
             end)
          (Done (Fields gadgetStruct)) (Members btfStruct) in
  match fields with
  | Done fields =>
      Done (set_Structs (<[StructName btfStruct := mkStructDesc fields]> (Structs m)) m)
  | GoPanic why => GoPanic why
  | OutOfFuel => OutOfFuel
  end.

End ColumnSize.

Definition populateGadgetParams (spec : CollectionSpec) (m : GadgetMetadata)
  : GadgetMetadata :=
  foldl (λ m '(_, p),
           match p with
           | SchedCLS =>
               set_GadgetParams
                 (<[IfaceParam := mkParamDesc IfaceParam "Network interface to attach to"]>
                    (GadgetParams m)) m
           | _ => m
           end)
        m (range (Programs spec)).

(** strings.HasPrefix and strings.TrimPrefix, through what is left of [s]
    after [prefix] *)
Fixpoint afterPrefix (s prefix : string) {struct prefix} : option string :=
  match prefix, s with
  | EmptyString, _ => Some s
  | String p prefix', String c s' =>
      if Ascii.eqb p c then afterPrefix s' prefix' else None
  | String _ _, EmptyString => None
  end.
Definition HasPrefix (s prefix : string) : bool :=
  match afterPrefix s prefix with Some _ => true | None => false end.
Definition TrimPrefix (s prefix : string) : string :=
  default s (afterPrefix s prefix).

(** GetGadgetIdentByPrefix returns the strings generated by GADGET_ macros. *)
Definition GetGadgetIdentByPrefix (spec : CollectionSpec) (prefix : string)
  : list string * list merror :=
  foldl (λ '(resultNames, resultError) type,
           match type with
           | Var name varType linkage =>
               if negb (HasPrefix name prefix) then (resultNames, resultError)
               else
                 let resultError :=
                   match linkage with
                   | GlobalVar => resultError
                   | _ => resultError ++ [Errorf "%q is not a global variable" [name] []]
                   end in
                 match varType with
                 | Pointer (Const Void) =>
                     (resultNames ++ [TrimPrefix name prefix], resultError)
                 | Pointer (Const _) =>
                     (resultNames,
                      resultError ++ [Errorf "%q is not a const void pointer" [name] []])
                 | Pointer _ =>
                     (resultNames, resultError ++ [Errorf "%q is not const" [name] []])
                 | _ =>
                     (resultNames, resultError ++ [Errorf "%q is not a pointer" [name] []])
                 end
           | _ => (resultNames, resultError)
           end)
        ([], []) (Types spec).

(** strings.Split for a separator that is not empty: [s] is scanned from the
    left; [skip] characters of a separator found are still to be passed over,
    and [part] is the piece read since the last separator. *)
Fixpoint Split_from (s sep : string) (skip : nat) (part : string) : list string :=
  match s with
  | EmptyString => [part]
  | String c s' =>
      match skip with
      | S skip' => Split_from s' sep skip' part
      | O =>
          if HasPrefix s sep
          then part :: Split_from s' sep (String.length sep - 1) EmptyString
          else Split_from s' sep 0 (part ++ String c EmptyString)%string
      end
  end.
Definition Split (s sep : string) : list string := Split_from s sep 0 EmptyString.

(** Prefix used to mark tracer maps, topper maps and snapshotters structs *)
Definition tracerInfoPrefix : string := "gadget_tracer_".
Definition topperInfoPrefix : string := "gadget_topper_".
Definition snapshottersPrefix : string := "gadget_snapshotter_".

Record tracerInfo : Type := mkTracerInfo {
  tracerName : string;
  tracerMapName : string;
  eventType : string;
}.

(** getTracerInfo returns the tracer info generated with GADGET_TRACER().
    If there are multiple annotations only the first one is returned.  The
    lines written to the log are left out, here and below. *)
Definition getTracerInfo (spec : CollectionSpec) : option tracerInfo * list merror :=
  match GetGadgetIdentByPrefix spec tracerInfoPrefix with
  | (_, (_ :: _) as err) => (None, err)
  | ([], []) => (None, [])
  | (info :: _, []) =>
      match Split info "___" with
      | [name; mapName; eventType] => (Some (mkTracerInfo name mapName eventType), [])
      | _ => (None, [Errorf "invalid tracer info: %q" [info] []])
      end
  end.

Record topperInfo : Type := mkTopperInfo {
  topperName : string;
  topperMapName : string;
}.

(** getTopperInfo returns the topper info generated with GADGET_TOPPER(). *)
Definition getTopperInfo (spec : CollectionSpec) : option topperInfo * list merror :=
  match GetGadgetIdentByPrefix spec topperInfoPrefix with
  | (_, (_ :: _) as err) => (None, [Errorf "getting topper info: %w" [] err])
  | ([], []) => (None, [])
  | (info :: _, []) =>
      match Split info "___" with
      | [name; mapName] => (Some (mkTopperInfo name mapName), [])
      | _ => (None, [Errorf "invalid topper info: %q" [info] []])
      end
  end.

Definition set_Tracers (t : gmap string Tracer) (m : GadgetMetadata) :=
  mkMeta (mkGadgetMetadata (Name (core m)) t (Toppers (core m))
            (Snapshotters (core m)) (Profilers (core m)))
    (Structs m) (EBPFParams m) (GadgetParams m).
Definition set_Toppers (t : gmap string Topper) (m : GadgetMetadata) :=
  mkMeta (mkGadgetMetadata (Name (core m)) (Tracers (core m)) t
            (Snapshotters (core m)) (Profilers (core m)))
    (Structs m) (EBPFParams m) (GadgetParams m).
Definition set_Snapshotters (t : gmap string Snapshotter) (m : GadgetMetadata) :=
  mkMeta (mkGadgetMetadata (Name (core m)) (Tracers (core m)) (Toppers (core m))
            t (Profilers (core m)))
    (Structs m) (EBPFParams m) (GadgetParams m).

Section Populate.
Context (columns : Columns) (fuel : nat).

(** [if err := m.populateStruct(s); err != nil { return wrap(err) }; return nil]:
    populateStruct has no error to return. *)
Definition populateStruct_nil (s : btfStruct) (m : GadgetMetadata)
  : outcome (GadgetMetadata * list merror) :=
  match populateStruct columns fuel s m with
  | Done m => Done (m, [])
  | GoPanic why => GoPanic why
  | OutOfFuel => OutOfFuel
  end.

(** populateTracers: the metadata as it leaves them, and the error. *)
Definition populateTracers (spec : CollectionSpec) (m : GadgetMetadata)
  : outcome (GadgetMetadata * list merror) :=
  match getTracerInfo spec with
  | (_, (_ :: _) as err) => Done (m, err)
  | (None, []) => Done (m, [])
  | (Some tracerInfo, []) =>
      match Maps spec !! tracerMapName tracerInfo with
      | None =>
          Done (m, [Errorf "map %q not found in eBPF object"
                      [tracerMapName tracerInfo] []])
      | Some tracerMap =>
          match validateTracerMap tracerMap "" with
          | Some err => Done (m, [Errorf "tracer map is invalid: %w" [] [err]])
          | None =>
              match StructByName spec (eventType tracerInfo) with
              | Err err =>
                  Done (m, [Errorf "finding struct %q in eBPF object: %w"
                              [eventType tracerInfo] [Errorf err [] []]])
              | Ok tracerMapStruct =>
                  let m :=
                    match Tracers (core m) !! tracerName tracerInfo with
                    | None =>
                        set_Tracers
                          (<[tracerName tracerInfo :=
                               mkTracer (MapName tracerMap) (StructName tracerMapStruct)]>
                             (Tracers (core m))) m
                    | Some _ => m
                    end in
                  populateStruct_nil tracerMapStruct m
              end
          end
      end
  end.

Definition populateToppers (spec : CollectionSpec) (m : GadgetMetadata)
  : outcome (GadgetMetadata * list merror) :=
  match getTopperInfo spec with
  | (_, (_ :: _) as err) => Done (m, err)
  | (None, []) => Done (m, [])
  | (Some topperInfo, []) =>
      match Maps spec !! topperMapName topperInfo with
      | None =>
          Done (m, [Errorf "map %q not found in eBPF object"
                      [topperMapName topperInfo] []])
      | Some topperMap =>
          let found := Toppers (core m) !! topperName topperInfo in
          let t := default (mkTopper "" "") found in
          match validateTopperMap topperMap (TopperStructName t), Value topperMap with
          | Some err, _ => Done (m, [err])
          | None, None => GoPanic "nil pointer dereference"
          | None, Some value =>
              match StructByName spec (TypeName value) with
              | Err err =>
                  Done (m, [Errorf "finding struct %q in eBPF object: %w"
                              [TypeName value] [Errorf err [] []]])
              | Ok topperMapStruct =>
                  let m :=
                    match found with
                    | None =>
                        set_Toppers
                          (<[topperName topperInfo :=
                               mkTopper (MapName topperMap) (StructName topperMapStruct)]>
                             (Toppers (core m))) m
                    | Some _ => m
                    end in
                  populateStruct_nil topperMapStruct m
              end
          end
      end
  end.

(** populateSnapshotters; what GetGadgetIdentByPrefix reports is dropped. *)
Definition populateSnapshotters (spec : CollectionSpec) (m : GadgetMetadata)
  : outcome (GadgetMetadata * list merror) :=
  match (GetGadgetIdentByPrefix spec snapshottersPrefix).1 with
  | [] => Done (m, [])
  | snapshotterNameAndType :: _ =>
      match Split snapshotterNameAndType "___" with
      | [sname; stype] =>
          match StructByName spec stype with
          | Err _ => Done (m, [Errorf "struct %q not found" [stype] []])
          | Ok btfStruct =>
              let m :=
                match Snapshotters (core m) !! sname with
                | None =>
                    set_Snapshotters
                      (<[sname := mkSnapshotter (StructName btfStruct)]>
                         (Snapshotters (core m))) m
                | Some _ => m
                end in
              populateStruct_nil btfStruct m
          end
      | _ =>
          Done (m, [Errorf "invalid snapshotter annotation: %q"
                      [snapshotterNameAndType] []])
      end
  end.

End Populate.

(** *** Vocabulary for the statements about the metadata *)

(** What validateTracers wants of a tracer. *)
Definition tracerAccepted (spec : CollectionSpec) (m : GadgetMetadata) (t : Tracer)
  : Prop :=
  TracerMapName t ≠ "" ∧ TracerStructName t ≠ "" ∧
  is_Some (Structs m !! TracerStructName t) ∧
  ∃ ebpfMap, Maps spec !! TracerMapName t = Some ebpfMap ∧
             (Type_ ebpfMap = RingBuf ∨ Type_ ebpfMap = PerfEventArray).

(** What validateToppers wants of a topper. *)
Definition topperAccepted (spec : CollectionSpec) (m : GadgetMetadata) (t : Topper)
  : Prop :=
  TopperMapName t ≠ "" ∧ TopperStructName t ≠ "" ∧
  is_Some (Structs m !! TopperStructName t) ∧
  ∃ ebpfMap members,
    Maps spec !! TopperMapName t = Some ebpfMap ∧ Type_ ebpfMap = Hash ∧
    Value ebpfMap = Some (Ebpf.Struct (TopperStructName t) members).

(** What validateProfilers wants of a profiler. *)
Definition profilerAccepted (spec : CollectionSpec) (m : GadgetMetadata)
    (p : Profiler) : Prop :=
  StructKeyName p ≠ "" ∧ is_Some (Structs m !! StructKeyName p) ∧
  ProfilerMapName p ≠ "" ∧ StructValueName p ≠ "" ∧
  is_Some (Structs m !! StructValueName p) ∧
  ∃ ebpfMap, Maps spec !! ProfilerMapName p = Some ebpfMap ∧ Type_ ebpfMap = Hash.

(** The fields the metadata describe for the struct [name]: none when the
    struct is not described. *)
Definition describedFields (m : GadgetMetadata) (name : string) : list Field :=
  Fields (default (mkStructDesc []) (Structs m !! name)).

(** [sep] occurs somewhere in [s]. *)
Fixpoint occurs (sep s : string) : bool :=
  HasPrefix s sep ||
  match s with
  | EmptyString => false
  | String _ s' => occurs sep s'
  end.

(** An eBPF object as the loader of the eBPF library makes it: a map has a
    name and is filed under it, and a struct found by name has that name,
    which is not empty. *)
Definition loaded (spec : CollectionSpec) : Prop :=
  (∀ key ebpfMap, Maps spec !! key = Some ebpfMap →
     key ≠ "" ∧ MapName ebpfMap = key) ∧
  (∀ name btfStruct, StructByName spec name = Ok btfStruct →
     name ≠ "" ∧ StructName btfStruct = name).

(** The longest decimal numeral of each type, in characters. *)
Definition decimalColumns : Columns := mkColumns 4 6 11 20 3 5 10 20 5 1.

(** A struct of three members, the last a typedef of a typedef. *)
Definition eventStruct : btfStruct :=
  mkStruct "event"
    [ ("pid", Int "unsigned int" 4 Unsigned);
      ("comm", Other "char[16]");
      ("timestamp",
       Typedef "__u64" (Typedef "u64" (Int "unsigned long long" 8 Unsigned))) ].

(** An eBPF object with a ring buffer and a hash map of [event] and the
    annotations of a tracer, a topper and a snapshotter. *)
Definition annotated : CollectionSpec :=
  mkCollectionSpec
    {[ "events" := mkMapSpec "events" RingBuf None;
       "stats" := mkMapSpec "stats" Hash
                    (Some (Ebpf.Struct "event" (Members eventStruct))) ]}
    ∅
    [ Var "gadget_tracer_open___events___event" (Pointer (Const Void)) GlobalVar;
      Var "gadget_topper_files___stats" (Pointer (Const Void)) GlobalVar;
      Var "gadget_snapshotter_sockets___event" (Pointer (Const Void)) GlobalVar ]
    (λ name, if String.eqb name "event" then Ok eventStruct
             else Err "not found").

(** Metadata with nothing in them, and metadata that describe the [pid] of
    [event] in their own way. *)
Definition blank : GadgetMetadata := mkMeta (mkGadgetMetadata "" ∅ ∅ ∅ ∅) ∅ ∅ ∅.
Definition described : GadgetMetadata :=
  mkMeta (mkGadgetMetadata "" ∅ ∅ ∅ ∅)
    {[ "event" := mkStructDesc
                    [mkField "pid" "process"
                       (mkFieldAttributes 7 0 0 "right" false "end" "")] ]}
    ∅ ∅.

(** The eBPF object has a networking (SchedCLS) program. *)
Definition hasSchedCLS (spec : CollectionSpec) : Prop :=
  ∃ name, Programs spec !! name = Some SchedCLS.

End MetadataMore.

(** * Properties *)

(** ** The handle table *)

Section HandleTable.
Import Wasm.

Lemma nextCtr_range c : 0 < nextCtr c < 2 ^ 32.
Proof.
  unfold nextCtr, incr32, U32.
  destruct ((c + 1) mod 2 ^ 32 =? 0) eqn:Hz.
  - apply Z.eqb_eq in Hz. rewrite Hz. change ((0 + 1) mod 2 ^ 32) with 1. lia.
  - apply Z.eqb_neq in Hz.
    pose proof (Z.mod_pos_bound (c + 1) (2 ^ 32)). lia.
Qed.

Lemma addHandle_unfold fuel o i :
  addHandle fuel (Some o) i
  = addHandle_loop fuel o 0 (set_handleCtr (nextCtr (handleCtr i)) i).
Proof.
  unfold addHandle, bind, modify, gets, ret, nextCtr. simpl.
  destruct (incr32 (handleCtr i) =? 0); reflexivity.
Qed.

(** A free slot under the counter: the first iteration registers there. *)
Lemma addHandle_loop_free fuel o xctr i m :
  xctr <= 2 ^ 32 →
  handleMap i = Some m →
  m !! handleCtr i = None →
  addHandle_loop (S fuel) o xctr i
  = Done (handleCtr i, set_handleMap (Some (<[handleCtr i := o]> m)) i).
Proof.
  intros Hx Hm Hfree. simpl.
  destruct (xctr >? 2 ^ 32) eqn:Hgt; [lia|].
  rewrite Hm, Hfree. reflexivity.
Qed.

(** A live slot under the counter: no iteration changes anything but
    [xctr], so the loop runs into its bound. *)
Lemma addHandle_loop_live fuel : ∀ o xctr i m x,
  handleMap i = Some m →
  m !! handleCtr i = Some x →
  xctr <= 2 ^ 32 + 1 →
  2 ^ 32 + 2 - xctr <= Z.of_nat fuel →
  addHandle_loop fuel o xctr i = Done (0, i).
Proof.
  induction fuel as [|fuel IH]; intros o xctr i m x Hm Hlive Hx Hfuel.
  - lia.
  - cbn [addHandle_loop].
    destruct (xctr >? 2 ^ 32) eqn:Hgt; [reflexivity|].
    rewrite Hm, Hlive. apply (IH o (xctr + 1) i m x); auto; lia.
Qed.

(** On a nil map the registration panics. *)
Lemma addHandle_loop_nil fuel o xctr i :
  xctr <= 2 ^ 32 →
  handleMap i = None →
  addHandle_loop (S fuel) o xctr i = GoPanic "assignment to entry in nil map".
Proof.
  intros Hx Hm. simpl.
  destruct (xctr >? 2 ^ 32) eqn:Hgt; [lia|].
  rewrite Hm. reflexivity.
Qed.

(** Whatever addHandle returns for an object, it is the counter's slot or 0,
    and the table changes in that slot at most. *)
Lemma addHandle_loop_result fuel : ∀ o xctr i h i',
  addHandle_loop fuel o xctr i = Done (h, i') →
  (h = 0 ∧ i' = i)
  ∨ (h = handleCtr i ∧ ∃ m, handleMap i = Some m ∧ m !! h = None
       ∧ i' = set_handleMap (Some (<[h := o]> m)) i).
Proof.
  induction fuel as [|fuel IH]; intros o xctr i h i' H; [discriminate|].
  cbn [addHandle_loop] in H.
  destruct (xctr >? 2 ^ 32).
  - inversion H; subst. by left.
  - destruct (handleMap i) as [m|] eqn:Hm; [|discriminate].
    destruct (m !! handleCtr i) eqn:Hl.
    + apply IH in H. rewrite Hm in H. exact H.
    + inversion H; subst. right. split; [done|]. by exists m.
Qed.

End HandleTable.

Section HandleTableClaims.
Import Wasm.


(** With fuel for the whole loop addHandle returns, unless the map is nil. *)
Lemma addHandle_returns fuel i m o :
  2 ^ 32 + 2 <= Z.of_nat fuel →
  handleMap i = Some m →
  ∃ h i', addHandle fuel (Some o) i = Done (h, i').
Proof.
  intros Hfuel Hm. rewrite addHandle_unfold.
  destruct (m !! nextCtr (handleCtr i)) as [x|] eqn:Hslot.
  - do 2 eexists. apply (addHandle_loop_live fuel o 0 _ m x); auto; lia.
  - destruct fuel as [|fuel]; [simpl in Hfuel; lia|].
    do 2 eexists. apply (addHandle_loop_free fuel o 0 _ m); auto; lia.
Qed.

(** From a new instance the ids come out as 1, 2, 3, and a counter at its
    largest value wraps to 1, not 0. *)
Example addHandle_counts_up :
  (do a <- addHandle 1 (Some (OData 7)) ;
   do b <- addHandle 1 (Some (OData 8)) ;
   delHandle a ;;
   do c <- addHandle 1 (Some (OData 9)) ;
   ret [a; b; c]) (InstantiateImageOperator [])
  = Done ([1; 2; 3],
          mkInstance (Some {[ 2 := OData 8; 3 := OData 9 ]}) 3 [] []).
Proof. reflexivity. Qed.

Example addHandle_wraps_past_zero :
  addHandle 1 (Some (OData 7)) (mkInstance (Some ∅) (2 ^ 32 - 1) [] [])
  = Done (1, mkInstance (Some {[ 1 := OData 7 ]}) 1 [] []).
Proof. reflexivity. Qed.

(** C1, where the code departs from it: when the advanced counter lands on
    a live id, addHandle runs its loop to the bound and returns 0 with the
    table unchanged -- no matter how many ids are free; the next free id is
    not looked for. *)
Theorem addHandle_live_counter_gives_up fuel i m x o :
  2 ^ 32 + 2 <= Z.of_nat fuel →
  handleMap i = Some m →
  m !! nextCtr (handleCtr i) = Some x →
  addHandle fuel (Some o) i
  = Done (0, set_handleCtr (nextCtr (handleCtr i)) i).
Proof.
  intros Hfuel Hm Hlive. rewrite addHandle_unfold.
  apply (addHandle_loop_live fuel o 0 _ m x); auto; lia.
Qed.

Lemma addHandle_live_counter_gives_up_witness :
  lookupHandle wrapped 2 = None
  ∧ addHandle plenty (Some (OData 7)) wrapped
    = Done (0, set_handleCtr (nextCtr (handleCtr wrapped)) wrapped).
Proof.
  split; [reflexivity|].
  apply (addHandle_live_counter_gives_up plenty wrapped
           {[ 1 := ODataSource "dns" ]} (ODataSource "dns") (OData 7)).
  - unfold plenty. lia.
  - reflexivity.
  - reflexivity.
Defined.

Lemma addHandle_outcome fuel o i h i' :
  addHandle fuel (Some o) i = Done (h, i') →
  (h = 0 ∧ handleMap i' = handleMap i)
  ∨ (h = nextCtr (handleCtr i) ∧ ∃ m, handleMap i = Some m ∧ m !! h = None
       ∧ handleMap i' = Some (<[h := o]> m)).
Proof.
  rewrite addHandle_unfold. intros H.
  apply addHandle_loop_result in H as [[-> ->]|[-> (m & Hm & Hfree & ->)]].
  - by left.
  - right. split; [done|]. by exists m.
Qed.







End HandleTableClaims.

Section HostCallClaims.
Import Wasm WasmMore.

Ltac run_host :=
  unfold bind, peek, poke0, getHandle, gets, modify, ret, call, ask,
    logWarnf, logInfo, logDebugf; simpl.

(** What dataSourceEmitAndRelease does, case by case. *)
Lemma dataSourceEmitAndRelease_cases E s0 s1 rest i :
  dataSourceEmitAndRelease E (s0 :: s1 :: rest) i =
  match asDataSource (lookupHandle i (DecodeU32 s0)),
        asData (lookupHandle i (DecodeU32 s1)) with
  | Some ds, Some d =>
      match ds_EmitAndRelease E ds d (emit (Call (DsEmitAndRelease ds d)) i) with
      | Done (_, j) => Done (0 :: s1 :: rest, j)
      | GoPanic why => GoPanic why
      | OutOfFuel => OutOfFuel
      end
  | Some ds, None =>
      Done (1 :: s1 :: rest,
            emit (Log WarnLevel "data handle %d not found" [AInt s1]) i)
  | None, _ =>
      Done (1 :: s1 :: rest,
            emit (Log WarnLevel "datasource handle %d not found" [AInt s0]) i)
  end.
Proof.
  unfold dataSourceEmitAndRelease. run_host.
  destruct (asDataSource (lookupHandle i (DecodeU32 s0))) as [ds|]; [|reflexivity].
  simpl. destruct (asData (lookupHandle i (DecodeU32 s1))) as [d|]; [|reflexivity].
  simpl. destruct (ds_EmitAndRelease E ds d _) as [[err j]| |]; reflexivity.
Qed.

(** C2 as stated does not hold: with a live data handle and a data-source
    handle that does not resolve, the call returns 1 and the record is not
    released; its handle stays live. *)
Lemma dataSourceEmitAndRelease_keeps_record_without_source :
  asData (lookupHandle oneRecord (DecodeU32 1)) = Some 9
  ∧ ∃ i', dataSourceEmitAndRelease barren [7; 1] oneRecord = Done ([1; 1], i')
      ∧ released 9 (events i') = false
      ∧ lookupHandle i' 1 = Some (OData 9).
Proof.
  split; [reflexivity|].
  eexists. split; [reflexivity|]. split; reflexivity.
Qed.

(** C2, amended: when both handles resolve the record is handed to the data
    source's EmitAndRelease, which runs its subscribers, and the call returns
    0 whatever EmitAndRelease returns (its error is dropped), leaving the
    instance as the subscribers left it; the call does not return when
    EmitAndRelease does not.  When the data-source handle or the data handle
    does not resolve the call returns 1, logs one warning and does nothing
    else: no record is released, and handle table and guest memory are as
    before. *)
Theorem dataSourceEmitAndRelease_releases_when_resolved E s0 s1 rest i :
  match asDataSource (lookupHandle i (DecodeU32 s0)),
        asData (lookupHandle i (DecodeU32 s1)) with
  | Some ds, Some d =>
      (∀ err j,
         ds_EmitAndRelease E ds d (emit (Call (DsEmitAndRelease ds d)) i)
         = Done (err, j) →
         dataSourceEmitAndRelease E (s0 :: s1 :: rest) i
         = Done (0 :: s1 :: rest, j))
      ∧ (∀ r i', dataSourceEmitAndRelease E (s0 :: s1 :: rest) i = Done (r, i') →
           ∃ err, ds_EmitAndRelease E ds d (emit (Call (DsEmitAndRelease ds d)) i)
                  = Done (err, i'))
  | _, _ =>
      ∃ format args i',
        dataSourceEmitAndRelease E (s0 :: s1 :: rest) i = Done (1 :: s1 :: rest, i')
        ∧ i' = emit (Log WarnLevel format args) i
        ∧ handleMap i' = handleMap i ∧ memory i' = memory i
        ∧ ∀ d, released d (events i') = released d (events i)
  end.
Proof.
  rewrite dataSourceEmitAndRelease_cases.
  assert (Hwarn : ∀ d format args,
            released d (events (emit (Log WarnLevel format args) i))
            = released d (events i)).
  { intros d format args. unfold released. simpl.
    rewrite existsb_app. simpl. by rewrite !orb_false_r. }
  destruct (asDataSource (lookupHandle i (DecodeU32 s0))) as [ds|];
    [destruct (asData (lookupHandle i (DecodeU32 s1))) as [d|]|].
  - split.
    + intros err j Hrun. by rewrite Hrun.
    + intros r i' Hrun.
      destruct (ds_EmitAndRelease E ds d _) as [[err j]| |]; try discriminate.
      inversion Hrun; subst. eauto.
  - do 3 eexists. split; [reflexivity|]. split; [reflexivity|]. auto.
  - do 3 eexists. split; [reflexivity|]. split; [reflexivity|]. auto.
Qed.

(** On [dnsInstance] handle 1 is the data source and handle 3 a record. *)
Lemma dataSourceEmitAndRelease_releases_when_resolved_witness :
  dataSourceEmitAndRelease dnsWorld [1; 3] dnsInstance
  = Done ([0; 3], emit (Call (DsEmitAndRelease "dns" 9)) dnsInstance).
Proof.
  apply (proj1 (dataSourceEmitAndRelease_releases_when_resolved dnsWorld 1 3 []
                  dnsInstance) None).
  reflexivity.
Defined.




Lemma zeros_length n : String.length (zeros n) = n.
Proof. induction n as [|n IH]; simpl; [reflexivity|by rewrite IH]. Qed.

Lemma string_app_length (a b : string) :
  String.length (a ++ b) = (String.length a + String.length b)%nat.
Proof. induction a as [|c a IH]; simpl; [reflexivity|by rewrite IH]. Qed.

(** C4 as stated does not hold: the call has no error value to return.
    The import is registered without results; for the sixteen bytes of
    "inspektor-gadget" and the field of size 8 the host writes 0 into the
    first stack slot -- the value the comment of the function gives for
    success -- and a wasm function without results hands nothing of its
    stack back to the guest. *)
Lemma fieldAccessorSetString_returns_no_error :
  (signature IfieldAccessorSetString).2 = []
  ∧ fieldAccessorSetString barren [1; 2; stringRef 16 0] staticField
    = Done ([0; 2; stringRef 16 0],
            emit (Log WarnLevel "string too long: %d > %d" [AInt 16; AInt 8])
                 staticField).
Proof. split; reflexivity. Qed.

(** C4, amended: on an accessor of non-zero static size [s], with both
    handles and the string reference good: a string of at most [s] bytes
    reaches acc.Set padded with zero bytes to exactly [s] bytes (and
    acc.Set's own refusal, if any, is logged); a longer string is never
    passed on -- the call logs "string too long" and asks nothing of the
    accessor, so the field keeps its value.  The call has no result: the 0
    it leaves in the first stack slot on its failure paths is not returned
    to the guest. *)
Theorem fieldAccessorSetString_static_size E s0 s1 s2 rest i acc data str :
  asFieldAccessor (lookupHandle i (DecodeU32 s0)) = Some acc →
  asData (lookupHandle i (DecodeU32 s1)) = Some data →
  stringFromStack (memory i) s2 = Ok str →
  0 < accSize acc →
  let stack := s0 :: s1 :: s2 :: rest in
  let len := Z.of_nat (String.length str) in
  let buf := (str ++ zeros (Z.to_nat (accSize acc) - String.length str))%string in
  (signature IfieldAccessorSetString).2 = []
  ∧ (len <= accSize acc →
     Z.of_nat (String.length buf) = accSize acc
     ∧ fieldAccessorSetString E stack i
       = match acc_Set E (events i) acc data buf with
         | None => Done (stack, emit (Call (AccSet acc data buf)) i)
         | Some err =>
             Done (0 :: s1 :: s2 :: rest,
                   emit (Log WarnLevel "setting string failed: %v" [AErr err])
                        (emit (Call (AccSet acc data buf)) i))
         end)
  ∧ (accSize acc < len →
     fieldAccessorSetString E stack i
     = Done (0 :: s1 :: s2 :: rest,
             emit (Log WarnLevel "string too long: %d > %d"
                       [AInt len; AInt (accSize acc)]) i)).
Proof.
  intros Hacc Hdata Hstr Hs stack len buf. subst stack.
  split; [reflexivity|].
  unfold fieldAccessorSetString. run_host.
  rewrite Hacc. simpl. rewrite Hdata. simpl. rewrite Hstr.
  destruct (accSize acc =? 0) eqn:Hz; [apply Z.eqb_eq in Hz; lia|]. simpl.
  split; intros Hlen.
  - split.
    + subst buf. rewrite string_app_length, zeros_length. lia.
    + destruct (Z.of_nat (String.length str) >? accSize acc) eqn:Hgt; [lia|].
      fold buf. destruct (acc_Set E (events i) acc data buf); reflexivity.
  - destruct (Z.of_nat (String.length str) >? accSize acc) eqn:Hgt; [|lia].
    reflexivity.
Qed.

Lemma fieldAccessorSetString_static_size_witness :
  let stack := [1; 2; stringRef 6 10] in
  (signature IfieldAccessorSetString).2 = []
  ∧ (6 <= 8 →
     Z.of_nat (String.length "gadget"%string + 2) = 8
     ∧ fieldAccessorSetString barren stack staticField
       = Done (stack,
               emit (Call (AccSet (mkFieldAccessor "comm" 8) 9
                                  (String.append "gadget" (zeros 2))))
                    staticField))
  ∧ (8 < 6 →
     fieldAccessorSetString barren stack staticField
     = Done (0 :: 2 :: [stringRef 6 10],
             emit (Log WarnLevel "string too long: %d > %d" [AInt 6; AInt 8])
                  staticField)).
Proof.
  apply (fieldAccessorSetString_static_size barren 1 2 (stringRef 6 10) []
           staticField (mkFieldAccessor "comm" 8) 9 "gadget").
  - reflexivity.
  - reflexivity.
  - reflexivity.
  - simpl. lia.
Defined.

(** The sixteen bytes of "inspektor-gadget" do not fit the field of size 8. *)
Example fieldAccessorSetString_too_long :
  fieldAccessorSetString barren [1; 2; stringRef 16 0] staticField
  = Done ([0; 2; stringRef 16 0],
          emit (Log WarnLevel "string too long: %d > %d" [AInt 16; AInt 8])
               staticField).
Proof. reflexivity. Qed.

(** C8 as stated does not hold: xlog has no level argument.  It is
    registered with a single parameter, the string reference, and the
    guest's "boom" comes out at Info. *)
Lemma xlog_has_no_level :
  signature Ixlog = ([ValueTypeI64], [])
  ∧ xlog [stringRef 4 4] boomGuest
    = Done ([stringRef 4 4], emit (Log InfoLevel "boom" []) boomGuest).
Proof. split; reflexivity. Qed.

(** C8, amended: xlog takes the string reference and nothing else.  It logs
    the message the reference points at, as it is in guest memory when the
    call is made, at Info; if the reference does not lie in guest memory it
    logs a warning of its own instead.  It does nothing else. *)
Theorem xlog_logs_at_Info :
  signature Ixlog = ([ValueTypeI64], [])
  ∧ ∀ s0 rest i,
      xlog (s0 :: rest) i
      = match stringFromStack (memory i) s0 with
        | Ok msg => Done (s0 :: rest, emit (Log InfoLevel msg []) i)
        | Err err =>
            Done (s0 :: rest,
                  emit (Log WarnLevel "reading string from stack: %v" [AErr err]) i)
        end.
Proof.
  split; [reflexivity|].
  intros s0 rest i. unfold xlog. run_host.
  destruct (stringFromStack (memory i) s0); reflexivity.
Qed.

Lemma delHandle_def h i :
  delHandle h i = Done (tt, set_handleMap (delete h <$> handleMap i) i).
Proof. reflexivity. Qed.

Lemma lookupHandle_delHandle h i u i' :
  delHandle h i = Done (u, i') →
  lookupHandle i' h = None
  ∧ ∀ h', lookupHandle i h' = None → lookupHandle i' h' = None.
Proof.
  unfold delHandle, modify, lookupHandle. intros H. inversion H; subst; simpl.
  destruct (handleMap i) as [m|]; simpl; [|done].
  split; [apply lookup_delete_eq|].
  intros h' Hh'. destruct (decide (h = h')) as [->|Hne].
  - apply lookup_delete_eq.
  - by rewrite lookup_delete_ne.
Qed.

(** C7: when Stop returns -- the guest exporting stop or not, the call to
    it failing or not -- the handle map is nil and no handle resolves.  And
    the function subscribed by dataSourceSubscribe, when it returns, has
    registered the data source and the record with addHandle, one after the
    other, has called the guest's dsCallback with the two ids at a time when
    each of them, unless it is 0, resolves to its object, and has then
    deleted the two ids from the table as the guest left it: neither is
    live when the function returns, whatever the guest did in between.
    It returns whenever the two registrations and the guest return. *)
Theorem handles_do_not_outlive_their_scope E fuel :
  (∀ i err i', Stop E i = Done (err, i') →
     handleMap i' = None ∧ ∀ h, lookupHandle i' h = None)
  ∧ (∀ i, guest_stop E = None → Stop E i = Done (None, cleanup i))
  ∧ (∀ i fn err j, guest_stop E = Some fn →
       fn (emit (Call GuestStop) i) = Done (err, j) →
       Stop E i = Done (err, cleanup j))
  ∧ (∀ cbID source data i err i',
       subscriptionCallback E fuel cbID source data i = Done (err, i') →
       ∃ tmpDS i1 tmpData i2 j,
         addHandle fuel (Some (ODataSource source)) i = Done (tmpDS, i1)
         ∧ addHandle fuel (Some (OData data)) i1 = Done (tmpData, i2)
         ∧ (tmpDS ≠ 0 → lookupHandle i2 tmpDS = Some (ODataSource source))
         ∧ (tmpData ≠ 0 → lookupHandle i2 tmpData = Some (OData data))
         ∧ guest_dsCallback E cbID tmpDS tmpData
             (emit (Call (GuestDsCallback cbID tmpDS tmpData)) i2)
           = Done (err, j)
         ∧ i' = set_handleMap (delete tmpData <$> (delete tmpDS <$> handleMap j)) j
         ∧ lookupHandle i' tmpDS = None ∧ lookupHandle i' tmpData = None)
  ∧ (∀ cbID source data i tmpDS i1 tmpData i2 err j,
       addHandle fuel (Some (ODataSource source)) i = Done (tmpDS, i1) →
       addHandle fuel (Some (OData data)) i1 = Done (tmpData, i2) →
       guest_dsCallback E cbID tmpDS tmpData
         (emit (Call (GuestDsCallback cbID tmpDS tmpData)) i2)
       = Done (err, j) →
       subscriptionCallback E fuel cbID source data i
       = Done (err, set_handleMap
                      (delete tmpData <$> (delete tmpDS <$> handleMap j)) j)).
Proof.
  split; [|split; [|split; [|split]]].
  - intros i err i' H. unfold Stop in H.
    destruct (guest_stop E) as [fn|].
    + destruct ((call GuestStop ;; fn) i) as [[e j]| |];
        inversion H; subst. split; reflexivity.
    + inversion H; subst. split; reflexivity.
  - intros i Hno. unfold Stop. rewrite Hno. reflexivity.
  - intros i fn err j Hfn Hcall. unfold Stop. rewrite Hfn.
    unfold bind, call, modify. rewrite Hcall. reflexivity.
  - intros cbID source data i err i' H.
    unfold subscriptionCallback, bind in H.
    destruct (addHandle fuel (Some (ODataSource source)) i)
      as [[tmpDS i1]| |] eqn:H1; try discriminate.
    destruct (addHandle fuel (Some (OData data)) i1)
      as [[tmpData i2]| |] eqn:H2; try discriminate.
    unfold call, modify, EncodeU32 in H.
    destruct (guest_dsCallback E cbID tmpDS tmpData _) as [[e j]| |] eqn:Hg;
      try discriminate.
    destruct (delHandle tmpDS j) as [[u1 j1]| |] eqn:Hd1; try discriminate.
    destruct (delHandle tmpData j1) as [[u2 j2]| |] eqn:Hd2; try discriminate.
    inversion H; subst. clear H.
    exists tmpDS, i1, tmpData, i2, j.
    split; [done|]. split; [done|].
    assert (Hlive2 : tmpData ≠ 0 → lookupHandle i2 tmpData = Some (OData data)).
    { intros Hnz.
      apply addHandle_outcome in H2 as [[-> _]|[_ (m & _ & _ & Hi2)]]; [done|].
      unfold lookupHandle. rewrite Hi2. apply lookup_insert_eq. }
    assert (Hlive1 : tmpDS ≠ 0 → lookupHandle i2 tmpDS = Some (ODataSource source)).
    { intros Hnz.
      apply addHandle_outcome in H1 as [[-> _]|[_ (m & _ & _ & Hi1)]]; [done|].
      apply addHandle_outcome in H2 as [[_ Hsame]|[_ (m1 & Hm1 & Hfree & Hi2)]];
        unfold lookupHandle.
      - rewrite Hsame, Hi1. apply lookup_insert_eq.
      - rewrite Hi2. rewrite Hi1 in Hm1. inversion Hm1; subst m1.
        destruct (decide (tmpData = tmpDS)) as [->|Hne].
        + by rewrite lookup_insert_eq in Hfree.
        + rewrite lookup_insert_ne by done. apply lookup_insert_eq. }
    split; [done|]. split; [done|]. split; [done|].
    rewrite delHandle_def in Hd1, Hd2. inversion Hd1; subst. inversion Hd2; subst.
    split; [reflexivity|].
    unfold lookupHandle. simpl.
    destruct (handleMap j) as [m|]; simpl; [|done]. split.
    + destruct (decide (tmpData = tmpDS)) as [->|Hne].
      * apply lookup_delete_eq.
      * rewrite lookup_delete_ne by done. apply lookup_delete_eq.
    + apply lookup_delete_eq.
  - intros cbID source data i tmpDS i1 tmpData i2 err j H1 H2 Hg.
    unfold subscriptionCallback, bind. rewrite H1, H2.
    unfold call, modify, EncodeU32. rewrite Hg. reflexivity.
Qed.

Lemma handles_do_not_outlive_their_scope_witness :
  (∃ err i', Stop unruly staticField = Done (Some err, i')
     ∧ handleMap i' = None ∧ ∀ h, lookupHandle i' h = None)
  ∧ (∃ err i',
       subscriptionCallback unruly 1 5 "dns" 9 staticField = Done (err, i')
       ∧ lookupHandle i' 3 = None ∧ lookupHandle i' 4 = None).
Proof.
  destruct (handles_do_not_outlive_their_scope unruly 1)
    as (HStop & _ & _ & _ & Hcb).
  split.
  - do 2 eexists. split; [reflexivity|]. eapply HStop. reflexivity.
  - do 2 eexists. split.
    + eapply (Hcb 5 "dns"%string 9 staticField 3 _ 4); reflexivity.
    + split; reflexivity.
Defined.

(** The guest of [unruly] took a handle of its own during the callback; that
    one stays, the two handles of the callback do not. *)
Example subscriptionCallback_unruly :
  ∃ i', subscriptionCallback unruly 1 5 "dns" 9 staticField
        = Done (Some "wasm error: unreachable"%string, i')
    ∧ lookupHandle i' 3 = None ∧ lookupHandle i' 4 = None
    ∧ lookupHandle i' 5 = Some (ODataSource "dns")
    ∧ lookupHandle i' 1 = lookupHandle staticField 1.
Proof. eexists. repeat split; reflexivity. Qed.

End HostCallClaims.

(** ** The OCI handler *)

Section OciHandlerClaims.
Import OciHandler.




Lemma init_prepare_keeps_instances insts : ∀ extra o,
  imageOperatorInstances (init_prepare insts extra o).2 = imageOperatorInstances o
  ∧ (init_prepare insts extra o).1 = extra ++ preparedParams insts.
Proof.
  induction insts as [|opInst insts IH]; intros extra o; simpl.
  - by rewrite app_nil_r.
  - destruct (instPrepare opInst) as [err|].
    + destruct (IH extra
        (emit (Errorf "preparing operator %q: %v" [instName opInst; err])
              (emit (Prepared (instName opInst)) o))) as [-> ->]. done.
    + destruct (IH (extra ++ AddPrefix (instName opInst) (instExtraParams opInst))
        (emit (Prepared (instName opInst)) o)) as [-> ->].
      by rewrite <- app_assoc.
Qed.

Lemma init_manifest_unfold registry manifest o :
  init_manifest registry manifest o
  = let o1 := init_layers registry (Layers manifest) o in
    match imageOperatorInstances o1 with
    | [] => (Some "image doesn't contain valid gadget layers"%string, o1)
    | _ :: _ =>
        (None, set_extraParams (init_prepare (imageOperatorInstances o1) [] o1).1
                               (init_prepare (imageOperatorInstances o1) [] o1).2)
    end.
Proof.
  unfold init_manifest. cbv zeta.
  destruct (imageOperatorInstances (init_layers registry (Layers manifest) o))
    as [|opInst insts]; [reflexivity|].
  change (length (opInst :: insts) =? 0)%nat with false. cbv iota.
  destruct (init_prepare _ _ _). reflexivity.
Qed.



(** The image of one wasm layer and one layer of an unknown media type: the
    unknown layer leaves a debug line, the wasm instance is prepared. *)
Example init_mixed_layers :
  ∃ o, InstantiateDataOperator someRegistry None (imageOf mixedLayers) = Ok o
    ∧ instName <$> imageOperatorInstances o = ["wasm"%string]
    ∧ extraParams o = ["wasm.allow-host-fs"%string]
    ∧ events o
      = [ Debugf "layer > %+v" ["application/vnd.oci.image.layer.v1.tar"];
          Debugf "layer > %+v" [wasmObjectMediaType];
          Debugf "found image op %q" ["wasm"];
          Instantiated "wasm" (mkDescriptor wasmObjectMediaType "sha256:b");
          Prepared "wasm" ]%string.
Proof. eexists. repeat split; reflexivity. Qed.

(** No layer at all, or only unknown ones: init fails. *)
Example init_no_valid_layers :
  InstantiateDataOperator someRegistry None
    (imageOf [mkDescriptor "application/vnd.oci.image.layer.v1.tar" "sha256:a"])
  = Err "image doesn't contain valid gadget layers".
Proof. reflexivity. Qed.

Ltac in_events :=
  simpl; rewrite ?elem_of_app, ?elem_of_cons, ?list_elem_of_singleton; auto 8.

Lemma init_prepare_logs insts : ∀ extra o,
  (∀ e, e ∈ events o → e ∈ events (init_prepare insts extra o).2)
  ∧ (∀ opInst err, opInst ∈ insts → instPrepare opInst = Some err →
       Errorf "preparing operator %q: %v" [instName opInst; err]
       ∈ events (init_prepare insts extra o).2).
Proof.
  induction insts as [|x insts IH]; intros extra o; simpl.
  - split; [done|]. intros opInst err Hin. by apply elem_of_nil in Hin.
  - destruct (instPrepare x) as [errx|] eqn:Hx.
    + destruct (IH extra
        (emit (Errorf "preparing operator %q: %v" [instName x; errx])
              (emit (Prepared (instName x)) o))) as [Hkeep Hlog].
      split.
      * intros e He. apply Hkeep. in_events.
      * intros opInst err Hin Hp. apply elem_of_cons in Hin as [->|Hin].
        -- apply Hkeep. rewrite Hx in Hp. inversion Hp; subst. in_events.
        -- by apply Hlog.
    + destruct (IH (extra ++ AddPrefix (instName x) (instExtraParams x))
        (emit (Prepared (instName x)) o)) as [Hkeep Hlog].
      split.
      * intros e He. apply Hkeep. in_events.
      * intros opInst err Hin Hp. apply elem_of_cons in Hin as [->|Hin].
        -- congruence.
        -- by apply Hlog.
Qed.

(** When the loop of Start returns, every instance has been started, in
    order, and the failures have been logged. *)
Lemma Start_loop_spec insts : ∀ o o',
  Start_loop insts o = Done o' →
  imageOperatorInstances o' = imageOperatorInstances o
  ∧ startedNames (events o') = startedNames (events o) ++ (instName <$> insts)
  ∧ (∀ e, e ∈ events o → e ∈ events o')
  ∧ (∀ opInst err, opInst ∈ insts → instStart opInst = Done (Some err) →
       Errorf "starting operator %q: %v" [instName opInst; err] ∈ events o').
Proof.
  induction insts as [|x insts IH]; intros o o' H; simpl in H.
  - inversion H; subst. rewrite app_nil_r. repeat split; try done.
    intros opInst err Hin. by apply elem_of_nil in Hin.
  - destruct (instStart x) as [[errx|]| |] eqn:Hx; try discriminate.
    + apply IH in H as (Hinsts & Hnames & Hkeep & Hlog).
      rewrite Hinsts, Hnames. split; [done|]. split.
      * simpl. unfold startedNames. rewrite !omap_app. simpl.
        by rewrite app_nil_r, <- app_assoc.
      * split.
        -- intros e He. apply Hkeep. in_events.
        -- intros opInst err Hin Hp. apply elem_of_cons in Hin as [->|Hin].
           ++ apply Hkeep. rewrite Hx in Hp. inversion Hp; subst. in_events.
           ++ by apply Hlog.
    + apply IH in H as (Hinsts & Hnames & Hkeep & Hlog).
      rewrite Hinsts, Hnames. split; [done|]. split.
      * simpl. unfold startedNames. rewrite !omap_app. simpl.
        by rewrite <- app_assoc.
      * split.
        -- intros e He. apply Hkeep. in_events.
        -- intros opInst err Hin Hp. apply elem_of_cons in Hin as [->|Hin].
           ++ congruence.
           ++ by apply Hlog.
Qed.

(** The loop of Start does not return once it has an instance whose Start
    panics. *)
Lemma Start_loop_panics insts : ∀ o opInst why,
  opInst ∈ insts → instStart opInst = GoPanic why →
  ∀ o', Start_loop insts o ≠ Done o'.
Proof.
  induction insts as [|x insts IH]; intros o opInst why Hin Hp o' H.
  - by apply elem_of_nil in Hin.
  - simpl in H. apply elem_of_cons in Hin as [->|Hin].
    + rewrite Hp in H. discriminate.
    + destruct (instStart x) as [[errx|]| |]; try discriminate;
        by eapply IH in H.
Qed.

(** The loop of Start returns when the Start of every instance does. *)
Lemma Start_loop_returns insts : ∀ o,
  (∀ x, x ∈ insts → ∃ e, instStart x = Done e) →
  ∃ o', Start_loop insts o = Done o'.
Proof.
  induction insts as [|x insts IH]; intros o Hall; simpl; [eauto|].
  destruct (Hall x) as [e He]; [left|]. rewrite He.
  destruct e; apply IH; intros y Hy; apply Hall; by right.
Qed.

(** The instance of the single eBPF layer fails to prepare; init logs that
    and succeeds all the same, the instance stays in the handler's list, and
    Start calls its Start. *)
Example Start_calls_instance_whose_Prepare_failed :
  ∃ o o', InstantiateDataOperator someRegistry None (imageOf ebpfOnly) = Ok o
    ∧ instPrepare <$> imageOperatorInstances o = [Some "loading program"%string]
    ∧ Errorf "preparing operator %q: %v" ["ebpf"; "loading program"]%string
      ∈ events o
    ∧ Start o = Done (None, o')
    ∧ startedNames (events o') = ["ebpf"%string].
Proof.
  do 2 eexists. split; [reflexivity|]. split; [reflexivity|].
  split; [|split; reflexivity].
  in_events.
Qed.

(** C6, where the code departs from it: an instance whose Prepare returns an
    error is not omitted.  init logs the error and returns nil, the instance
    stays in the handler's list, and Start calls its Start like that of any
    other instance: Start returns, with nil, when the Start of every
    instance returns, and then the instance has been started.  For the wasm
    instance this ends badly: a Prepare that fails to fetch the program
    returns before the module is set, and Start on an instance without
    module panics -- so that the handler's Start does not return. *)
Theorem failed_Prepare_is_not_omitted registry manifest o opInst err :
  opInst ∈ imageOperatorInstances (init_layers registry (Layers manifest) o) →
  instPrepare opInst = Some err →
  (init_manifest registry manifest o).1 = None
  ∧ opInst ∈ imageOperatorInstances (init_manifest registry manifest o).2
  ∧ Errorf "preparing operator %q: %v" [instName opInst; err]
    ∈ events (init_manifest registry manifest o).2
  ∧ (∀ e o', Start (init_manifest registry manifest o).2 = Done (e, o') →
       e = None ∧ Started (instName opInst) ∈ events o')
  ∧ ((∀ x, x ∈ imageOperatorInstances (init_layers registry (Layers manifest) o) →
        ∃ e, instStart x = Done e) →
     ∃ o', Start (init_manifest registry manifest o).2 = Done (None, o'))
  ∧ (∀ why, instStart opInst = GoPanic why →
       ∀ r, Start (init_manifest registry manifest o).2 ≠ Done r)
  ∧ (∀ p i cause,
       WasmLifecycle.GetContentFromDescriptor p = Some cause →
       WasmLifecycle.mod_ i = None →
       WasmLifecycle.Prepare p i
       = Done (Some ("initializing wasm: getting wasm program: " ++ cause)%string, i)
       ∧ WasmLifecycle.Start i = GoPanic WasmLifecycle.nilDereference).
Proof.
  intros Hin Hprep.
  rewrite init_manifest_unfold. cbv zeta.
  destruct (imageOperatorInstances (init_layers registry (Layers manifest) o))
    as [|x insts] eqn:Hl; [by apply elem_of_nil in Hin|].
  cbn [fst snd].
  set (o1 := init_layers registry (Layers manifest) o) in *.
  destruct (init_prepare_keeps_instances (x :: insts) [] o1) as [Hinsts _].
  destruct (init_prepare_logs (x :: insts) [] o1) as [_ Hlog].
  set (o2 := set_extraParams (init_prepare (x :: insts) [] o1).1
                             (init_prepare (x :: insts) [] o1).2).
  assert (Hinsts2 : imageOperatorInstances o2 = x :: insts).
  { unfold o2, set_extraParams. cbn [imageOperatorInstances].
    by rewrite Hinsts, Hl. }
  split; [done|]. split; [by rewrite Hinsts2|]. split.
  { unfold o2, set_extraParams. cbn [events]. by apply Hlog. }
  split; [|split; [|split]].
  - intros e o' Hstart. unfold Start in Hstart. rewrite Hinsts2 in Hstart.
    destruct (Start_loop (x :: insts) o2) as [o3| |] eqn:Hloop; try discriminate.
    inversion Hstart; subst. split; [done|].
    apply Start_loop_spec in Hloop as (_ & Hnames & _ & _).
    assert (Hname : instName opInst ∈ startedNames (events o')).
    { rewrite Hnames. apply elem_of_app. right.
      apply list_elem_of_fmap. eauto. }
    unfold startedNames in Hname. apply list_elem_of_omap in Hname as (ev & Hev & Hsome).
    destruct ev; inversion Hsome; subst. done.
  - intros Hall. unfold Start. rewrite Hinsts2.
    destruct (Start_loop_returns (x :: insts) o2 Hall) as [o' ->]. eauto.
  - intros why Hpanic r Hstart. unfold Start in Hstart. rewrite Hinsts2 in Hstart.
    destruct (Start_loop (x :: insts) o2) as [o3| |] eqn:Hloop; try discriminate.
    by eapply Start_loop_panics in Hloop.
  - intros p i cause Hfetch Hmod.
    unfold WasmLifecycle.Prepare, WasmLifecycle.init, WasmLifecycle.Start.
    rewrite Hfetch, Hmod. done.
Qed.

(** An image of a single wasm layer whose program cannot be fetched: init
    returns nil, and Start panics. *)
Lemma failed_Prepare_is_not_omitted_witness :
  let registry : gmap string ImageOperator :=
    {[ wasmObjectMediaType := unfetchedWasmOp ]} in
  let manifest :=
    mkManifest (mkDescriptor "application/vnd.gadget.config.v1+yaml" "sha256:c")
               [mkDescriptor wasmObjectMediaType "sha256:b"] in
  let o := mkOciHandlerInstance [] [] [] in
  (WasmLifecycle.Prepare WasmLifecycle.unfetchable
     WasmLifecycle.InstantiateImageOperator
   = Done (instPrepare unfetchedWasm, WasmLifecycle.InstantiateImageOperator)
   ∧ WasmLifecycle.Start WasmLifecycle.InstantiateImageOperator
     = instStart unfetchedWasm)
  ∧ (init_manifest registry manifest o).1 = None
  ∧ imageOperatorInstances (init_manifest registry manifest o).2 = [unfetchedWasm]
  ∧ Start (init_manifest registry manifest o).2
    = GoPanic WasmLifecycle.nilDereference
  ∧ ∀ r, Start (init_manifest registry manifest o).2 ≠ Done r.
Proof.
  intros registry manifest o.
  destruct (failed_Prepare_is_not_omitted registry manifest o unfetchedWasm
              "initializing wasm: getting wasm program: not found")
    as (Hnil & _ & _ & _ & _ & Hpanic & Hwasm).
  - vm_compute. left.
  - reflexivity.
  - split; [|split; [exact Hnil|split; [reflexivity|split; [reflexivity|]]]].
    + apply (Hwasm WasmLifecycle.unfetchable WasmLifecycle.InstantiateImageOperator
               "not found"%string); reflexivity.
    + apply (Hpanic WasmLifecycle.nilDereference). reflexivity.
Defined.

End OciHandlerClaims.

(** ** The metadata validator *)

Section MetadataClaims.
Import Metadata.

Lemma size_pos_nonempty {A} (m : gmap string A) :
  (0 <? size m)%nat = bool_decide (m ≠ ∅).
Proof.
  destruct (decide (m = ∅)) as [->|Hne].
  - rewrite map_size_empty. by rewrite bool_decide_eq_false_2; [|auto].
  - rewrite bool_decide_eq_true_2; [|done].
    apply Nat.ltb_lt. apply map_size_non_empty_iff in Hne. lia.
Qed.

Lemma countDistImp_familiesPresent m : countDistImp m = familiesPresent m.
Proof.
  unfold countDistImp, familiesPresent. rewrite !size_pos_nonempty.
  destruct (bool_decide (Tracers m ≠ ∅)), (bool_decide (Snapshotters m ≠ ∅)),
    (bool_decide (Toppers m ≠ ∅)), (bool_decide (Profilers m ≠ ∅)); reflexivity.
Qed.

Lemma appendNested_only_one run v m result count :
  OnlyOneImplementation count ∈ appendNested run v m result
  ↔ OnlyOneImplementation count ∈ result.
Proof.
  unfold appendNested. destruct (run v m) as [err|]; [|done].
  rewrite elem_of_app, list_elem_of_singleton. split; [|auto].
  intros [H|H]; [done|discriminate].
Qed.

Lemma Validate_only_one run m count :
  OnlyOneImplementation count ∈ Validate run m
  ↔ (1 < countDistImp m)%nat ∧ count = countDistImp m.
Proof.
  unfold Validate. rewrite !appendNested_only_one.
  destruct (1 <? countDistImp m)%nat eqn:Hc.
  - apply Nat.ltb_lt in Hc.
    rewrite elem_of_app, list_elem_of_singleton. split.
    + intros [H|H]; [|inversion H; auto].
      destruct (String.eqb (Name m) ""); simpl in H.
      * apply list_elem_of_singleton in H. discriminate.
      * by apply elem_of_nil in H.
    + intros [_ ->]. auto.
  - apply Nat.ltb_ge in Hc. split; [|lia].
    intros H. destruct (String.eqb (Name m) ""); simpl in H.
    + apply list_elem_of_singleton in H. discriminate.
    + by apply elem_of_nil in H.
Qed.

(** C9: Validate reports "gadget can implement only one tracer or
    snapshotter or topper or profiler" -- with the number found -- whenever
    more than one of the four families is non-empty, and does not report it
    when at most one is; whatever the other validators find. *)
Theorem Validate_one_family_only run m :
  ((1 < familiesPresent m)%nat →
     OnlyOneImplementation (familiesPresent m) ∈ Validate run m)
  ∧ ((familiesPresent m ≤ 1)%nat →
       ∀ count, OnlyOneImplementation count ∉ Validate run m).
Proof.
  rewrite <- countDistImp_familiesPresent. split.
  - intros Hmany. by apply Validate_only_one.
  - intros Hfew count Hin. apply Validate_only_one in Hin as [Hmany _]. lia.
Qed.

Lemma Validate_one_family_only_witness :
  OnlyOneImplementation 2 ∈ Validate lenient traceAndTop
  ∧ ∀ count, OnlyOneImplementation count ∉ Validate lenient traceOpen.
Proof.
  split.
  - apply (proj1 (Validate_one_family_only lenient traceAndTop)).
    vm_compute. lia.
  - apply (proj2 (Validate_one_family_only lenient traceOpen)).
    vm_compute. lia.
Defined.

Example Validate_traceAndTop :
  Validate lenient traceAndTop = [OnlyOneImplementation 2].
Proof. reflexivity. Qed.

Example Validate_traceOpen : Validate lenient traceOpen = [].
Proof. reflexivity. Qed.

End MetadataClaims.

(** ** More about the handle table *)

Section HandleTableMore.
Import Wasm.

(** An id addHandle returns that is not 0 is the id of a slot that was
    free, now filled with the object; the other slots are as before. *)
Lemma addHandle_registered fuel o i h i' :
  addHandle fuel (Some o) i = Done (h, i') → h ≠ 0 →
  0 < h < 2 ^ 32 ∧ lookupHandle i h = None ∧ lookupHandle i' h = Some o
  ∧ ∀ h', h' ≠ h → lookupHandle i' h' = lookupHandle i h'.
Proof.
  intros Ha Hnz.
  apply addHandle_outcome in Ha as [[-> Hsame]|[Hh (m & Hm & Hfree & Hi')]];
    [done|]. unfold lookupHandle. rewrite Hm, Hi'.
  pose proof (nextCtr_range (handleCtr i)).
  split; [lia|]. split; [done|]. split; [apply lookup_insert_eq|].
  intros h' Hne. by rewrite lookup_insert_ne.
Qed.

(** addHandle never disturbs a live handle: whatever resolved before
    resolves to the same object afterwards, and an id it returns was free
    before, lies in the range of a non-zero uint32 and resolves to the
    object just registered. *)
Theorem addHandle_keeps_live_handles fuel o i h i' :
  addHandle fuel (Some o) i = Done (h, i') →
  (∀ h' x, lookupHandle i h' = Some x → lookupHandle i' h' = Some x)
  ∧ (h ≠ 0 →
       0 < h < 2 ^ 32 ∧ lookupHandle i h = None ∧ lookupHandle i' h = Some o).
Proof.
  intros Ha. destruct (decide (h = 0)) as [->|Hnz].
  - split; [|done]. intros h' x Hx.
    apply addHandle_outcome in Ha as [[_ Hsame]|[Hh _]].
    + unfold lookupHandle in *. by rewrite Hsame.
    + pose proof (nextCtr_range (handleCtr i)). lia.
  - destruct (addHandle_registered _ _ _ _ _ Ha Hnz) as (Hr & Hfree & Hlive & Hrest).
    split; [|auto]. intros h' x Hx.
    rewrite Hrest; [done|]. intros ->. congruence.
Qed.

Lemma addHandle_keeps_live_handles_witness :
  (∀ h' x, lookupHandle staticField h' = Some x →
     lookupHandle (mkInstance (Some (<[3 := OData 7]>
                      {[ 1 := OFieldAccessor (mkFieldAccessor "comm" 8);
                         2 := OData 9 ]})) 3
                     (list_ascii_of_string "inspektor-gadget") []) h' = Some x)
  ∧ (3 ≠ 0 →
       0 < 3 < 2 ^ 32 ∧ lookupHandle staticField 3 = None
       ∧ lookupHandle (mkInstance (Some (<[3 := OData 7]>
                      {[ 1 := OFieldAccessor (mkFieldAccessor "comm" 8);
                         2 := OData 9 ]})) 3
                     (list_ascii_of_string "inspektor-gadget") []) 3
         = Some (OData 7)).
Proof.
  apply (addHandle_keeps_live_handles 1 (OData 7) staticField 3).
  reflexivity.
Defined.

(** delHandle undoes addHandle: deleting the id addHandle has just returned
    gives back the table as it was before the two calls (the counter stays
    advanced). *)
Theorem delHandle_undoes_addHandle fuel o i h i1 :
  addHandle fuel (Some o) i = Done (h, i1) →
  h ≠ 0 →
  ∃ i2, delHandle h i1 = Done (tt, i2)
    ∧ handleMap i2 = handleMap i ∧ handleCtr i2 = h
    ∧ memory i2 = memory i ∧ events i2 = events i.
Proof.
  intros Ha Hnz. rewrite addHandle_unfold in Ha.
  apply addHandle_loop_result in Ha as [[-> _]|[Hc (m & Hm & Hfree & ->)]];
    [done|].
  cbn [handleMap handleCtr set_handleCtr] in Hm, Hc.
  eexists. split; [reflexivity|].
  cbn [handleMap handleCtr memory events set_handleMap set_handleCtr].
  rewrite Hm. cbn [fmap option_fmap option_map].
  rewrite delete_insert_id by done. auto.
Qed.

Lemma delHandle_undoes_addHandle_witness :
  ∃ i2, delHandle 3 (mkInstance (Some (<[3 := OData 7]>
                      {[ 1 := OFieldAccessor (mkFieldAccessor "comm" 8);
                         2 := OData 9 ]})) 3
                     (list_ascii_of_string "inspektor-gadget") [])
        = Done (tt, i2)
    ∧ handleMap i2 = handleMap staticField ∧ handleCtr i2 = 3
    ∧ memory i2 = memory staticField ∧ events i2 = events staticField.
Proof.
  apply (delHandle_undoes_addHandle 1 (OData 7) staticField 3).
  - reflexivity.
  - lia.
Defined.

Lemma delHandle_handleMap h i :
  delHandle h i = Done (tt, set_handleMap (delete h <$> handleMap i) i).
Proof. reflexivity. Qed.

(** A callback whose guest takes no handles of its own leaves the handle
    table exactly as it found it: the two handles created for the call are
    the only change and they are removed again. *)
Theorem subscriptionCallback_restores_table E fuel cbID source data i err i' :
  (∀ a b c j e j',
     guest_dsCallback E a b c j = Done (e, j') → handleMap j' = handleMap j) →
  lookupHandle i 0 = None →
  subscriptionCallback E fuel cbID source data i = Done (err, i') →
  handleMap i' = handleMap i.
Proof.
  intros Hguest Hz H. unfold subscriptionCallback, bind in H.
  destruct (addHandle fuel (Some (ODataSource source)) i)
    as [[tmpDS i1]| |] eqn:H1; try discriminate.
  destruct (addHandle fuel (Some (OData data)) i1)
    as [[tmpData i2]| |] eqn:H2; try discriminate.
  unfold call, modify in H.
  destruct (guest_dsCallback E _ _ _ _) as [[e j]| |] eqn:Hg; try discriminate.
  apply Hguest in Hg. cbn [handleMap emit] in Hg.
  rewrite !delHandle_handleMap in H. inversion H; subst. clear H.
  cbn [handleMap set_handleMap]. rewrite Hg.
  unfold lookupHandle in Hz.
  apply addHandle_outcome in H1 as [[-> Hs1]|[Hh1 (m & Hm & Hf1 & Hi1)]];
    apply addHandle_outcome in H2 as [[-> Hs2]|[Hh2 (m1 & Hm1 & Hf2 & Hi2)]].
  - rewrite Hs2, Hs1. destruct (handleMap i) as [m|]; [|done]. simpl.
    by rewrite !(delete_id m 0 Hz).
  - rewrite Hi2. rewrite Hs1 in Hm1. rewrite Hm1 in *. simpl.
    pose proof (nextCtr_range (handleCtr i1)).
    rewrite (delete_id _ 0) by (rewrite lookup_insert_ne; [done|lia]).
    by rewrite delete_insert_id.
  - rewrite Hs2, Hi1. rewrite Hm in *. simpl.
    rewrite delete_insert_id by done. by rewrite (delete_id m 0 Hz).
  - rewrite Hi2. rewrite Hi1 in Hm1. inversion Hm1; subst m1.
    rewrite Hm in *. simpl.
    rewrite lookup_insert in Hf2.
    destruct (decide (tmpDS = tmpData)) as [Heq|Hne]; [discriminate|].
    rewrite (delete_insert_ne _ tmpDS tmpData) by done.
    rewrite (delete_insert_id m tmpDS) by done.
    by rewrite delete_insert_id.
Qed.

Lemma subscriptionCallback_restores_table_witness :
  ∃ i', subscriptionCallback barren 1 5 "dns" 9 staticField = Done (None, i')
    ∧ handleMap i' = handleMap staticField.
Proof.
  eexists. split; [reflexivity|].
  apply (subscriptionCallback_restores_table barren 1 5 "dns"%string 9
           staticField None).
  - intros a b c j e j' H. inversion H. reflexivity.
  - reflexivity.
  - reflexivity.
Defined.

(** Once Stop has returned the table is a nil map: every lookup gives nil,
    every delete is a no-op, and registering an object -- as a subscription
    callback that fires later would -- panics on the write to the nil map. *)
Theorem handle_table_after_Stop E fuel i err i' o :
  Stop E i = Done (err, i') →
  addHandle (S fuel) (Some o) i' = GoPanic "assignment to entry in nil map"
  ∧ (∀ h, getHandle h i' = Done (None, i'))
  ∧ (∀ h, delHandle h i' = Done (tt, i')).
Proof.
  intros H. unfold Stop in H.
  assert (Hnil : ∃ j, i' = cleanup j).
  { destruct (guest_stop E) as [fn|].
    - destruct ((call GuestStop ;; fn) i) as [[e j]| |]; inversion H; eauto.
    - inversion H; eauto. }
  destruct Hnil as [j ->]. split; [|split].
  - rewrite addHandle_unfold. by apply addHandle_loop_nil.
  - reflexivity.
  - reflexivity.
Qed.

Lemma handle_table_after_Stop_witness :
  ∃ i', Stop unruly staticField
        = Done (Some "module closed with context deadline exceeded"%string, i')
    ∧ addHandle 1 (Some (OData 7)) i' = GoPanic "assignment to entry in nil map"
    ∧ (∀ h, getHandle h i' = Done (None, i'))
    ∧ (∀ h, delHandle h i' = Done (tt, i')).
Proof.
  eexists. split; [reflexivity|].
  eapply (handle_table_after_Stop unruly 0 staticField). reflexivity.
Defined.

End HandleTableMore.

(** ** More about the host calls *)

Section HostCallsMore.
Import Wasm WasmMore.

Ltac run_host :=
  unfold bind, peek, poke0, getHandle, gets, modify, ret, call, ask,
    logWarnf, logInfo, logDebugf; simpl.

Lemma lookupHandle_handleMap i j h :
  handleMap i = handleMap j → lookupHandle i h = lookupHandle j h.
Proof. unfold lookupHandle. by intros ->. Qed.

(** Registering what a call has found and leaving the id in the result
    slot. *)
Lemma register_result fuel obj stack j stack' i' :
  (do h <- addHandle fuel obj ; poke0 stack (EncodeU32 h)) j = Done (stack', i') →
  ∃ h, stack' !! 0%nat = Some h
    ∧ ((h = 0 ∧ handleMap i' = handleMap j)
       ∨ (0 < h < 2 ^ 32 ∧ lookupHandle j h = None
          ∧ (∃ o, obj = Some o ∧ lookupHandle i' h = Some o)
          ∧ ∀ h' x, lookupHandle j h' = Some x → lookupHandle i' h' = Some x)).
Proof.
  unfold bind. intros H.
  destruct (addHandle fuel obj j) as [[h j1]| |] eqn:Ha; try discriminate.
  unfold poke0, ret, EncodeU32 in H. destruct stack as [|s0 stack]; [discriminate|].
  inversion H; subst. exists h. split; [reflexivity|].
  destruct obj as [o|].
  - destruct (decide (h = 0)) as [->|Hnz].
    + left. split; [done|].
      apply addHandle_outcome in Ha as [[_ Hs]|[Hh _]]; [done|].
      pose proof (nextCtr_range (handleCtr j)). lia.
    + right.
      destruct (addHandle_registered _ _ _ _ _ Ha Hnz) as (Hr & Hfree & Hlive & Hrest).
      split; [done|]. split; [done|]. split; [eauto|].
      intros h' x Hx. rewrite Hrest; [done|]. intros ->. congruence.
  - inversion Ha; subst. left. done.
Qed.

(** A handle a host function returns is 0 or good: when newDataSource,
    getDataSource, dataSourceGetField, dataSourceAddField or
    dataSourceNewData returns, its result slot holds either 0, and then the
    handle table is as before, or a non-zero uint32 that was free before and
    now resolves to an object of the type the function is for; no handle
    that was live is changed. *)
Theorem returned_handle_resolves E fuel f stack i stack' i' :
  returnsHandle f = true →
  hostFunction E fuel f stack i = Done (stack', i') →
  ∃ h, stack' !! 0%nat = Some h
    ∧ ((h = 0 ∧ handleMap i' = handleMap i)
       ∨ (0 < h < 2 ^ 32 ∧ lookupHandle i h = None
          ∧ (∃ o, lookupHandle i' h = Some o ∧ advertised f o = true)
          ∧ ∀ h' x, lookupHandle i h' = Some x → lookupHandle i' h' = Some x)).
Proof.
  intros Hf H.
  assert (Hfail : ∀ stack0 j, handleMap j = handleMap i →
            Done (0 :: stack0, j) = Done (stack', i') →
            ∃ h, stack' !! 0%nat = Some h
              ∧ ((h = 0 ∧ handleMap i' = handleMap i)
                 ∨ (0 < h < 2 ^ 32 ∧ lookupHandle i h = None
                    ∧ (∃ o, lookupHandle i' h = Some o ∧ advertised f o = true)
                    ∧ ∀ h' x, lookupHandle i h' = Some x
                              → lookupHandle i' h' = Some x))).
  { intros stack0 j Hj Heq. inversion Heq; subst. exists 0. split; [done|].
    by left. }
  assert (Hreg : ∀ c obj stack0,
            (∀ o, obj = Some o → advertised f o = true) →
            (do h <- addHandle fuel obj ; poke0 stack0 (EncodeU32 h))
              (emit (Call c) i) = Done (stack', i') →
            ∃ h, stack' !! 0%nat = Some h
              ∧ ((h = 0 ∧ handleMap i' = handleMap i)
                 ∨ (0 < h < 2 ^ 32 ∧ lookupHandle i h = None
                    ∧ (∃ o, lookupHandle i' h = Some o ∧ advertised f o = true)
                    ∧ ∀ h' x, lookupHandle i h' = Some x
                              → lookupHandle i' h' = Some x))).
  { intros c obj stack0 Hadv Hrun.
    apply register_result in Hrun as (h & Hh & [[-> Hs]|(Hr & Hfree & (o & -> & Hlive) & Hframe)]).
    - exists 0. split; [done|]. by left.
    - exists h. split; [done|]. right. eauto 8. }
  destruct f; try discriminate; cbn [hostFunction] in H;
    destruct stack as [|s0 stack]; try discriminate.
  - (* newDataSource *)
    unfold newDataSource in H.
    unfold bind, peek, gets, ret in H. simpl in H.
    destruct (stringFromStack (memory i) s0) as [dsName|err];
      [|(eapply Hfail; [|exact H]; reflexivity)].
    unfold ask in H. simpl in H.
    destruct (ctx_RegisterDataSource E (events i) 0 dsName) as [ds|err];
      [|(eapply Hfail; [|exact H]; reflexivity)].
    eapply (Hreg (RegisterDataSource 0 dsName) (Some (ODataSource ds))
                 (s0 :: stack)); [|exact H].
    intros o [= <-]. reflexivity.
  - (* getDataSource *)
    unfold getDataSource in H.
    unfold bind, peek, gets, ret in H. simpl in H.
    destruct (stringFromStack (memory i) s0) as [dsName|err];
      [|(eapply Hfail; [|exact H]; reflexivity)].
    unfold ask in H. simpl in H.
    destruct (ctx_GetDataSources E (events i) dsName) as [ds|].
    + eapply (Hreg (GetDataSources dsName) (Some (ODataSource ds))
                   (s0 :: stack)); [|exact H].
      intros o [= <-]. reflexivity.
    + (eapply Hfail; [|exact H]; reflexivity).
  - (* dataSourceGetField *)
    unfold dataSourceGetField in H.
    unfold bind, peek, getHandle, gets, ret in H. simpl in H.
    destruct (asDataSource (lookupHandle i (DecodeU32 s0))) as [ds|];
      [|(eapply Hfail; [|exact H]; reflexivity)].
    destruct stack as [|s1 stack]; [discriminate|]. simpl in H.
    destruct (stringFromStack (memory i) s1) as [fieldName|err];
      [|(eapply Hfail; [|exact H]; reflexivity)].
    unfold ask in H. simpl in H.
    eapply (Hreg (DsGetField ds fieldName)
                 (OFieldAccessor <$> ds_GetField E (events i) ds fieldName)
                 (s0 :: s1 :: stack)); [|exact H].
    intros o Ho. destruct (ds_GetField E (events i) ds fieldName);
      inversion Ho; reflexivity.
  - (* dataSourceAddField *)
    unfold dataSourceAddField in H.
    unfold bind, peek, getHandle, gets, ret in H. simpl in H.
    destruct (asDataSource (lookupHandle i (DecodeU32 s0))) as [ds|];
      [|(eapply Hfail; [|exact H]; reflexivity)].
    destruct stack as [|s1 stack]; [discriminate|]. simpl in H.
    destruct (stringFromStack (memory i) s1) as [fieldName|err];
      [|(eapply Hfail; [|exact H]; reflexivity)].
    unfold ask in H. simpl in H.
    destruct (ds_AddField E (events i) ds fieldName) as [acc|err].
    + eapply (Hreg (DsAddField ds fieldName) (Some (OFieldAccessor acc))
                   (s0 :: s1 :: stack)); [|exact H].
      intros o [= <-]. reflexivity.
    + (eapply Hfail; [|exact H]; reflexivity).
  - (* dataSourceNewData *)
    unfold dataSourceNewData in H.
    unfold bind, peek, getHandle, gets, ret in H. simpl in H.
    destruct (asDataSource (lookupHandle i (DecodeU32 s0))) as [ds|];
      [|(eapply Hfail; [|exact H]; reflexivity)].
    unfold ask in H. simpl in H.
    eapply (Hreg (DsNewData ds) (OData <$> ds_NewData E (events i) ds)
                 (s0 :: stack)); [|exact H].
    intros o Ho. destruct (ds_NewData E (events i) ds);
      inversion Ho; reflexivity.
Qed.

Lemma returned_handle_resolves_witness :
  ∃ stack' i',
    hostFunction dnsWorld 1 IdataSourceGetField [1; stringRef 4 4] dnsInstance
    = Done (stack', i')
    ∧ ∃ h, stack' !! 0%nat = Some h
        ∧ ((h = 0 ∧ handleMap i' = handleMap dnsInstance)
           ∨ (0 < h < 2 ^ 32 ∧ lookupHandle dnsInstance h = None
              ∧ (∃ o, lookupHandle i' h = Some o
                      ∧ advertised IdataSourceGetField o = true)
              ∧ ∀ h' x, lookupHandle dnsInstance h' = Some x
                        → lookupHandle i' h' = Some x)).
Proof.
  do 2 eexists. split; [reflexivity|].
  eapply (returned_handle_resolves dnsWorld 1 IdataSourceGetField
            [1; stringRef 4 4] dnsInstance).
  - reflexivity.
  - reflexivity.
Defined.

(** The field is there, so the handle is 4; for a field the data source
    does not have the result is 0 and nothing is logged. *)
Example dataSourceGetField_examples :
  (∃ i', dataSourceGetField dnsWorld 1 [1; stringRef 4 4] dnsInstance
         = Done ([4; stringRef 4 4], i')
     ∧ lookupHandle i' 4 = Some (OFieldAccessor (mkFieldAccessor "name" 0)))
  ∧ dataSourceGetField dnsWorld 1 [1; stringRef 3 0] dnsInstance
    = Done ([0; stringRef 3 0],
            emit (Call (DsGetField "dns" "dns")) dnsInstance).
Proof. split; [eexists; split; reflexivity|reflexivity]. Qed.

(** *** String references *)

Lemma land_shiftl_u32 len ptr :
  0 <= ptr < 2 ^ 32 → Z.land (Z.shiftl len 32) ptr = 0.
Proof.
  intros Hptr. apply Z.bits_inj'. intros n Hn.
  rewrite Z.land_spec, Z.bits_0.
  destruct (Z.lt_ge_cases n 32) as [Hlt|Hge].
  - rewrite Z.shiftl_spec_low by lia. reflexivity.
  - replace ptr with (Z.land ptr (Z.ones 32))
      by (rewrite Z.land_ones by lia; apply Z.mod_small; lia).
    rewrite Z.land_spec, Z.ones_spec_high by lia.
    by rewrite !andb_false_r.
Qed.

(** A string reference holds its length and its pointer apart. *)
Lemma stringRef_parts len ptr :
  0 <= len < 2 ^ 32 → 0 <= ptr < 2 ^ 32 →
  stringRef len ptr = len * 2 ^ 32 + ptr
  ∧ Z.land (stringRef len ptr) 4294967295 = ptr
  ∧ Z.shiftr (stringRef len ptr) 32 = len.
Proof.
  intros Hlen Hptr. unfold stringRef, uint64, U64.
  assert (Hsum : Z.lor (Z.shiftl len 32 mod 2 ^ 64) ptr = len * 2 ^ 32 + ptr).
  { rewrite Z.mod_small by (rewrite Z.shiftl_mul_pow2 by lia; lia).
    rewrite <- Z.add_nocarry_lor by (by apply land_shiftl_u32).
    by rewrite Z.shiftl_mul_pow2 by lia. }
  rewrite Hsum. split; [done|]. split.
  - change 4294967295 with (Z.ones 32). rewrite Z.land_ones by lia.
    rewrite Z.add_comm, Z.mod_add by lia. apply Z.mod_small. lia.
  - rewrite Z.shiftr_div_pow2 by lia.
    rewrite Z.add_comm, Z.div_add by lia. rewrite Z.div_small by lia. lia.
Qed.

Lemma Memory_Write_Read mem offset v mem' :
  0 <= offset →
  Memory_Write mem offset v = Some mem' →
  Memory_Read mem' offset (Z.of_nat (length v)) = Some v
  ∧ length mem' = length mem.
Proof.
  unfold Memory_Write, Memory_Read. intros Hoff H.
  destruct (offset + Z.of_nat (length v) <=? Z.of_nat (length mem)) eqn:Hfit;
    [|discriminate].
  apply Z.leb_le in Hfit. inversion H; subst mem'. clear H.
  assert (Hlen : length (take (Z.to_nat offset) mem ++ v
                         ++ drop (Z.to_nat offset + length v) mem)
                 = length mem).
  { rewrite !length_app, length_take_le, length_drop by lia. lia. }
  rewrite Hlen. split; [|done].
  destruct (offset + Z.of_nat (length v) <=? Z.of_nat (length mem)) eqn:Hfit';
    [|apply Z.leb_gt in Hfit'; lia].
  rewrite drop_app_length' by (rewrite length_take_le; lia).
  by rewrite Nat2Z.id, take_app_length.
Qed.

End HostCallsMore.

(** ** The guest API against the host *)

Section GuestAPI.
Import Wasm WasmMore Guest.

Lemma DecodeU32_uint32 v : DecodeU32 (uint32 v) = uint32 v.
Proof. unfold DecodeU32, uint32, U32. by rewrite Z.mod_mod by lia. Qed.

Lemma length_list_ascii_of_string (s : string) :
  length (list_ascii_of_string s) = String.length s.
Proof. induction s as [|c s IH]; simpl; [reflexivity|by rewrite IH]. Qed.

Lemma string_length_zero (s : string) : String.length s = 0%nat → s = EmptyString.
Proof. by destruct s. Qed.

(** Field.String gives the guest the string the accessor holds: with both
    handles good, a string shorter than 4 GiB and a malloc that returns
    (as a uint32) a block inside the guest's memory as malloc leaves it, the
    string the guest decodes from the reference it gets back is exactly
    [acc.String(data)]; the host writes the bytes of the block and otherwise
    leaves the instance as malloc left it. *)
Theorem Field_String_round_trip E f data i acc d res0 j :
  asFieldAccessor (lookupHandle i (uint32 f)) = Some acc →
  asData (lookupHandle i (uint32 data)) = Some d →
  guest_malloc E (Z.of_nat (String.length (acc_String E (events i) acc d)))
    (emit (Call (GuestMalloc
                   (Z.of_nat (String.length (acc_String E (events i) acc d)))))
          (emit (Call (AccString acc d)) i))
  = Done (Ok res0, j) →
  0 <= res0 < 2 ^ 32 →
  Z.of_nat (String.length (acc_String E (events i) acc d)) < 2 ^ 32 →
  res0 + Z.of_nat (String.length (acc_String E (events i) acc d))
    <= Z.of_nat (length (memory j)) →
  ∃ i', Field_String E f data i
        = Done (Some (acc_String E (events i) acc d), i')
    ∧ handleMap i' = handleMap j ∧ handleCtr i' = handleCtr j
    ∧ events i' = events j
    ∧ Memory_Write (memory j) res0
        (list_ascii_of_string (acc_String E (events i) acc d))
      = Some (memory i').
Proof.
  intros Hacc Hdata Hmalloc Hres Hshort Hfit.
  set (str := acc_String E (events i) acc d) in *.
  assert (Hu : uint32 res0 = res0)
    by (unfold uint32, U32; apply Z.mod_small; lia).
  assert (Hw : ∃ mem', Memory_Write (memory j) res0 (list_ascii_of_string str)
                       = Some mem').
  { unfold Memory_Write. rewrite length_list_ascii_of_string.
    destruct (_ <=? _) eqn:Hle; [eauto|]. apply Z.leb_gt in Hle. lia. }
  destruct Hw as [mem' Hw].
  assert (Hdec : stringPtr_String mem'
                   (stringRef (Z.of_nat (String.length str)) res0) = Some str).
  { apply Memory_Write_Read in Hw as [Hread _]; [|lia].
    rewrite length_list_ascii_of_string in Hread.
    destruct (stringRef_parts (Z.of_nat (String.length str)) res0)
      as (Hsum & Hptr & Hlen); [lia|lia|].
    unfold stringPtr_String.
    destruct (stringRef (Z.of_nat (String.length str)) res0 =? 0) eqn:Hz.
    - apply Z.eqb_eq in Hz. rewrite Hz in Hsum.
      assert (Hempty : String.length str = 0%nat) by lia.
      by rewrite (string_length_zero str Hempty).
    - rewrite Hptr, Hlen, Hread. simpl.
      by rewrite string_of_list_ascii_of_string. }
  unfold Field_String, result0, fieldAccessorGetString.
  unfold bind, peek, getHandle, gets, ret, ask, call, modify. simpl.
  rewrite !DecodeU32_uint32, Hacc. simpl. rewrite Hdata. simpl.
  fold str. rewrite Hmalloc. simpl. rewrite Hu, Hw. simpl. rewrite Hdec.
  eexists. split; [reflexivity|]. simpl. auto.
Qed.

Lemma Field_String_round_trip_witness :
  ∃ i', Field_String dnsWorld 2 3 dnsInstance = Done (Some "gadget"%string, i')
    ∧ handleMap i' = handleMap dnsInstance ∧ handleCtr i' = handleCtr dnsInstance
    ∧ events i'
      = [Call (AccString (mkFieldAccessor "name" 0) 9); Call (GuestMalloc 6)]
    ∧ Memory_Write (memory dnsInstance) 4 (list_ascii_of_string "gadget")
      = Some (memory i').
Proof.
  apply (Field_String_round_trip dnsWorld 2 3 dnsInstance
           (mkFieldAccessor "name" 0) 9 4
           (emit (Call (GuestMalloc 6))
              (emit (Call (AccString (mkFieldAccessor "name" 0) 9)) dnsInstance))).
  - reflexivity.
  - reflexivity.
  - reflexivity.
  - lia.
  - simpl. lia.
  - simpl. lia.
Defined.

(** *** Integers across the boundary *)

Lemma mod_mod_pow2 v w :
  0 <= w <= 64 → (v mod 2 ^ 64) mod 2 ^ w = v mod 2 ^ w.
Proof.
  intros Hw. apply Z.mod_mod_divide.
  exists (2 ^ (64 - w)). rewrite <- Z.pow_add_r by lia. f_equal. lia.
Qed.

(** Sign extension to 64 bits followed by the conversion back to [w] bits
    is the identity on the values of a signed [w]-bit integer ... *)
Lemma sintN_uint64 w v :
  0 < w <= 64 → - 2 ^ (w - 1) <= v < 2 ^ (w - 1) → sintN w (uint64 v) = v.
Proof.
  intros Hw Hv. unfold sintN, uint64, U64. rewrite mod_mod_pow2 by lia.
  assert (Hpow : 2 ^ w = 2 * 2 ^ (w - 1)).
  { rewrite <- Z.pow_succ_r by lia. f_equal. lia. }
  destruct (Z.lt_ge_cases v 0) as [Hneg|Hpos].
  - replace (v mod 2 ^ w) with (v + 2 ^ w).
    + destruct (v + 2 ^ w <? 2 ^ (w - 1)) eqn:Hlt; [|lia].
      apply Z.ltb_lt in Hlt. lia.
    + apply Z.mod_unique with (-1); lia.
  - rewrite Z.mod_small by lia.
    destruct (v <? 2 ^ (w - 1)) eqn:Hlt; [done|].
    apply Z.ltb_ge in Hlt. lia.
Qed.

(** ... and so is zero extension followed by the conversion back on those
    of an unsigned one. *)
Lemma uintN_uint64 w v :
  0 <= w <= 64 → 0 <= v < 2 ^ w → uintN w (uint64 v) = v.
Proof.
  intros Hw Hv. unfold uintN, uint64, U64. rewrite mod_mod_pow2 by lia.
  apply Z.mod_small. lia.
Qed.

(** The setters of the integer kinds deliver: with both handles good, the
    accessor is asked to put exactly the value the guest passed, for every
    value of the kind (negative ones included); nothing else is written and
    nothing is logged.  (For Int8 the host reads the field back as well.) *)
Theorem SetInt_reaches_accessor E k f data v i acc d :
  isInteger k = true →
  inKind k v →
  asFieldAccessor (lookupHandle i (uint32 f)) = Some acc →
  asData (lookupHandle i (uint32 data)) = Some d →
  ∃ stack' i',
    SetInt E k f data v i = Done (stack', i')
    ∧ handleMap i' = handleMap i ∧ memory i' = memory i
    ∧ events i'
      = events i ++ Call (AccPut k acc d v)
          :: match k with
             | Kind_Int8 => [Call (AccGet Kind_Int8 acc d)]
             | _ => []
             end.
Proof.
  intros Hk Hv Hacc Hdata.
  destruct k; try discriminate; cbn [inKind] in Hv;
    unfold SetInt, SetInt8, SetInt16, SetInt32, SetInt64,
      SetUint8, SetUint16, SetUint32, SetUint64, Field_set, fieldAccessorSet;
    unfold bind, peek, getHandle, gets, ret, ask, call, modify;
    cbn [lookup list_lookup]; rewrite !DecodeU32_uint32, Hacc;
    cbn [asFieldAccessor]; rewrite Hdata; cbn [asData];
    match goal with
    | |- context [Kind_of_stack ?x] =>
        change (Kind_of_stack x) with (Kind_of (sintN 32 x)); simpl (Kind_of _)
    end; cbv iota beta;
    rewrite ?sintN_uint64, ?uintN_uint64 by (simpl; lia);
    do 2 eexists; (split; [reflexivity|]); repeat split;
    cbn [events emit]; rewrite <- ?app_assoc; reflexivity.
Qed.

Lemma SetInt_reaches_accessor_witness :
  ∃ stack' i',
    SetInt dnsWorld Kind_Int32 2 3 (-5) dnsInstance = Done (stack', i')
    ∧ handleMap i' = handleMap dnsInstance ∧ memory i' = memory dnsInstance
    ∧ events i'
      = events dnsInstance
        ++ [Call (AccPut Kind_Int32 (mkFieldAccessor "name" 0) 9 (-5))].
Proof.
  apply (SetInt_reaches_accessor dnsWorld Kind_Int32 2 3 (-5) dnsInstance
           (mkFieldAccessor "name" 0) 9).
  - reflexivity.
  - simpl. lia.
  - reflexivity.
  - reflexivity.
Defined.

(** The getters of the integer kinds convert back what the host sign- or
    zero-extended: the -1 the accessor of [dnsWorld] holds comes out as -1
    through Int8 and as 255 through Uint8. *)
Example Int8_Uint8_examples :
  (∃ i', Int8 dnsWorld 2 3 dnsInstance = Done (-1, i'))
  ∧ (∃ i', Uint8 dnsWorld 2 3 dnsInstance = Done (255, i')).
Proof. split; eexists; reflexivity. Qed.

Lemma frombits_subnormal we wm t :
  0 < we → 0 < wm → 0 <= t < 2 ^ wm →
  frombits we wm t = FNum t (1 - (2 ^ (we - 1) - 1) - wm).
Proof.
  intros Hwe Hwm Ht. unfold frombits.
  assert (Hpow : 2 ^ wm < 2 ^ (we + wm)) by (apply Z.pow_lt_mono_r; lia).
  assert (Hsign : Z.testbit t (we + wm) = false).
  { apply Z.testbit_false; [lia|]. rewrite Z.div_small by lia. reflexivity. }
  assert (Hexp : Z.land (Z.shiftr t wm) (2 ^ we - 1) = 0).
  { rewrite Z.shiftr_div_pow2 by lia. rewrite Z.div_small by lia.
    apply Z.land_0_l. }
  assert (Hmant : Z.land t (2 ^ wm - 1) = t).
  { replace (2 ^ wm - 1) with (Z.ones wm)
      by (rewrite Z.ones_equiv; lia).
    rewrite Z.land_ones by lia. apply Z.mod_small. lia. }
  rewrite Hsign, Hexp, Hmant.
  assert (Hwe2 : 2 ^ 1 <= 2 ^ we) by (apply Z.pow_le_mono_r; lia).
  destruct (0 =? 2 ^ we - 1) eqn:Hz; [apply Z.eqb_eq in Hz; lia|].
  reflexivity.
Qed.

(** Floats do not cross the boundary.  With both handles good: SetFloat32
    and SetFloat64 end in the host's "unknown field kind" warning -- the
    accessor is never asked to put anything, whatever the value; and the
    host answers Float32 and Float64 with the number converted to a uint64,
    not with its bits, so that the guest, which takes the answer for bits,
    reads a field that holds a number of integer part [t] below 2^23 (2^52
    for Float64) as [t * 2^-149] ([t * 2^-1074]). *)
Theorem floats_do_not_cross_the_boundary E f data i acc d :
  asFieldAccessor (lookupHandle i (uint32 f)) = Some acc →
  asData (lookupHandle i (uint32 data)) = Some d →
  (∀ bits,
     SetFloat32 E f data bits i
     = Done ([0; uint32 data; uint32 (Kind_value Kind_Float32); uint64 bits],
             emit (Log WarnLevel "unknown field kind: %d" [AInt 10]) i)
     ∧ SetFloat64 E f data bits i
       = Done ([0; uint32 data; uint32 (Kind_value Kind_Float64); uint64 bits],
               emit (Log WarnLevel "unknown field kind: %d" [AInt 11]) i))
  ∧ (∀ m e, acc_Float E (events i) Kind_Float32 acc d = FNum m e →
       0 <= truncate m e < 2 ^ 23 →
       Float32 E f data i
       = Done (FNum (truncate m e) (-149),
               emit (Call (AccGet Kind_Float32 acc d)) i))
  ∧ (∀ m e, acc_Float E (events i) Kind_Float64 acc d = FNum m e →
       0 <= truncate m e < 2 ^ 52 →
       Float64 E f data i
       = Done (FNum (truncate m e) (-1074),
               emit (Call (AccGet Kind_Float64 acc d)) i)).
Proof.
  intros Hacc Hdata.
  unfold SetFloat32, SetFloat64, Field_set, fieldAccessorSet,
    Float32, Float64, Field_get, result0, fieldAccessorGet.
  unfold bind, peek, getHandle, gets, ret, ask, call, modify, logWarnf.
  cbn [lookup list_lookup]. rewrite !DecodeU32_uint32, Hacc.
  cbn [asFieldAccessor]. rewrite Hdata. cbn [asData].
  split; [intros bits; split; reflexivity|].
  split; intros m e Hv Ht;
    change (Kind_of_stack (uint32 (Kind_value Kind_Float32))) with (Some Kind_Float32);
    change (Kind_of_stack (uint32 (Kind_value Kind_Float64))) with (Some Kind_Float64);
    cbv iota beta; rewrite Hv; unfold uint64_of_float;
    (destruct ((0 <=? truncate m e) && (truncate m e <? U64)) eqn:Hin;
     [|apply andb_false_iff in Hin as [Hin|Hin];
       [apply Z.leb_gt in Hin; lia
       |apply Z.ltb_ge in Hin; unfold U64 in Hin; lia]]);
    cbn [poke0 ret lookup list_lookup list_insert insert].
  - unfold Float32frombits.
    replace (uint32 (truncate m e)) with (truncate m e)
      by (unfold uint32, U32; symmetry; apply Z.mod_small; lia).
    rewrite frombits_subnormal by lia. reflexivity.
  - unfold Float64frombits.
    replace (uint64 (truncate m e)) with (truncate m e)
      by (unfold uint64, U64; symmetry; apply Z.mod_small; lia).
    rewrite frombits_subnormal by lia. reflexivity.
Qed.

(** The field of [dnsWorld] holds 1.5: it is read as 2^-149, and as 2^-1074. *)
Lemma floats_do_not_cross_the_boundary_witness :
  Float32 dnsWorld 2 3 dnsInstance
  = Done (FNum 1 (-149),
          emit (Call (AccGet Kind_Float32 (mkFieldAccessor "name" 0) 9)) dnsInstance)
  ∧ Float64 dnsWorld 2 3 dnsInstance
    = Done (FNum 1 (-1074),
            emit (Call (AccGet Kind_Float64 (mkFieldAccessor "name" 0) 9)) dnsInstance).
Proof.
  pose proof (floats_do_not_cross_the_boundary dnsWorld 2 3 dnsInstance
                (mkFieldAccessor "name" 0) 9 eq_refl eq_refl) as H.
  destruct H as [_ [H32 H64]].
  split.
  - apply (H32 3 (-1)); [reflexivity|]. vm_compute. split; [discriminate|reflexivity].
  - apply (H64 3 (-1)); [reflexivity|]. vm_compute. split; [discriminate|reflexivity].
Defined.

(** *** Subscriptions *)

(** Subscribe end to end: the guest hands the host the id under which it
    has just filed the callback, so that dsCallback with that id runs it;
    the host subscribes with the guest's uint32 priority read as an int32
    -- priorities from 2^31 on arrive as negative numbers. *)
Theorem Subscribe_end_to_end {Callback} E (ds priority : Z) (cb : Callback)
    (g : subscriptions Callback) i source :
  asDataSource (lookupHandle i (uint32 ds)) = Some source →
  guest_exports_dsCallback E = true →
  0 <= priority < 2 ^ 32 →
  0 <= dsSubscriptionCtr g < 2 ^ 64 - 1 →
  let cbID := dsSubscriptionCtr g + 1 in
  let prio := if priority <? 2 ^ 31 then priority else priority - 2 ^ 32 in
  dataSourceSubscribe E (Subscribe ds cb priority g).2 i
  = Done ([0; priority; cbID], emit (Call (DsSubscribe source cbID prio)) i)
  ∧ dsCallback cbID (Subscribe ds cb priority g).1 = Some cb.
Proof.
  intros Hds Hexp Hp Hctr cbID prio.
  assert (Hid : uint64 (dsSubscriptionCtr g + 1) = cbID)
    by (unfold uint64, U64; apply Z.mod_small; lia).
  unfold Subscribe. cbn [fst snd]. rewrite Hid. split.
  - unfold dataSourceSubscribe.
    unfold bind, peek, getHandle, gets, ret, call, modify.
    cbn [lookup list_lookup]. rewrite DecodeU32_uint32, Hds.
    cbn [asDataSource]. rewrite Hexp.
    unfold DecodeI32.
    replace (uint32 priority) with priority
      by (unfold uint32, U32; symmetry; apply Z.mod_small; lia).
    reflexivity.
  - unfold dsCallback. cbn [dsSubcriptions]. apply lookup_insert_eq.
Qed.

Lemma Subscribe_end_to_end_witness :
  dataSourceSubscribe dnsWorld
    (Subscribe 1 "rewrite"%string 4294967295 noSubscriptions).2 dnsInstance
  = Done ([0; 4294967295; 1],
          emit (Call (DsSubscribe "dns" 1 (-1))) dnsInstance)
  ∧ dsCallback 1 (Subscribe 1 "rewrite"%string 4294967295 noSubscriptions).1
    = Some "rewrite"%string.
Proof.
  apply (Subscribe_end_to_end dnsWorld 1 4294967295 "rewrite"%string
           noSubscriptions dnsInstance "dns"%string).
  - reflexivity.
  - reflexivity.
  - lia.
  - simpl. lia.
Defined.

Lemma subscribeAll_spec {Callback} ds (cbs : list Callback) :
  ∀ g g' ids,
    0 <= dsSubscriptionCtr g →
    dsSubscriptionCtr g + Z.of_nat (length cbs) < 2 ^ 64 →
    subscribeAll ds cbs g = (g', ids) →
    dsSubscriptionCtr g' = dsSubscriptionCtr g + Z.of_nat (length cbs)
    ∧ ids = (λ n, dsSubscriptionCtr g + 1 + Z.of_nat n) <$> seq 0 (length cbs)
    ∧ (∀ n cb, cbs !! n = Some cb →
         dsCallback (dsSubscriptionCtr g + 1 + Z.of_nat n) g' = Some cb)
    ∧ (∀ k, k <= dsSubscriptionCtr g ∨ dsSubscriptionCtr g' < k →
         dsCallback k g' = dsCallback k g).
Proof.
  induction cbs as [|cb cbs IH]; intros g g' ids Hpos Hroom H.
  - simpl in H. inversion H; subst. simpl. rewrite Z.add_0_r.
    repeat split; try done; intros n cb Hn; by rewrite lookup_nil in Hn.
  - cbn [subscribeAll] in H. unfold Subscribe in H. cbn [length] in Hroom.
    assert (Hid : uint64 (dsSubscriptionCtr g + 1) = dsSubscriptionCtr g + 1)
      by (unfold uint64, U64; apply Z.mod_small; lia).
    rewrite Hid in H.
    destruct (subscribeAll ds cbs _) as [g2 ids2] eqn:Hrest.
    inversion H; subst g' ids. clear H.
    apply IH in Hrest as (Hctr & Hids & Hdisp & Hother);
      cbn [dsSubscriptionCtr dsSubcriptions] in *; [|lia|lia].
    split; [cbn [length]; lia|]. split; [|split].
    + cbn [length seq fmap list_fmap]. f_equal; [simpl; lia|].
      rewrite Hids, <- seq_shift, <- list_fmap_compose.
      apply list_fmap_ext. intros _ n _. simpl. lia.
    + intros [|n] cb' Hn.
      * inversion Hn; subst cb'. rewrite Z.add_0_r, Hother by lia.
        unfold dsCallback. cbn [dsSubcriptions]. apply lookup_insert_eq.
      * replace (dsSubscriptionCtr g + 1 + Z.of_nat (S n))
          with (dsSubscriptionCtr g + 1 + 1 + Z.of_nat n) by lia.
        by apply Hdisp.
    + intros k Hk. rewrite Hother by lia.
      unfold dsCallback. cbn [dsSubcriptions].
      apply lookup_insert_ne. lia.
Qed.

(** Subscriptions do not get in each other's way: after the guest has
    subscribed any number of callbacks (fewer than 2^64), the ids the host
    was given are 1, 2, ..., dsCallback with the n-th id runs the n-th
    callback, and dsCallback with any other id -- 0 included -- runs
    nothing. *)
Theorem subscriptions_dispatch {Callback} ds (cbs : list Callback) g ids :
  Z.of_nat (length cbs) < 2 ^ 64 →
  subscribeAll ds cbs noSubscriptions = (g, ids) →
  ids = (λ n, Z.of_nat (S n)) <$> seq 0 (length cbs)
  ∧ (∀ n, dsCallback (Z.of_nat (S n)) g = cbs !! n)
  ∧ (∀ k, k <= 0 ∨ Z.of_nat (length cbs) < k → dsCallback k g = None).
Proof.
  intros Hlen H.
  apply subscribeAll_spec in H as (Hctr & Hids & Hdisp & Hother);
    cbn [noSubscriptions dsSubscriptionCtr] in *; [|lia|lia].
  split; [|split].
  - rewrite Hids. apply list_fmap_ext. intros _ n _. lia.
  - intros n. destruct (cbs !! n) as [cb|] eqn:Hn.
    + apply Hdisp in Hn. by replace (Z.of_nat (S n)) with (0 + 1 + Z.of_nat n) by lia.
    + apply lookup_ge_None in Hn. rewrite Hother by lia. reflexivity.
  - intros k Hk. rewrite Hother by lia. reflexivity.
Qed.

Lemma subscriptions_dispatch_witness :
  [1; 2] = (λ n, Z.of_nat (S n)) <$> seq 0 2
  ∧ (∀ n, dsCallback (Z.of_nat (S n))
            (subscribeAll 1 ["first"; "second"]%string noSubscriptions).1
          = ["first"; "second"]%string !! n)
  ∧ (∀ k, k <= 0 ∨ Z.of_nat 2 < k →
       dsCallback k (subscribeAll 1 ["first"; "second"]%string noSubscriptions).1
       = None).
Proof.
  apply (subscriptions_dispatch 1 ["first"; "second"]%string
           (subscribeAll 1 ["first"; "second"]%string noSubscriptions).1 [1; 2]).
  - simpl. lia.
  - reflexivity.
Defined.

End GuestAPI.

(** ** The trace_dns program *)

Section TraceDnsProgram.
Import TraceDns.
Local Open Scope nat_scope.

Lemma string_append_nil_r (s : string) : (s ++ "")%string = s.
Proof.
  induction s as [|c s IH]; [reflexivity|].
  change (String c (s ++ "")%string = String c s). by rewrite IH.
Qed.

Lemma string_append_assoc (a b c : string) :
  ((a ++ b) ++ c)%string = (a ++ (b ++ c))%string.
Proof.
  induction a as [|x a IH]; [reflexivity|].
  change (String x ((a ++ b) ++ c)%string = String x (a ++ (b ++ c))%string).
  by rewrite IH.
Qed.

Lemma length_wireLabel label : length (wireLabel label) = S (length label).
Proof. reflexivity. Qed.

(** One turn of the loop over a well-formed label that is followed by at
    least one more byte. *)
Lemma decode_loop_label fuel pre label more str :
  goodLabel label →
  more ≠ [] →
  decode_loop (S fuel) (pre ++ wireLabel label ++ more) (length pre) str
  = decode_loop fuel (pre ++ wireLabel label ++ more)
      (length (pre ++ wireLabel label))
      (str ++ string_of_list_ascii label ++ ".")%string.
Proof.
  intros [Hpos Hlt] Hmore. cbn [decode_loop].
  assert (Hlen : length (pre ++ wireLabel label ++ more)
                 = length pre + S (length label) + length more)
    by (rewrite !length_app, length_wireLabel; lia).
  assert (Hm : 0 < length more) by (destruct more; [done|simpl; lia]).
  destruct (length pre <? length (pre ++ wireLabel label ++ more)) eqn:Hin;
    [|apply Nat.ltb_ge in Hin; lia].
  rewrite lookup_app_r by lia. rewrite Nat.sub_diag. cbn [wireLabel app lookup list_lookup].
  rewrite nat_ascii_embedding by lia.
  destruct (length label =? 0) eqn:Hz; [apply Nat.eqb_eq in Hz; lia|].
  destruct (length pre + 1 + length label
            <? length (pre ++ ascii_of_nat (length label) :: label ++ more)) eqn:Hfit.
  2: { apply Nat.ltb_ge in Hfit. change (ascii_of_nat (length label) :: label ++ more)
         with (wireLabel label ++ more) in Hfit. lia. }
  replace (length pre + 1) with (length (pre ++ [ascii_of_nat (length label)]))
    by (rewrite length_app; reflexivity).
  replace (pre ++ ascii_of_nat (length label) :: label ++ more)
    with ((pre ++ [ascii_of_nat (length label)]) ++ label ++ more)
    by (by rewrite <- app_assoc).
  rewrite drop_app_length, take_app_length.
  f_equal. rewrite !length_app. simpl. lia.
Qed.

Lemma decode_loop_name labels : ∀ fuel pre rest str,
  Forall goodLabel labels →
  length labels < fuel →
  decode_loop fuel (pre ++ wireName labels ++ rest) (length pre) str
  = Done (Some (str ++ dotted labels)%string).
Proof.
  induction labels as [|label labels IH]; intros fuel pre rest str Hgood Hfuel.
  - destruct fuel as [|fuel]; [simpl in Hfuel; lia|].
    cbn [decode_loop wireName wireLabels mbind list_bind app dotted].
    rewrite string_append_nil_r.
    destruct (length pre <? length (pre ++ zero :: rest)) eqn:Hin.
    + rewrite lookup_app_r by lia. rewrite Nat.sub_diag. reflexivity.
    + apply Nat.ltb_ge in Hin. rewrite length_app in Hin. simpl in Hin. lia.
  - destruct fuel as [|fuel]; [simpl in Hfuel; lia|].
    apply Forall_cons in Hgood as [Hlabel Hgood]. simpl in Hfuel.
    unfold wireName, wireLabels. cbn [mbind list_bind].
    rewrite <- !app_assoc.
    rewrite (decode_loop_label fuel pre label) by (done || by destruct labels).
    rewrite app_assoc.
    change ((labels ≫= wireLabel) ++ [zero] ++ rest)
      with (wireLabels labels ++ [zero] ++ rest).
    rewrite (app_assoc (wireLabels labels)).
    change (wireLabels labels ++ [zero]) with (wireName labels).
    rewrite IH by (done || lia).
    cbn [dotted]. by rewrite !string_append_assoc.
Qed.

(** The callback decodes DNS names as they are on the wire: a payload that
    starts with the labels of a name, each preceded by its length, and the
    closing zero byte (anything may follow) is rewritten to the labels each
    followed by a dot -- the last one too. *)
Theorem decode_wire_name labels rest :
  Forall goodLabel labels →
  decode (wireName labels ++ rest) = Done (Some (dotted labels)).
Proof.
  intros Hgood. unfold decode.
  apply (decode_loop_name labels _ [] rest EmptyString Hgood).
  unfold wireName, wireLabels. rewrite !length_app. simpl.
  assert (length labels ≤ length (labels ≫= wireLabel)); [|lia].
  clear rest. induction Hgood as [|label labels Hlabel _ IH]; [done|].
  cbn [mbind list_bind length]. rewrite length_app, length_wireLabel. lia.
Qed.

Lemma decode_wire_name_witness :
  decode (wireName igLabels ++ list_ascii_of_string "rest")
  = Done (Some "inspektor-gadget.io."%string).
Proof.
  apply (decode_wire_name igLabels (list_ascii_of_string "rest")).
  repeat constructor; simpl; lia.
Defined.

Lemma decode_loop_truncated n tail labels : ∀ fuel pre str,
  0 < n < 256 →
  length tail ≤ n →
  Forall goodLabel labels →
  length labels < fuel →
  decode_loop fuel (pre ++ wireLabels labels ++ ascii_of_nat n :: tail)
    (length pre) str
  = Done None.
Proof.
  induction labels as [|label labels IH]; intros fuel pre str Hn Htail Hgood Hfuel.
  - destruct fuel as [|fuel]; [simpl in Hfuel; lia|].
    cbn [decode_loop wireLabels mbind list_bind app].
    assert (Hlen : length (pre ++ ascii_of_nat n :: tail)
                   = length pre + S (length tail))
      by (by rewrite length_app).
    destruct (length pre <? length (pre ++ ascii_of_nat n :: tail)) eqn:Hin;
      [|apply Nat.ltb_ge in Hin; lia].
    rewrite lookup_app_r by lia. rewrite Nat.sub_diag. cbn [lookup list_lookup].
    rewrite nat_ascii_embedding by lia.
    destruct (n =? 0) eqn:Hz; [apply Nat.eqb_eq in Hz; lia|].
    destruct (length pre + 1 + n <? length (pre ++ ascii_of_nat n :: tail)) eqn:Hfit;
      [apply Nat.ltb_lt in Hfit; lia|reflexivity].
  - destruct fuel as [|fuel]; [simpl in Hfuel; lia|].
    apply Forall_cons in Hgood as [Hlabel Hgood]. simpl in Hfuel.
    unfold wireLabels. cbn [mbind list_bind]. rewrite <- !app_assoc.
    rewrite (decode_loop_label fuel pre label)
      by (done || by destruct (labels ≫= wireLabel)).
    rewrite app_assoc.
    change (labels ≫= wireLabel) with (wireLabels labels).
    apply IH; (done || lia).
Qed.

(** A name that is cut short is left alone: when, after any number of
    complete labels, a length byte announces more bytes than follow -- or
    exactly as many, so that the closing zero byte is missing -- the
    callback reports "invalid payload" and does not rewrite the field. *)
Theorem decode_truncated_name labels n tail :
  0 < n < 256 →
  length tail ≤ n →
  Forall goodLabel labels →
  decode (wireLabels labels ++ ascii_of_nat n :: tail) = Done None.
Proof.
  intros Hn Htail Hgood. unfold decode.
  apply (decode_loop_truncated n tail labels _ [] EmptyString); try done.
  rewrite !length_app. simpl.
  assert (length labels ≤ length (wireLabels labels)); [|lia].
  unfold wireLabels. clear Htail. induction Hgood as [|label labels Hlabel _ IH]; [done|].
  cbn [mbind list_bind length]. rewrite length_app, length_wireLabel. lia.
Qed.

Lemma decode_truncated_name_witness :
  decode (wireLabels [list_ascii_of_string "inspektor-gadget"]
          ++ ascii_of_nat 2 :: list_ascii_of_string "io")
  = Done None.
Proof.
  apply (decode_truncated_name [list_ascii_of_string "inspektor-gadget"] 2
           (list_ascii_of_string "io")).
  - lia.
  - simpl. lia.
  - repeat constructor; simpl; lia.
Defined.

(** An empty payload, or one that starts with a zero byte, is rewritten to
    the empty string. *)
Example decode_empty :
  decode [] = Done (Some EmptyString)
  ∧ decode (zero :: list_ascii_of_string "junk") = Done (Some EmptyString).
Proof. split; reflexivity. Qed.

End TraceDnsProgram.

(** ** More about the OCI handler *)

Section OciHandlerMore.
Import OciHandler OciMore.

Ltac in_events :=
  simpl; rewrite ?elem_of_app, ?elem_of_cons, ?list_elem_of_singleton; auto 8.



Example Stop_twoInstances :
  Stop twoInstances
  = (None,
     mkOciHandlerInstance (imageOperatorInstances twoInstances) []
       [ Stopped "wasm"; Stopped "ebpf";
         Errorf "starting operator %q: %v" ["ebpf"; "detaching"] ]%string).
Proof. reflexivity. Qed.

Lemma init_layers_prepares_nothing registry layers : ∀ o,
  preparedNames (events (init_layers registry layers o)) = preparedNames (events o)
  ∧ extraParams (init_layers registry layers o) = extraParams o.
Proof.
  induction layers as [|layer layers IH]; intros o; [done|].
  cbn [init_layers].
  destruct (registry !! MediaType layer) as [op|].
  - destruct (InstantiateImageOperator op layer) as [[opInst|] [err|]];
      (split; [rewrite (proj1 (IH _))|rewrite (proj2 (IH _))]);
      cbn [events emit append_instance extraParams]; try reflexivity;
      unfold preparedNames; rewrite !omap_app; simpl;
      by rewrite ?app_nil_r.
  - split; [rewrite (proj1 (IH _))|rewrite (proj2 (IH _))]; [|reflexivity].
    simpl. unfold preparedNames. rewrite omap_app. simpl. by rewrite app_nil_r.
Qed.

Lemma init_prepare_names insts : ∀ extra o,
  preparedNames (events (init_prepare insts extra o).2)
  = preparedNames (events o) ++ (instName <$> insts).
Proof.
  induction insts as [|x insts IH]; intros extra o; simpl.
  - by rewrite app_nil_r.
  - destruct (instPrepare x) as [err|]; rewrite IH; simpl;
      unfold preparedNames; rewrite !omap_app; simpl;
      by rewrite ?app_nil_r, <- app_assoc.
Qed.

Lemma init_cases registry env o err o' :
  init registry env o = (err, o') →
  (o' = o ∧ err ≠ None)
  ∨ ∃ manifest, init_manifest registry manifest o = (err, o').
Proof.
  unfold init. intros H.
  destruct (String.length (ImageName env) =? 0)%nat;
    [inversion H; by left|].
  destruct (if String.eqb (pullSecretString env) "" then Ok ""%string
            else getPullSecret env) as [secretBytes|e];
    [|inversion H; by left].
  destruct (EnsureImage env); [inversion H; by left|].
  destruct (GetManifestForHost env) as [manifest|e]; [|inversion H; by left].
  destruct (GetContentFromDescriptor env); [inversion H; by left|].
  destruct (ReadAll env); [|inversion H; by left].
  destruct (ReadConfig env); [inversion H; by left|].
  right. by exists manifest.
Qed.

(** init prepares all or nothing: when it returns nil every instance of the
    handler has been asked to prepare exactly once, in the order of the
    list, and the handler's extra parameters are those of the instances
    whose Prepare succeeded; when it returns an error -- whichever step
    failed -- no instance has been asked to prepare and the extra
    parameters are untouched. *)
Theorem init_prepares_all_or_nothing registry env o err o' :
  init registry env o = (err, o') →
  (err = None →
     preparedNames (events o')
     = preparedNames (events o) ++ (instName <$> imageOperatorInstances o')
     ∧ extraParams o' = preparedParams (imageOperatorInstances o'))
  ∧ (err ≠ None →
     preparedNames (events o') = preparedNames (events o)
     ∧ extraParams o' = extraParams o).
Proof.
  intros H. apply init_cases in H as [[-> Herr]|[manifest Hm]]; [done|].
  rewrite init_manifest_unfold in Hm. cbv zeta in Hm.
  destruct (init_layers_prepares_nothing registry (Layers manifest) o)
    as [Hnone Hextra].
  destruct (imageOperatorInstances (init_layers registry (Layers manifest) o))
    as [|x insts] eqn:Hl.
  - injection Hm as <- <-. split; [done|]. by intros _.
  - destruct (init_prepare_keeps_instances (x :: insts) []
                (init_layers registry (Layers manifest) o)) as [Hi Hp].
    pose proof (init_prepare_names (x :: insts) []
                  (init_layers registry (Layers manifest) o)) as Hn.
    set (r := init_prepare (x :: insts) []
                (init_layers registry (Layers manifest) o)) in *.
    clearbody r. injection Hm as <- <-. split; [|done]. intros _.
    unfold set_extraParams. cbn [events extraParams imageOperatorInstances].
    by rewrite Hn, Hp, Hi, Hnone, Hl.
Qed.

Lemma init_prepares_all_or_nothing_witness :
  ∃ o', init someRegistry (imageOf bothLayers) (mkOciHandlerInstance [] [] [])
        = (None, o')
    ∧ ((None : option error) = None →
         preparedNames (events o')
         = preparedNames [] ++ (instName <$> imageOperatorInstances o')
         ∧ extraParams o' = preparedParams (imageOperatorInstances o'))
    ∧ ((None : option error) ≠ None →
         preparedNames (events o') = preparedNames []
         ∧ extraParams o' = extraParams (mkOciHandlerInstance [] [] [])).
Proof.
  eexists. split; [reflexivity|].
  eapply (init_prepares_all_or_nothing someRegistry (imageOf bothLayers)
            (mkOciHandlerInstance [] [] [])).
  reflexivity.
Defined.

(** The eBPF instance fails to prepare: it is asked all the same, and only
    the parameter of the wasm instance is published. *)
Example init_bothLayers :
  ∃ o', init someRegistry (imageOf bothLayers) (mkOciHandlerInstance [] [] [])
        = (None, o')
    ∧ preparedNames (events o') = ["wasm"; "ebpf"]%string
    ∧ extraParams o' = ["wasm.allow-host-fs"%string].
Proof. eexists. repeat split; reflexivity. Qed.

End OciHandlerMore.


(** ** The validators of the metadata sections *)

Section MetadataValidators.
Import Metadata Ebpf MetadataMore.

Lemma foldl_appends {A E} (step : list E → A → list E) (g : A → list E) :
  (∀ r x, step r x = r ++ g x) →
  ∀ l init, foldl step init l = init ++ foldl step [] l.
Proof.
  intros Hstep l. induction l as [|x l IH]; intros init; simpl.
  - by rewrite app_nil_r.
  - rewrite (IH (step init x)), (IH (step [] x)), !Hstep. simpl.
    by rewrite app_assoc.
Qed.

Lemma foldl_appends_nil {A E} (step : list E → A → list E) (g : A → list E) :
  (∀ r x, step r x = r ++ g x) →
  ∀ l init, foldl step init l = [] ↔ init = [] ∧ Forall (λ x, g x = []) l.
Proof.
  intros Hstep l. induction l as [|x l IH]; intros init; simpl.
  - rewrite Forall_nil. tauto.
  - rewrite IH, Hstep, Forall_cons. split.
    + intros [Happ Hl]. apply app_eq_nil in Happ as [-> Hg]. auto.
    + intros [-> [Hg Hl]]. rewrite Hg. auto.
Qed.

Lemma Forall_range {A} (P : string → A → Prop) (m : gmap string A) :
  Forall (λ '(k, v), P k v) (range m) ↔ ∀ k v, m !! k = Some v → P k v.
Proof.
  unfold range. rewrite Forall_forall. split.
  - intros H k v Hk. apply (H (k, v)). by apply elem_of_map_to_list.
  - intros H [k v] Hin. apply H. by apply elem_of_map_to_list.
Qed.

Lemma only_one_nil {E} (n : nat) (e : E) :
  (if (1 <? n)%nat then [e] else []) = [] ↔ (n ≤ 1)%nat.
Proof.
  destruct (1 <? n)%nat eqn:Hn.
  - apply Nat.ltb_lt in Hn. split; [done | lia].
  - apply Nat.ltb_ge in Hn. tauto.
Qed.

Lemma eqb_empty (s : string) : String.eqb s "" = false ↔ s ≠ "".
Proof. apply String.eqb_neq. Qed.

(** validateMapAndStruct returns nil exactly when the map is named, is in
    the eBPF object and passes [validateMap], and the struct is named and
    described in the metadata. *)
Lemma validateMapAndStruct_nil mapName structName spec m validateMap :
  validateMapAndStruct mapName structName spec m validateMap = [] ↔
  mapName ≠ "" ∧ structName ≠ "" ∧ is_Some (Structs m !! structName) ∧
  ∃ ebpfMap, Maps spec !! mapName = Some ebpfMap ∧
             validateMap ebpfMap structName = None.
Proof.
  unfold validateMapAndStruct.
  destruct (String.eqb mapName "") eqn:Hmap.
  { apply String.eqb_eq in Hmap. split.
    - intros H. exfalso.
      destruct (String.eqb structName ""); [discriminate|].
      destruct (Structs m !! structName); discriminate.
    - intros [? _]. done. }
  apply eqb_empty in Hmap.
  destruct (Maps spec !! mapName) as [ebpfMap|] eqn:Hlook.
  2: { split; [discriminate|]. intros (_ & _ & _ & ? & ? & _). done. }
  destruct (validateMap ebpfMap structName) as [err|] eqn:Hval; simpl.
  { split.
    - intros H. exfalso.
      destruct (String.eqb structName ""); [discriminate|].
      destruct (Structs m !! structName); discriminate.
    - intros (_ & _ & _ & ? & [= <-] & ?). congruence. }
  destruct (String.eqb structName "") eqn:Hs.
  { apply String.eqb_eq in Hs. split; [discriminate|]. intros (_ & ? & _). done. }
  apply eqb_empty in Hs.
  destruct (Structs m !! structName) as [st|] eqn:Hst.
  - split; [|done]. intros _. repeat split; eauto.
  - split; [discriminate|]. intros (_ & _ & [? ?] & _). done.
Qed.

(** A tracer (topper, profiler) whose map is not in the eBPF object is
    reported by that one error alone: its struct is not looked at. *)
Lemma validateMapAndStruct_unknown_map mapName structName spec m validateMap :
  mapName ≠ "" → Maps spec !! mapName = None →
  validateMapAndStruct mapName structName spec m validateMap =
    [Errorf "map %q not found in eBPF object" [mapName] []].
Proof.
  intros Hnamed Hmissing. unfold validateMapAndStruct.
  apply eqb_empty in Hnamed. by rewrite Hnamed, Hmissing.
Qed.

Lemma validateTracers_range spec m :
  validateTracers spec m = [] ↔
  (size (Tracers (core m)) ≤ 1)%nat ∧
  Forall (λ '(_, t), tracerAccepted spec m t) (range (Tracers (core m))).
Proof.
  unfold validateTracers.
  rewrite (foldl_appends_nil _
    (λ '(name, t),
       match validateMapAndStruct (TracerMapName t) (TracerStructName t)
               spec m validateTracerMap with
       | [] => []
       | err => [Errorf "validating tracer %q: %w" [name] err]
       end)).
  2: { intros r [name t].
       destruct (validateMapAndStruct _ _ _ _ _); [by rewrite app_nil_r | done]. }
  rewrite only_one_nil.
  apply and_iff_compat_l, Forall_iff. intros [name t].
  transitivity (validateMapAndStruct (TracerMapName t) (TracerStructName t)
                  spec m validateTracerMap = []).
  { destruct (validateMapAndStruct _ _ _ _ _); [tauto | split; discriminate]. }
  rewrite validateMapAndStruct_nil. unfold tracerAccepted, validateTracerMap.
  repeat apply and_iff_compat_l. split.
  - intros (ebpfMap & Hm & Hv). exists ebpfMap. split; [done|].
    destruct (Type_ ebpfMap); (discriminate || auto).
  - intros (ebpfMap & Hm & [Hv|Hv]); exists ebpfMap; rewrite Hv; auto.
Qed.

(** validateTracers returns nil exactly when there is at most one
    tracer and every tracer names a ring buffer or perf event array of the
    eBPF object and a struct described in the metadata. *)
Theorem validateTracers_accepts_iff spec m :
  validateTracers spec m = [] ↔
  (size (Tracers (core m)) ≤ 1)%nat ∧
  ∀ name t, Tracers (core m) !! name = Some t → tracerAccepted spec m t.
Proof.
  rewrite validateTracers_range.
  apply and_iff_compat_l.
  apply (Forall_range (λ _ t, tracerAccepted spec m t)).
Qed.


Lemma validateToppers_range spec m :
  validateToppers spec m = [] ↔
  (size (Toppers (core m)) ≤ 1)%nat ∧
  Forall (λ '(_, t), topperAccepted spec m t) (range (Toppers (core m))).
Proof.
  unfold validateToppers.
  rewrite (foldl_appends_nil _
    (λ '(name, t),
       match validateMapAndStruct (TopperMapName t) (TopperStructName t)
               spec m validateTopperMap with
       | [] => []
       | err => [Errorf "validating topper %q: %w" [name] err]
       end)).
  2: { intros r [name t].
       destruct (validateMapAndStruct _ _ _ _ _); [by rewrite app_nil_r | done]. }
  rewrite only_one_nil.
  apply and_iff_compat_l, Forall_iff. intros [name t].
  transitivity (validateMapAndStruct (TopperMapName t) (TopperStructName t)
                  spec m validateTopperMap = []).
  { destruct (validateMapAndStruct _ _ _ _ _); [tauto | split; discriminate]. }
  rewrite validateMapAndStruct_nil. unfold topperAccepted, validateTopperMap.
  split.
  - intros (Hmap & Hs & Hst & ebpfMap & Hm & Hv).
    repeat (split; [done|]). exists ebpfMap.
    apply eqb_empty in Hs.
    destruct (Type_ ebpfMap) eqn:Ht; try discriminate.
    destruct (Value ebpfMap) as [[]|] eqn:Hval; try discriminate.
    rewrite Hs in Hv. simpl in Hv.
    destruct (String.eqb name0 (TopperStructName t)) eqn:Hn; [|discriminate].
    apply String.eqb_eq in Hn. subst. eauto.
  - intros (Hmap & Hs & Hst & ebpfMap & members & Hm & Ht & Hv).
    repeat (split; [done|]). exists ebpfMap. split; [done|].
    rewrite Ht, Hv, String.eqb_refl. by rewrite andb_false_r.
Qed.

(** validateToppers returns nil exactly when there is at most one
    topper and every topper names a hash map of the eBPF object whose value
    is the struct of the topper's structName, described in the metadata. *)
Theorem validateToppers_accepts_iff spec m :
  validateToppers spec m = [] ↔
  (size (Toppers (core m)) ≤ 1)%nat ∧
  ∀ name t, Toppers (core m) !! name = Some t → topperAccepted spec m t.
Proof.
  rewrite validateToppers_range.
  apply and_iff_compat_l.
  apply (Forall_range (λ _ t, topperAccepted spec m t)).
Qed.

(** validateProfilers returns nil exactly when there is at most one
    profiler and every profiler names a hash map of the eBPF object and a
    key struct and a value struct described in the metadata. *)
Theorem validateProfilers_accepts_iff spec m :
  validateProfilers spec m = [] ↔
  (size (Profilers (core m)) ≤ 1)%nat ∧
  ∀ name p, Profilers (core m) !! name = Some p → profilerAccepted spec m p.
Proof.
  unfold validateProfilers.
  rewrite (foldl_appends_nil _
    (λ '(name, profiler),
       (if String.eqb (StructKeyName profiler) ""
        then [Errorf "profiler %q is missing structKeyName" [name] []] else []) ++
       match Structs m !! StructKeyName profiler with
       | None => [Errorf "profiler %q references unknown key struct %q"
                    [name; StructKeyName profiler] []]
       | Some _ => []
       end ++
       match validateMapAndStruct (ProfilerMapName profiler)
               (StructValueName profiler) spec m validateProfilerMap with
       | [] => []
       | err => [Errorf "validating profiler %q: %w" [name] err]
       end)).
  2: { intros r [name p].
       destruct (String.eqb (StructKeyName p) ""),
         (Structs m !! StructKeyName p), (validateMapAndStruct _ _ _ _ _);
         simpl; rewrite <- ?app_assoc, ?app_nil_r; reflexivity. }
  rewrite only_one_nil.
  rewrite <- (Forall_range (λ _ p, profilerAccepted spec m p)).
  apply and_iff_compat_l, Forall_iff. intros [name p].
  transitivity (String.eqb (StructKeyName p) "" = false ∧
                is_Some (Structs m !! StructKeyName p) ∧
                validateMapAndStruct (ProfilerMapName p) (StructValueName p)
                  spec m validateProfilerMap = []).
  { destruct (String.eqb (StructKeyName p) ""),
      (Structs m !! StructKeyName p), (validateMapAndStruct _ _ _ _ _);
      simpl; (split; [try discriminate; eauto | ]);
      try done; intros (? & [? ?] & ?); done. }
  rewrite validateMapAndStruct_nil, eqb_empty.
  unfold profilerAccepted, validateProfilerMap.
  repeat apply and_iff_compat_l. split.
  - intros (ebpfMap & Hm & Hv). exists ebpfMap. split; [done|].
    destruct (Type_ ebpfMap); (discriminate || auto).
  - intros (ebpfMap & Hm & Hv). exists ebpfMap. by rewrite Hv.
Qed.

Lemma validateSnapshotters_range spec m :
  validateSnapshotters spec m = [] ↔
  (size (Snapshotters (core m)) ≤ 1)%nat ∧
  Forall (λ '(_, s), SnapshotterStructName s ≠ "" ∧
                     is_Some (Structs m !! SnapshotterStructName s))
    (range (Snapshotters (core m))).
Proof.
  unfold validateSnapshotters.
  rewrite (foldl_appends_nil _
    (λ '(name, snapshotter),
       if String.eqb (SnapshotterStructName snapshotter) "" then
         [Errorf "snapshotter %q is missing structName" [name] []]
       else
         match Structs m !! SnapshotterStructName snapshotter with
         | None => [Errorf "snapshotter %q references unknown struct %q"
                      [name; SnapshotterStructName snapshotter] []]
         | Some _ => []
         end)).
  2: { intros r [name s].
       destruct (String.eqb (SnapshotterStructName s) ""); [done|].
       destruct (Structs m !! SnapshotterStructName s); [by rewrite app_nil_r | done]. }
  rewrite only_one_nil.
  apply and_iff_compat_l, Forall_iff. intros [name s].
  rewrite <- eqb_empty.
  destruct (String.eqb (SnapshotterStructName s) "").
  { split; [discriminate | intros [? _]; done]. }
  destruct (Structs m !! SnapshotterStructName s).
  - split; eauto.
  - split; [discriminate | intros [_ [? ?]]; done].
Qed.

(** validateSnapshotters returns nil exactly when there is at most
    one snapshotter and every snapshotter names a struct described in the
    metadata. *)
Theorem validateSnapshotters_accepts_iff spec m :
  validateSnapshotters spec m = [] ↔
  (size (Snapshotters (core m)) ≤ 1)%nat ∧
  ∀ name s, Snapshotters (core m) !! name = Some s →
    SnapshotterStructName s ≠ "" ∧ is_Some (Structs m !! SnapshotterStructName s).
Proof.
  rewrite validateSnapshotters_range.
  apply and_iff_compat_l.
  apply (Forall_range (λ _ s, SnapshotterStructName s ≠ "" ∧
                              is_Some (Structs m !! SnapshotterStructName s))).
Qed.


Lemma foldl_insert_is_Some {A V} (key : A → string) (val : A → V) (l : list A)
    (init : gmap string V) (k : string) :
  is_Some (foldl (λ fields x, <[key x := val x]> fields) init l !! k) ↔
  is_Some (init !! k) ∨ k ∈ key <$> l.
Proof.
  revert init. induction l as [|x l IH]; intros init; simpl.
  - rewrite elem_of_nil. tauto.
  - rewrite IH, elem_of_cons, lookup_insert_is_Some.
    destruct (decide (key x = k)); intuition congruence.
Qed.

Lemma foldl_ext' {A B} (f g : B → A → B) (l : list A) (init : B) :
  (∀ b a, f b a = g b a) → foldl f init l = foldl g init l.
Proof.
  intros Hfg. revert init. induction l as [|x l IH]; intros init; simpl; [done|].
  by rewrite Hfg, IH.
Qed.

Lemma members_lookup (members : list (string * btfType)) (k : string) :
  is_Some (foldl (λ fields '(n, t), <[n := t]> fields) (∅ : gmap string btfType)
             members !! k) ↔ k ∈ fst <$> members.
Proof.
  replace (foldl (λ fields '(n, t), <[n := t]> fields) ∅ members)
    with (foldl (λ fields x, <[fst x := snd x]> fields)
            (∅ : gmap string btfType) members)
    by (apply foldl_ext'; by intros ? []).
  rewrite foldl_insert_is_Some, lookup_empty.
  split; [intros [[? ?]|?]; done | auto].
Qed.

Lemma fields_lookup (fields : list Field) (k : string) :
  is_Some (foldl (λ fields f, <[FieldName f := f]> fields) (∅ : gmap string Field)
             fields !! k) ↔ k ∈ FieldName <$> fields.
Proof.
  rewrite (foldl_insert_is_Some FieldName id), lookup_empty.
  split; [intros [[? ?]|?]; done | auto].
Qed.

(** validateStructs returns nil exactly when every struct described
    in the metadata is a struct of the eBPF object and every field described
    for it is the name of one of its members. *)
Theorem validateStructs_accepts_iff spec m :
  validateStructs spec m = [] ↔
  ∀ name mapStruct, Structs m !! name = Some mapStruct →
    ∃ btfStruct, StructByName spec name = Ok btfStruct ∧
      ∀ f, f ∈ Fields mapStruct → FieldName f ∈ fst <$> Members btfStruct.
Proof.
  unfold validateStructs.
  set (notFound := λ (name : string) (btfStruct : btfStruct) '((fieldName, _) : string * Field),
    match foldl (λ fields '(n, t), <[n := t]> fields) (∅ : gmap string btfType)
            (Members btfStruct) !! fieldName with
    | None => [Errorf "field %q not found in eBPF struct %q" [fieldName; name] []]
    | Some _ => []
    end).
  assert (Hinner : ∀ name btfStruct r (x : string * Field),
    (let '(fieldName, _) := x in
     match foldl (λ fields '(n, t), <[n := t]> fields) (∅ : gmap string btfType)
             (Members btfStruct) !! fieldName with
     | None => r ++ [Errorf "field %q not found in eBPF struct %q" [fieldName; name] []]
     | Some _ => r
     end) = r ++ notFound name btfStruct x).
  { intros name btfStruct r [fieldName f]. unfold notFound.
    destruct (_ !! fieldName); [by rewrite app_nil_r | done]. }
  rewrite (foldl_appends_nil _
    (λ '(name, mapStruct),
       match StructByName spec name with
       | Err err => [Errorf "looking for struct %q in eBPF object: %w" [name]
                       [Errorf err [] []]]
       | Ok btfStruct =>
           foldl (λ result x, result ++ notFound name btfStruct x) []
             (range (foldl (λ fields f, <[FieldName f := f]> fields)
                       (∅ : gmap string Field) (Fields mapStruct)))
       end)).
  2: { intros r [name mapStruct].
       destruct (StructByName spec name) as [btfStruct|]; [|done].
       rewrite (foldl_appends _ (notFound name btfStruct)) by apply Hinner.
       f_equal. apply foldl_ext'. intros. apply Hinner. }
  rewrite <- (Forall_range (λ name mapStruct,
    ∃ btfStruct, StructByName spec name = Ok btfStruct ∧
      ∀ f, f ∈ Fields mapStruct → FieldName f ∈ fst <$> Members btfStruct)).
  transitivity (Forall (λ x : string * Struct,
    (let '(name, mapStruct) := x in
     match StructByName spec name with
     | Err err => [Errorf "looking for struct %q in eBPF object: %w" [name]
                     [Errorf err [] []]]
     | Ok btfStruct =>
         foldl (λ result x, result ++ notFound name btfStruct x) []
           (range (foldl (λ fields f, <[FieldName f := f]> fields)
                     (∅ : gmap string Field) (Fields mapStruct)))
     end) = []) (range (Structs m))); [tauto|].
  apply Forall_iff. intros [name mapStruct].
  destruct (StructByName spec name) as [btfStruct|err].
  2: { split; [discriminate | intros (? & ? & _); discriminate]. }
  rewrite (foldl_appends_nil _ (notFound name btfStruct)) by done.
  rewrite Forall_forall. unfold range.
  split.
  - intros [_ Hall]. exists btfStruct. split; [done|]. intros f Hf.
    destruct (proj2 (fields_lookup (Fields mapStruct) (FieldName f))) as [f' Hf'].
    { apply list_elem_of_fmap. eauto. }
    apply elem_of_map_to_list, Hall in Hf'. unfold notFound in Hf'.
    apply members_lookup.
    destruct (foldl _ ∅ (Members btfStruct) !! FieldName f); [eauto | discriminate].
  - intros (? & [= <-] & Hfields). split; [done|].
    intros [fieldName f'] Hf'. apply elem_of_map_to_list in Hf'.
    assert (Hin : fieldName ∈ FieldName <$> Fields mapStruct).
    { apply fields_lookup. by eexists. }
    apply list_elem_of_fmap in Hin as (f & -> & Hf).
    apply Hfields, members_lookup in Hf as [b Hb].
    unfold notFound. by rewrite Hb.
Qed.


Lemma hasSchedCLS_range spec :
  hasSchedCLS spec ↔ Exists (λ '(_, p), p = SchedCLS) (range (Programs spec)).
Proof.
  unfold hasSchedCLS, range. rewrite Exists_exists. split.
  - intros [name H]. exists (name, SchedCLS). split; [|done].
    by apply elem_of_map_to_list.
  - intros ([name p] & Hin & ->). exists name. by apply elem_of_map_to_list.
Qed.

Lemma validateGadgetParams_range spec m :
  validateGadgetParams spec m = [] ↔
  (Exists (λ '(_, p), p = SchedCLS) (range (Programs spec)) →
   is_Some (GadgetParams m !! IfaceParam)).
Proof.
  unfold validateGadgetParams.
  set (g := λ '((_, p) : string * ProgramType),
    match p with
    | SchedCLS =>
        if (size (GadgetParams m) =? 0)%nat then
          [Errorf "there aren't gadget parameters" [] []]
        else match GadgetParams m !! IfaceParam with
             | None => [Errorf "iface param not found" [] []]
             | Some _ => []
             end
    | _ => []
    end).
  rewrite (foldl_appends_nil _ g).
  2: { intros r [name []]; simpl; rewrite ?app_nil_r; try done.
       destruct (size (GadgetParams m) =? 0)%nat; [done|].
       destruct (GadgetParams m !! IfaceParam); [by rewrite app_nil_r | done]. }
  rewrite Forall_forall, Exists_exists. split.
  - intros [_ Hall] ([name p] & Hin & ->). specialize (Hall _ Hin). simpl in Hall.
    destruct (size (GadgetParams m) =? 0)%nat; [discriminate|].
    destruct (GadgetParams m !! IfaceParam); [eauto | discriminate].
  - intros H. split; [done|]. intros [name p] Hin. destruct p; [|done]. simpl.
    destruct H as [d Hd]; [by exists (name, SchedCLS)|].
    destruct (size (GadgetParams m) =? 0)%nat eqn:Hsize.
    + apply Nat.eqb_eq, map_size_empty_iff in Hsize.
      rewrite Hsize, lookup_empty in Hd. discriminate.
    + by rewrite Hd.
Qed.

(** validateGadgetParams returns nil exactly when the eBPF object has
    no networking program or the metadata has the [iface] parameter. *)
Theorem validateGadgetParams_accepts_iff spec m :
  validateGadgetParams spec m = [] ↔
  (hasSchedCLS spec → is_Some (GadgetParams m !! IfaceParam)).
Proof.
  rewrite validateGadgetParams_range.
  split; intros H Hnet; apply H; by apply hasSchedCLS_range.
Qed.

Lemma SchedCLS_dec (l : list (string * ProgramType)) :
  Exists (λ '(_, p), p = SchedCLS) l ∨ ¬ Exists (λ '(_, p), p = SchedCLS) l.
Proof.
  induction l as [|[name p] l IH]; [right; by intros ?%Exists_nil|].
  destruct p; [left; by left|].
  destruct IH as [IH|IH]; [left; by right|].
  right. rewrite Exists_cons. intros [|]; done.
Qed.

Lemma populateGadgetParams_fold (l : list (string * ProgramType)) m :
  let m' := foldl (λ m '(_, p),
                     match p with
                     | SchedCLS =>
                         set_GadgetParams
                           (<[IfaceParam := mkParamDesc IfaceParam
                                              "Network interface to attach to"]>
                              (GadgetParams m)) m
                     | _ => m
                     end) m l in
  (Exists (λ '(_, p), p = SchedCLS) l →
   m' = set_GadgetParams
          (<[IfaceParam := mkParamDesc IfaceParam "Network interface to attach to"]>
             (GadgetParams m)) m) ∧
  (¬ Exists (λ '(_, p), p = SchedCLS) l → m' = m).
Proof.
  revert m. induction l as [|[name p] l IH]; intros m; simpl.
  - split; [by intros ?%Exists_nil | done].
  - rewrite Exists_cons. destruct p.
    + split; [intros _ | intros []; auto].
      destruct (SchedCLS_dec l) as [Hl|Hl].
      * rewrite (proj1 (IH _) Hl). unfold set_GadgetParams. simpl.
        by rewrite insert_insert_eq.
      * by rewrite (proj2 (IH _) Hl).
    + destruct (IH m) as [IH1 IH2].
      split; [intros [|]; [done | auto] | intros H; apply IH2; tauto].
Qed.

(** populateGadgetParams leaves the metadata as they are when the
    eBPF object has no networking program; otherwise it sets the [iface]
    parameter and nothing else.  Either way validateGadgetParams accepts the
    result. *)
Theorem populateGadgetParams_validates spec m :
  validateGadgetParams spec (populateGadgetParams spec m) = [] ∧
  (¬ hasSchedCLS spec → populateGadgetParams spec m = m) ∧
  (hasSchedCLS spec →
   populateGadgetParams spec m =
     set_GadgetParams
       (<[IfaceParam := mkParamDesc IfaceParam "Network interface to attach to"]>
          (GadgetParams m)) m).
Proof.
  destruct (populateGadgetParams_fold (range (Programs spec)) m) as [Hyes Hno].
  rewrite <- hasSchedCLS_range in Hyes, Hno. cbv zeta in Hyes, Hno.
  fold (populateGadgetParams spec m) in Hyes, Hno.
  split; [|split; assumption].
  apply validateGadgetParams_range. intros Hnet%hasSchedCLS_range.
  rewrite (Hyes Hnet). simpl. rewrite lookup_insert_eq. eauto.
Qed.


End MetadataValidators.

(** ** The populator of the metadata *)

Section MetadataPopulate.
Import Metadata Ebpf MetadataMore.
Context (columns : Columns).

Lemma getUnderlyingType_not_typedef (typ : btfType) :
  ∀ name typ', getUnderlyingType typ ≠ Typedef name typ'.
Proof.
  induction typ; intros name' typ'; simpl; try discriminate. apply IHtyp.
Qed.

Lemma getColumnSize_not_typedef (fuel : nat) (typ : btfType) :
  (∀ name typ', typ ≠ Typedef name typ') →
  ∃ width, ∀ fuel, getColumnSize columns (S fuel) typ = Done width.
Proof.
  intros Hnot. destruct typ; simpl; eauto.
  - destruct encoding; eauto;
      destruct (size =? 1), (size =? 2), (size =? 4), (size =? 8); eauto.
  - by destruct (Hnot name typ).
Qed.

(** getColumnSize gives a typedef the width of the type the chain of
    typedefs ends in, however long the chain, and needs one call of itself
    for that. *)
Theorem getColumnSize_through_typedefs (fuel : nat) (name : string) (typ : btfType) :
  ∃ width,
    getColumnSize columns (S (S fuel)) (Typedef name typ) = Done width ∧
    getColumnSize columns (S (S fuel)) (getUnderlyingType typ) = Done width.
Proof.
  destruct (getColumnSize_not_typedef fuel (getUnderlyingType typ)) as [width Hw].
  { apply getUnderlyingType_not_typedef. }
  exists width. split; [|apply Hw].
  change (getColumnSize columns (S (S fuel)) (Typedef name typ))
    with (getColumnSize columns (S fuel) (getUnderlyingType typ)).
  apply Hw.
Qed.

Lemma getColumnSize_returns (fuel : nat) (typ : btfType) :
  ∃ width, getColumnSize columns (S (S fuel)) typ = Done width.
Proof.
  destruct typ; try (simpl; eauto; fail).
  - simpl. destruct encoding; eauto;
      destruct (size =? 1), (size =? 2), (size =? 4), (size =? 8); eauto.
  - destruct (getColumnSize_not_typedef fuel (getUnderlyingType typ)) as [width Hw].
    { apply getUnderlyingType_not_typedef. }
    exists width. apply (Hw fuel).
Qed.

Lemma existingFields_spec (fields : list Field) (init : gset string) (name : string) :
  name ∈ foldl (λ names field, {[ FieldName field ]} ∪ names) init fields ↔
  name ∈ init ∨ name ∈ FieldName <$> fields.
Proof.
  revert init. induction fields as [|f fields IH]; intros init; simpl.
  - rewrite elem_of_nil. tauto.
  - rewrite IH, elem_of_union, elem_of_singleton, elem_of_cons. tauto.
Qed.


Lemma populateStruct_fold (fuel : nat) (existing : gset string)
    (members : list (string * btfType)) (fields : list Field) :
  ∃ added,
    foldl (λ acc '(name, type),
             match acc with
             | Done fields =>
                 if decide (name ∈ existing) then Done fields
                 else
                   match getColumnSize columns (S (S fuel)) type with
                   | Done width => Done (fields ++ [newField name width])
                   | GoPanic why => GoPanic why
                   | OutOfFuel => OutOfFuel
                   end
             | stuck => stuck
             end)
          (Done fields) members = Done (fields ++ added) ∧
    (∀ name, name ∈ fst <$> members →
       name ∈ existing ∨ name ∈ (FieldName <$> added)) ∧
    (∀ f, f ∈ added →
       (FieldName f ∉ existing) ∧
       ∃ type, (FieldName f, type) ∈ members ∧
               getColumnSize columns (S (S fuel)) type = Done (Width (Attributes f)) ∧
               f = newField (FieldName f) (Width (Attributes f))).
Proof.
  revert fields. induction members as [|[name type] members IH]; intros fields.
  - exists []. simpl. rewrite app_nil_r. split; [done|].
    split; [by intros ? ?%elem_of_nil | by intros ? ?%elem_of_nil].
  - cbn [foldl]. destruct (decide (name ∈ existing)) as [Hin|Hin].
    + destruct (IH fields) as (added & Hrun & Hall & Hnew).
      exists added. split; [done|]. split.
      * intros name'. rewrite fmap_cons, elem_of_cons. intros [->|?]; auto.
      * intros f Hf. destruct (Hnew f Hf) as (? & type' & ? & ?).
        split; [done|]. exists type'. rewrite elem_of_cons. auto.
    + destruct (getColumnSize_returns fuel type) as [width Hw]. rewrite Hw.
      destruct (IH (fields ++ [newField name width])) as (added & Hrun & Hall & Hnew).
      exists (newField name width :: added). split.
      { rewrite Hrun. by rewrite <- app_assoc. }
      split.
      * intros name'. rewrite !fmap_cons, !elem_of_cons. simpl.
        intros [->|H]; [auto|]. destruct (Hall _ H); auto.
      * intros f. rewrite elem_of_cons. intros [->|Hf].
        { split; [done|]. exists type. simpl. rewrite elem_of_cons. auto. }
        destruct (Hnew f Hf) as (? & type' & ? & ?).
        split; [done|]. exists type'. rewrite elem_of_cons. auto.
Qed.

Lemma populateStruct_added (fuel : nat) (s : btfStruct) (m : GadgetMetadata) :
  ∃ added,
    populateStruct columns (S (S fuel)) s m =
      Done (set_Structs
              (<[StructName s := mkStructDesc (describedFields m (StructName s) ++ added)]>
                 (Structs m)) m) ∧
    (∀ name, name ∈ fst <$> Members s →
       name ∈ (FieldName <$> (describedFields m (StructName s) ++ added))) ∧
    (∀ f, f ∈ added →
       (FieldName f ∉ FieldName <$> describedFields m (StructName s)) ∧
       ∃ type, (FieldName f, type) ∈ Members s ∧
               getColumnSize columns (S (S fuel)) type = Done (Width (Attributes f)) ∧
               f = newField (FieldName f) (Width (Attributes f))).
Proof.
  unfold populateStruct. fold (describedFields m (StructName s)).
  set (existing := foldl (λ names field, {[ FieldName field ]} ∪ names) (∅ : gset string)
                     (describedFields m (StructName s))).
  destruct (populateStruct_fold fuel existing (Members s)
              (describedFields m (StructName s))) as (added & Hrun & Hall & Hnew).
  assert (Hex : ∀ name, name ∈ existing ↔
                        name ∈ FieldName <$> describedFields m (StructName s)).
  { intros name. unfold existing. rewrite existingFields_spec, elem_of_empty. tauto. }
  exists added. rewrite Hrun. split; [done|]. split.
  - intros name Hname. rewrite fmap_app, elem_of_app, <- Hex. auto.
  - intros f Hf. rewrite <- Hex. auto.
Qed.


(** populateStruct done twice is populateStruct done once: the second
    run finds a field for every member and changes nothing. *)
Theorem populateStruct_idempotent (fuel : nat) (s : btfStruct) (m m' : GadgetMetadata)
    (Hrun : populateStruct columns (S (S fuel)) s m = Done m') :
  populateStruct columns (S (S fuel)) s m' = Done m'.
Proof.
  destruct (populateStruct_added fuel s m) as (added & Hm' & Hall & _).
  rewrite Hm' in Hrun. injection Hrun as <-.
  destruct (populateStruct_added fuel s
              (set_Structs
                 (<[StructName s := mkStructDesc (describedFields m (StructName s) ++ added)]>
                    (Structs m)) m)) as (added' & -> & _ & Hnew).
  assert (Hd : describedFields
                 (set_Structs
                    (<[StructName s := mkStructDesc
                                         (describedFields m (StructName s) ++ added)]>
                       (Structs m)) m) (StructName s) =
               describedFields m (StructName s) ++ added).
  { unfold describedFields at 1. simpl. by rewrite lookup_insert_eq. }
  rewrite Hd in *.
  destruct added' as [|f added'].
  - rewrite app_nil_r. unfold set_Structs. simpl. by rewrite insert_insert_eq.
  - exfalso. destruct (Hnew f) as (Hnot & type & Hin & _); [by left|].
    apply Hnot, Hall. apply list_elem_of_fmap. by exists (FieldName f, type).
Qed.


Lemma afterPrefix_spec (s prefix rest : string) :
  afterPrefix s prefix = Some rest ↔ s = (prefix ++ rest)%string.
Proof.
  revert s. induction prefix as [|p prefix IH]; intros s; simpl.
  - split; [by intros [= ->] | by intros ->].
  - destruct s as [|c s]; [split; discriminate|].
    destruct (Ascii.eqb p c) eqn:Hpc.
    + apply Ascii.eqb_eq in Hpc as ->. rewrite IH. split; [by intros -> | by intros [= ->]].
    + apply Ascii.eqb_neq in Hpc. split; [discriminate | intros [= ? ?]; congruence].
Qed.

Lemma HasPrefix_spec (s prefix : string) :
  HasPrefix s prefix = true ↔ ∃ rest, s = (prefix ++ rest)%string.
Proof.
  unfold HasPrefix. destruct (afterPrefix s prefix) as [rest|] eqn:H.
  - apply afterPrefix_spec in H. split; eauto.
  - split; [discriminate|]. intros [rest Hrest%afterPrefix_spec]. congruence.
Qed.

Lemma TrimPrefix_spec (prefix rest : string) :
  TrimPrefix (prefix ++ rest) prefix = rest.
Proof.
  unfold TrimPrefix.
  by rewrite (proj2 (afterPrefix_spec (prefix ++ rest) prefix rest) eq_refl).
Qed.

Lemma GetGadgetIdentByPrefix_Types maps progs sbn prefix (types : list btfType) :
  let '(resultNames, resultError) :=
    GetGadgetIdentByPrefix (mkCollectionSpec maps progs types sbn) prefix in
  (∀ ident, ident ∈ resultNames ↔
     ∃ linkage, Var (prefix ++ ident) (Pointer (Const Void)) linkage ∈ types) ∧
  (resultError = [] ↔
     ∀ name type linkage, Var name type linkage ∈ types →
       HasPrefix name prefix = true →
       linkage = GlobalVar ∧ type = Pointer (Const Void)).
Proof.
  unfold GetGadgetIdentByPrefix. cbn [Types].
  induction types as [|type types IH] using rev_ind.
  { simpl. split.
    - intros ident. rewrite elem_of_nil. split; [done|]. by intros [? ?%elem_of_nil].
    - split; [|done]. by intros _ ? ? ? ?%elem_of_nil. }
  rewrite foldl_app. cbn [foldl].
  destruct (foldl _ _ types) as [names errs]. destruct IH as [IHn IHe].
  assert (Hskip :
    (∀ name ty linkage, type = Var name ty linkage → HasPrefix name prefix = false) →
    (∀ ident, ident ∈ names ↔
       ∃ linkage, Var (prefix ++ ident) (Pointer (Const Void)) linkage ∈ types ++ [type]) ∧
    (errs = [] ↔
       ∀ name ty linkage, Var name ty linkage ∈ types ++ [type] →
         HasPrefix name prefix = true →
         linkage = GlobalVar ∧ ty = Pointer (Const Void))).
  { intros Hno. split.
    - intros ident. rewrite IHn. split; intros [linkage H]; exists linkage.
      + apply elem_of_app. auto.
      + apply elem_of_app in H as [H|H%list_elem_of_singleton]; [done|].
        symmetry in H. apply Hno in H.
        rewrite (proj2 (HasPrefix_spec _ _)) in H by eauto. discriminate.
    - rewrite IHe. split; intros H name ty linkage Hin Hp.
      + apply elem_of_app in Hin as [Hin|Hin%list_elem_of_singleton]; [eauto|].
        symmetry in Hin. apply Hno in Hin. congruence.
      + apply (H name); [|done]. apply elem_of_app. auto. }
  destruct type as [| | | | | | |name varType linkage|]; try (apply Hskip; discriminate).
  destruct (HasPrefix name prefix) eqn:Hp; cbn [negb].
  2: { apply Hskip. by intros ? ? ? [= <- _ _]. }
  assert (Hname : name = (prefix ++ TrimPrefix name prefix)%string).
  { apply HasPrefix_spec in Hp as [rest ->]. by rewrite TrimPrefix_spec. }
  assert (Hbad :
    varType ≠ Pointer (Const Void) →
    ∀ errs' : list merror, errs' ≠ [] →
    (∀ ident, ident ∈ names ↔
       ∃ linkage', Var (prefix ++ ident) (Pointer (Const Void)) linkage'
                   ∈ types ++ [Var name varType linkage]) ∧
    (errs' = [] ↔
       ∀ name' ty linkage', Var name' ty linkage' ∈ types ++ [Var name varType linkage] →
         HasPrefix name' prefix = true →
         linkage' = GlobalVar ∧ ty = Pointer (Const Void))).
  { intros Hty errs' Herrs. split.
    - intros ident. rewrite IHn. split; intros [linkage' H]; exists linkage'.
      + apply elem_of_app. auto.
      + apply elem_of_app in H as [H|H%list_elem_of_singleton]; [done|]. congruence.
    - split; [done|]. intros H. destruct (H name varType linkage) as [_ ?]; [|done|done].
      apply elem_of_app. right. by apply list_elem_of_singleton. }
  assert (Hne : ∀ (l : list merror) e, l ++ [e] ≠ []) by (intros [] ? ; discriminate).
  destruct varType as [| |target| | | | | |]; try (apply Hbad; [discriminate | apply Hne]).
  destruct target as [| | |inner| | | | |]; try (apply Hbad; [discriminate | apply Hne]).
  destruct inner; try (apply Hbad; [discriminate | apply Hne]).
  split.
  - intros ident. rewrite elem_of_app, list_elem_of_singleton, IHn. split.
    + intros [[linkage' H]| ->].
      * exists linkage'. apply elem_of_app. auto.
      * exists linkage. apply elem_of_app. right. apply list_elem_of_singleton.
        by rewrite <- Hname.
    + intros [linkage' H]. apply elem_of_app in H as [H|H%list_elem_of_singleton]; [eauto|].
      right. injection H as Hn _. rewrite <- Hn. by rewrite TrimPrefix_spec.
  - transitivity (errs = [] ∧ linkage = GlobalVar).
    { destruct linkage; split; try (intros [? ?]; done); try (intros ->; done);
        try (intros H; by destruct (Hne _ _ H)). }
    rewrite IHe. split.
    + intros [H ->] name' ty linkage' Hin Hp'.
      apply elem_of_app in Hin as [Hin|Hin%list_elem_of_singleton]; [eauto|].
      by injection Hin as -> -> ->.
    + intros H. split.
      * intros name' ty linkage' Hin. apply H, elem_of_app. auto.
      * destruct (H name (Pointer (Const Void)) linkage); [|done|done].
        apply elem_of_app. right. by apply list_elem_of_singleton.
Qed.

(** GetGadgetIdentByPrefix returns the identifiers of the variables
    declared as [const void *] whose name starts with the prefix, the prefix
    taken off; a variable that is not global is reported and returned all the
    same. *)
Theorem GetGadgetIdentByPrefix_names (spec : CollectionSpec) (prefix ident : string) :
  ident ∈ (GetGadgetIdentByPrefix spec prefix).1 ↔
  ∃ linkage, Var (prefix ++ ident) (Pointer (Const Void)) linkage ∈ Types spec.
Proof.
  destruct spec as [maps progs types sbn].
  pose proof (GetGadgetIdentByPrefix_Types maps progs sbn prefix types) as H.
  destruct (GetGadgetIdentByPrefix _ _) as [names errs]. apply H.
Qed.

(** GetGadgetIdentByPrefix returns a nil error exactly when every
    variable whose name starts with the prefix is global and declared as
    [const void *]. *)
Theorem GetGadgetIdentByPrefix_error (spec : CollectionSpec) (prefix : string) :
  (GetGadgetIdentByPrefix spec prefix).2 = [] ↔
  ∀ name type linkage, Var name type linkage ∈ Types spec →
    HasPrefix name prefix = true →
    linkage = GlobalVar ∧ type = Pointer (Const Void).
Proof.
  destruct spec as [maps progs types sbn].
  pose proof (GetGadgetIdentByPrefix_Types maps progs sbn prefix types) as H.
  destruct (GetGadgetIdentByPrefix _ _) as [names errs]. apply H.
Qed.


Lemma prefix_before_separator (c : ascii) (a rest : string) :
  HasPrefix (String c (a ++ "___" ++ rest)) "___" =
  HasPrefix (String c (a ++ "__")) "___".
Proof.
  unfold HasPrefix. destruct a as [|d [|e a]]; cbv [afterPrefix String.append];
    repeat match goal with |- context [Ascii.eqb ?x ?y] => destruct (Ascii.eqb x y) end;
    reflexivity.
Qed.

Lemma Split_from_part (a rest part : string) :
  occurs "___" (a ++ "__") = false →
  Split_from (a ++ "___" ++ rest) "___" 0 part =
    (part ++ a)%string :: Split_from rest "___" 0 "".
Proof.
  revert part. induction a as [|c a IH]; intros part Hclean.
  - by rewrite string_append_nil_r.
  - change (occurs "___" (String c a ++ "__"))
      with (HasPrefix (String c (a ++ "__")) "___" || occurs "___" (a ++ "__")) in Hclean.
    apply orb_false_iff in Hclean as [Hhere Hlater].
    change (Split_from (String c a ++ "___" ++ rest) "___" 0 part)
      with (if HasPrefix (String c (a ++ "___" ++ rest)) "___"
            then part :: Split_from (a ++ "___" ++ rest) "___" 2 ""
            else Split_from (a ++ "___" ++ rest) "___" 0 (part ++ String c "")).
    rewrite prefix_before_separator, Hhere, (IH _ Hlater).
    rewrite string_append_assoc. reflexivity.
Qed.

Lemma Split_from_last (s part : string) :
  occurs "___" s = false → Split_from s "___" 0 part = [(part ++ s)%string].
Proof.
  revert part. induction s as [|c s IH]; intros part Hclean.
  - by rewrite string_append_nil_r.
  - change (occurs "___" (String c s))
      with (HasPrefix (String c s) "___" || occurs "___" s) in Hclean.
    apply orb_false_iff in Hclean as [Hhere Hlater].
    change (Split_from (String c s) "___" 0 part)
      with (if HasPrefix (String c s) "___"
            then part :: Split_from s "___" 2 ""
            else Split_from s "___" 0 (part ++ String c "")).
    rewrite Hhere, (IH _ Hlater). rewrite string_append_assoc. reflexivity.
Qed.

(** getTracerInfo reads the annotation [name___map___type] of
    GADGET_TRACER() back as its three parts, when the name and the map do
    not end in an underscore and none of the three holds three underscores
    in a row. *)
Theorem getTracerInfo_parses (spec : CollectionSpec) (name map type : string)
    (others : list string)
    (Hfirst : GetGadgetIdentByPrefix spec tracerInfoPrefix =
              ((name ++ "___" ++ map ++ "___" ++ type)%string :: others, []))
    (Hname : occurs "___" (name ++ "__") = false)
    (Hmap : occurs "___" (map ++ "__") = false)
    (Htype : occurs "___" type = false) :
  getTracerInfo spec = (Some (mkTracerInfo name map type), []).
Proof.
  unfold getTracerInfo, Split. rewrite Hfirst.
  rewrite (Split_from_part name _ "" Hname), (Split_from_part map _ "" Hmap),
    (Split_from_last type "" Htype).
  reflexivity.
Qed.


Lemma populateStruct_nil_spec (fuel : nat) (s : btfStruct) (m m' : GadgetMetadata)
    (err : list merror) :
  populateStruct_nil columns (S (S fuel)) s m = Done (m', err) →
  err = [] ∧ core m' = core m ∧ is_Some (Structs m' !! StructName s).
Proof.
  unfold populateStruct_nil.
  destruct (populateStruct_added fuel s m) as (added & -> & _).
  intros [= <- <-]. simpl. rewrite lookup_insert_eq. eauto.
Qed.

(** On an eBPF object as the loader makes it, the tracer that
    populateTracers adds to metadata without tracers passes validateTracers:
    if populateTracers returns nil, so does validateTracers on the result. *)
Theorem populateTracers_validates (fuel : nat) (spec : CollectionSpec)
    (m m' : GadgetMetadata)
    (Hloaded : loaded spec)
    (Hnone : Tracers (core m) = ∅)
    (Hrun : populateTracers columns (S (S fuel)) spec m = Done (m', [])) :
  validateTracers spec m' = [].
Proof.
  destruct Hloaded as [Hmaps Hstructs].
  apply validateTracers_range.
  unfold populateTracers in Hrun.
  destruct (getTracerInfo spec) as [[info|] [|e errs]]; try discriminate.
  2: { injection Hrun as <-. unfold range. rewrite Hnone, map_size_empty, map_to_list_empty.
       split; [lia | apply Forall_nil_2]. }
  destruct (Maps spec !! tracerMapName info) as [tracerMap|] eqn:Hmap; [|discriminate].
  destruct (validateTracerMap tracerMap "") eqn:Hvalid; [discriminate|].
  destruct (StructByName spec (eventType info)) as [tracerMapStruct|] eqn:Hstruct;
    [|discriminate].
  rewrite Hnone, lookup_empty in Hrun.
  apply populateStruct_nil_spec in Hrun as (_ & Hcore & Hdescribed).
  rewrite Hcore. simpl. unfold range.
  rewrite insert_empty, map_size_singleton, map_to_list_singleton. split; [done|].
  apply Forall_singleton.
  destruct (Hmaps _ _ Hmap) as [Hkey Hname], (Hstructs _ _ Hstruct) as [Hs Hsname].
  unfold tracerAccepted. simpl. rewrite Hname, Hsname in *.
  repeat (split; [done|]). exists tracerMap. split; [done|].
  unfold validateTracerMap in Hvalid.
  destruct (Type_ tracerMap); (discriminate || auto).
Qed.

(** On an eBPF object as the loader makes it, the snapshotter that
    populateSnapshotters adds to metadata without snapshotters passes
    validateSnapshotters. *)
Theorem populateSnapshotters_validates (fuel : nat) (spec : CollectionSpec)
    (m m' : GadgetMetadata)
    (Hloaded : loaded spec)
    (Hnone : Snapshotters (core m) = ∅)
    (Hrun : populateSnapshotters columns (S (S fuel)) spec m = Done (m', [])) :
  validateSnapshotters spec m' = [].
Proof.
  destruct Hloaded as [_ Hstructs].
  apply validateSnapshotters_range.
  unfold populateSnapshotters in Hrun.
  destruct (GetGadgetIdentByPrefix spec snapshottersPrefix).1 as [|info others].
  { injection Hrun as <-. unfold range. rewrite Hnone, map_size_empty, map_to_list_empty.
    split; [lia | apply Forall_nil_2]. }
  destruct (Split info "___") as [|sname [|stype [|? ?]]]; try discriminate.
  destruct (StructByName spec stype) as [btfStruct|] eqn:Hstruct; [|discriminate].
  rewrite Hnone, lookup_empty in Hrun.
  apply populateStruct_nil_spec in Hrun as (_ & Hcore & Hdescribed).
  rewrite Hcore. simpl. unfold range.
  rewrite insert_empty, map_size_singleton, map_to_list_singleton. split; [done|].
  apply Forall_singleton.
  destruct (Hstructs _ _ Hstruct) as [Hs Hsname].
  simpl. rewrite Hsname in *. done.
Qed.

(** On an eBPF object as the loader makes it, the topper that
    populateToppers adds to metadata without toppers passes
    validateToppers. *)
Theorem populateToppers_validates (fuel : nat) (spec : CollectionSpec)
    (m m' : GadgetMetadata)
    (Hloaded : loaded spec)
    (Hnone : Toppers (core m) = ∅)
    (Hrun : populateToppers columns (S (S fuel)) spec m = Done (m', [])) :
  validateToppers spec m' = [].
Proof.
  destruct Hloaded as [Hmaps Hstructs].
  apply validateToppers_range.
  unfold populateToppers in Hrun.
  destruct (getTopperInfo spec) as [[info|] [|e errs]]; try discriminate.
  2: { injection Hrun as <-. unfold range. rewrite Hnone, map_size_empty, map_to_list_empty.
       split; [lia | apply Forall_nil_2]. }
  destruct (Maps spec !! topperMapName info) as [topperMap|] eqn:Hmap; [|discriminate].
  rewrite Hnone, lookup_empty in Hrun. simpl in Hrun.
  destruct (validateTopperMap topperMap "") eqn:Hvalid; [discriminate|].
  destruct (Value topperMap) as [value|] eqn:Hvalue; [|discriminate].
  destruct (StructByName spec (TypeName value)) as [topperMapStruct|] eqn:Hstruct;
    [|discriminate].
  apply populateStruct_nil_spec in Hrun as (_ & Hcore & Hdescribed).
  rewrite Hcore. simpl. unfold range.
  rewrite insert_empty, map_size_singleton, map_to_list_singleton. split; [done|].
  apply Forall_singleton.
  destruct (Hmaps _ _ Hmap) as [Hkey Hname], (Hstructs _ _ Hstruct) as [Hs Hsname].
  unfold topperAccepted. simpl. rewrite Hname, Hsname in *.
  repeat (split; [done|]).
  unfold validateTopperMap in Hvalid. rewrite Hvalue in Hvalid.
  destruct (Type_ topperMap) eqn:Htype; try discriminate.
  destruct value; try discriminate.
  exists topperMap, members. simpl. auto.
Qed.


End MetadataPopulate.

(** ** The populator and the validators on an annotated eBPF object *)

Section MetadataSamples.
Import Metadata Ebpf MetadataMore.

Lemma annotated_loaded : loaded annotated.
Proof.
  split.
  - intros key ebpfMap. unfold annotated. cbn [Maps].
    rewrite lookup_insert_Some, lookup_singleton_Some.
    intros [[<- <-]|[_ [<- <-]]]; done.
  - intros name btfStruct. unfold annotated. cbn [StructByName].
    destruct (String.eqb name "event") eqn:Hname; [|discriminate].
    apply String.eqb_eq in Hname as ->. by intros [= <-].
Qed.

Lemma populateStruct_idempotent_witness :
  ∃ m', populateStruct decimalColumns 2 eventStruct described = Done m' ∧
        populateStruct decimalColumns 2 eventStruct m' = Done m'.
Proof.
  eexists. split; [vm_compute; reflexivity|].
  apply (populateStruct_idempotent decimalColumns 0 eventStruct described).
  vm_compute. reflexivity.
Defined.

Lemma getTracerInfo_parses_witness :
  getTracerInfo annotated = (Some (mkTracerInfo "open" "events" "event"), []).
Proof.
  apply (getTracerInfo_parses annotated "open" "events" "event" []); reflexivity.
Defined.

(** A name that ends in an underscore is not read back: the separator is
    found one character early. *)
Example getTracerInfo_trailing_underscore :
  getTracerInfo
    (mkCollectionSpec ∅ ∅
       [Var "gadget_tracer_open____events___event" (Pointer (Const Void)) GlobalVar]
       (λ _, Err "not found")) =
    (Some (mkTracerInfo "open" "_events" "event"), []).
Proof. reflexivity. Qed.

(** A variable that is not global is reported, and is among the names. *)
Example GetGadgetIdentByPrefix_static :
  GetGadgetIdentByPrefix
    (mkCollectionSpec ∅ ∅
       [Var "gadget_param_pid" (Pointer (Const Void)) StaticVar;
        Var "gadget_param_uid" (Pointer Void) GlobalVar;
        Var "other" (Pointer (Const Void)) GlobalVar]
       (λ _, Err "not found")) "gadget_param_" =
    (["pid"],
     [Errorf "%q is not a global variable" ["gadget_param_pid"] [];
      Errorf "%q is not const" ["gadget_param_uid"] []]).
Proof. reflexivity. Qed.

Lemma populateTracers_validates_witness :
  ∃ m', populateTracers decimalColumns 2 annotated blank = Done (m', []) ∧
        validateTracers annotated m' = [].
Proof.
  eexists. split; [vm_compute; reflexivity|].
  apply (populateTracers_validates decimalColumns 0 annotated blank);
    [exact annotated_loaded | reflexivity | vm_compute; reflexivity].
Defined.

Lemma populateSnapshotters_validates_witness :
  ∃ m', populateSnapshotters decimalColumns 2 annotated blank = Done (m', []) ∧
        validateSnapshotters annotated m' = [].
Proof.
  eexists. split; [vm_compute; reflexivity|].
  apply (populateSnapshotters_validates decimalColumns 0 annotated blank);
    [exact annotated_loaded | reflexivity | vm_compute; reflexivity].
Defined.

Lemma populateToppers_validates_witness :
  ∃ m', populateToppers decimalColumns 2 annotated blank = Done (m', []) ∧
        validateToppers annotated m' = [].
Proof.
  eexists. split; [vm_compute; reflexivity|].
  apply (populateToppers_validates decimalColumns 0 annotated blank);
    [exact annotated_loaded | reflexivity | vm_compute; reflexivity].
Defined.

End MetadataSamples.
